(** * Handlebars Preview Plus: the companion-module recipe loader, the
      TypeScript compiler context and the render pipeline.

    A shallow embedding of [templateModuleLoader.ts], [tsCompiler.ts],
    [templateRenderer.ts] and the module-selection step of
    [previewManager.ts], together with the properties of the specification
    that concern them.

    Conventions.
    - JavaScript strings are [string]s; paths follow the POSIX flavour of
      Node's [path] module.
    - An [async] function is modelled by the settled value of the promise it
      returns: [Ok v] for fulfilment, [Err e] for rejection.
    - A function of a companion module is modelled by what a call of it
      returns or throws; it does not load further modules when called.
    - Everything the loader obtains from the outside (file system, module
      execution, the TypeScript compiler, the templating engine) is a field
      of an explicit host record.
    - The module-level variables of the sources are the fields of explicit
      state records, passed in and returned. *)

From Stdlib Require Import ZArith Ascii String DecimalString Lia.
From stdpp Require Import base option list gmap strings.

Open Scope string_scope.
(* [++] is list append throughout; strings are appended with [+:+]. *)
#[local] Disable Notation "_ ++ _" : string_scope.

(** ** Strings *)

Module Str.

Definition is_empty (s : string) : bool :=
  match s with EmptyString => true | String _ _ => false end.

Definition startsWith (s pre : string) : bool := String.prefix pre s.

Definition first_is (c : ascii) (s : string) : bool :=
  match s with String d _ => Ascii.eqb d c | EmptyString => false end.

Fixpoint last_is (c : ascii) (s : string) : bool :=
  match s with
  | EmptyString => false
  | String d EmptyString => Ascii.eqb d c
  | String _ rest => last_is c rest
  end.

(** [split sep s]: the pieces of [s] between occurrences of [sep]; never
    empty (the split of the empty string is one empty piece), like [String.prototype.split]. *)
Fixpoint split (sep : ascii) (s : string) : list string :=
  match s with
  | EmptyString => [EmptyString]
  | String c rest =>
      let pieces := split sep rest in
      if Ascii.eqb c sep then EmptyString :: pieces
      else match pieces with
           | [] => [String c EmptyString]
           | piece :: more => String c piece :: more
           end
  end.

Fixpoint join (sep : string) (pieces : list string) : string :=
  match pieces with
  | [] => EmptyString
  | [piece] => piece
  | piece :: more => piece +:+ sep +:+ join sep more
  end.

Fixpoint contains_char (c : ascii) (s : string) : bool :=
  match s with
  | EmptyString => false
  | String d rest => Ascii.eqb d c || contains_char c rest
  end.

(** ASCII letters only, as [toLowerCase] acts on them. *)
Definition lower_char (c : ascii) : ascii :=
  let n := nat_of_ascii c in
  if (65 <=? n)%nat && (n <=? 90)%nat then ascii_of_nat (n + 32) else c.

Fixpoint toLowerCase (s : string) : string :=
  match s with
  | EmptyString => EmptyString
  | String c rest => String (lower_char c) (toLowerCase rest)
  end.

(** The ASCII members of the white space that [trim] removes. *)
Definition is_space (c : ascii) : bool :=
  let n := nat_of_ascii c in
  (n =? 32)%nat || ((9 <=? n)%nat && (n <=? 13)%nat).

(** [s.trim().length > 0] *)
Fixpoint trim_nonempty (s : string) : bool :=
  match s with
  | EmptyString => false
  | String c rest => negb (is_space c) || trim_nonempty rest
  end.

End Str.

(** ** Node's [path] module (POSIX)

    The loader relies on [path.normalize], [path.isAbsolute],
    [path.resolve], [path.dirname], [path.extname] and [path.relative].  They
    belong to the Node runtime; the definitions below follow the runtime's
    POSIX implementation, segment by segment. *)

Module path.

Definition sep : ascii := "/"%char.

Definition isAbsolute (p : string) : bool := Str.first_is sep p.

Definition is_dotdot (seg : string) : bool := String.eqb seg "..".

(** One segment of [normalizeString]; [res] is the stack of segments kept
    so far, innermost first. *)
Definition normalize_step (allowAboveRoot : bool)
    (res : list string) (seg : string) : list string :=
  if Str.is_empty seg || String.eqb seg "." then res
  else if is_dotdot seg then
    match res with
    | last :: rest =>
        if is_dotdot last
        then (if allowAboveRoot then seg :: res else res)
        else rest
    | [] => if allowAboveRoot then [seg] else []
    end
  else seg :: res.

Definition normalize_segments (allowAboveRoot : bool)
    (segs : list string) : list string :=
  rev (fold_left (normalize_step allowAboveRoot) segs []).

Definition normalizeString (p : string) (allowAboveRoot : bool) : string :=
  Str.join "/" (normalize_segments allowAboveRoot (Str.split sep p)).

Definition normalize (p : string) : string :=
  if Str.is_empty p then "."
  else
    let absolute := isAbsolute p in
    let trailingSeparator := Str.last_is sep p in
    let body := normalizeString p (negb absolute) in
    if Str.is_empty body then
      if absolute then "/" else if trailingSeparator then "./" else "."
    else
      let body := if trailingSeparator then body +:+ "/" else body in
      if absolute then "/" +:+ body else body.

(** The right-to-left loop of [path.resolve]: [acc] is [resolvedPath].
    [parts] holds the arguments from last to first, followed by the
    working directory. *)
Fixpoint resolve_loop (parts : list string) (acc : string)
    : string * bool :=
  match parts with
  | [] => (acc, false)
  | part :: more =>
      if Str.is_empty part then resolve_loop more acc
      else
        let acc := part +:+ "/" +:+ acc in
        if isAbsolute part then (acc, true) else resolve_loop more acc
  end.

Definition resolve (cwd : string) (args : list string) : string :=
  let '(resolvedPath, resolvedAbsolute) :=
    resolve_loop (rev args ++ [cwd]) EmptyString in
  let body := normalizeString resolvedPath (negb resolvedAbsolute) in
  if resolvedAbsolute then "/" +:+ body
  else if Str.is_empty body then "." else body.

(** [path.dirname], scanning from the end as the runtime does.  [rchars]
    is the path without its first character, reversed; the result is the
    number of characters of that tail to keep, if a separator ends the
    directory part. *)
Fixpoint dirname_scan (rchars : list ascii) (matchedSlash : bool)
    : option nat :=
  match rchars with
  | [] => None
  | c :: more =>
      if Ascii.eqb c sep then
        if matchedSlash then dirname_scan more true
        else Some (length more)
      else dirname_scan more false
  end.

Fixpoint take_string (n : nat) (s : string) : string :=
  match n, s with
  | S k, String c rest => String c (take_string k rest)
  | _, _ => EmptyString
  end.

Definition dirname (p : string) : string :=
  match p with
  | EmptyString => "."
  | String c0 tail =>
      let hasRoot := Ascii.eqb c0 sep in
      match dirname_scan (rev (list_ascii_of_string tail)) true with
      | None => if hasRoot then "/" else "."
      | Some kept =>
          (* [end = kept + 1] in the runtime's indices *)
          if hasRoot && (kept =? 0)%nat then "//"
          else String c0 (take_string kept tail)
      end
  end.

(** [path.extname]: the extension of the last path component, from its
    last dot; empty when that component starts with its only dot or is
    "..". *)
Definition basename_part (p : string) : string :=
  let segs := filter (fun s => negb (Str.is_empty s)) (Str.split sep p) in
  List.last segs EmptyString.

Fixpoint after_last_dot (s : string) : option string :=
  match s with
  | EmptyString => None
  | String c rest =>
      match after_last_dot rest with
      | Some ext => Some ext
      | None => if Ascii.eqb c "."%char then Some rest else None
      end
  end.

Definition extname (p : string) : string :=
  let base := basename_part p in
  match after_last_dot base with
  | None => EmptyString
  | Some ext =>
      if String.eqb base ("." +:+ ext) then
        EmptyString                         (* ".bashrc", "." *)
      else if String.eqb base ".." then EmptyString
      else "." +:+ ext
  end.

Fixpoint strip_common (from to : list string)
    : list string * list string :=
  match from, to with
  | f :: from', t :: to' =>
      if String.eqb f t then strip_common from' to' else (from, to)
  | _, _ => (from, to)
  end.

Definition segments_of (absolutePath : string) : list string :=
  filter (fun s => negb (Str.is_empty s)) (Str.split sep absolutePath).

(** [path.relative]: both arguments are resolved, their common leading
    segments dropped, and one ".." emitted for each segment left of
    [from]. *)
Definition relative (cwd : string) (from to : string) : string :=
  if String.eqb from to then EmptyString
  else
    let from := resolve cwd [from] in
    let to := resolve cwd [to] in
    if String.eqb from to then EmptyString
    else
      let '(up, down) := strip_common (segments_of from) (segments_of to) in
      Str.join "/" (map (fun _ => "..") up ++ down).

End path.

(** ** Errors and results *)

(** The exceptions the modelled code can raise or let through.  The host's
    and the user code's own exceptions are [Thrown] with their message. *)
Inductive Error : Type :=
| CompanionModuleNotFound (modulePath : string)
| DepthExceeded
| PartialMissingFilePath (name : string)
| PartialReadFailed (name normalizedPath cause : string)
| TypeError (message : string)
| Thrown (message : string)
| OutOfFuel.

Definition dquote : string := String (ascii_of_nat 34) EmptyString.

Definition errorMessage (e : Error) : string :=
  match e with
  | CompanionModuleNotFound modulePath =>
      "Companion module not found: " +:+ modulePath
  | DepthExceeded =>
      "Exceeded maximum depth while resolving preview configuration."
  | PartialMissingFilePath name =>
      "Partial " +:+ dquote +:+ name +:+ dquote +:+ " is missing a file path."
  | PartialReadFailed name normalizedPath cause =>
      "Failed to read partial " +:+ dquote +:+ name +:+ dquote +:+ " at "
        +:+ normalizedPath +:+ ": " +:+ cause
  | TypeError message => message
  | Thrown message => message
  | OutOfFuel => "fuel exhausted"
  end.

Inductive Result (A : Type) : Type :=
| Ok (a : A)
| Err (e : Error).
Arguments Ok {A} a.
Arguments Err {A} e.

#[global] Instance Result_ret : MRet Result := fun A a => Ok a.
#[global] Instance Result_bind : MBind Result := fun A B f m =>
  match m with Ok a => f a | Err e => Err e end.
#[global] Instance Result_fmap : FMap Result := fun A B f m =>
  match m with Ok a => Ok (f a) | Err e => Err e end.

Definition is_ok {A} (r : Result A) : bool :=
  match r with Ok _ => true | Err _ => false end.

(** ** JavaScript values *)

Record ProcessingContext : Type := {
  ctx_templatePath : string;
  ctx_modulePath : string;
  ctx_workspaceFolder : option string;
}.

(** What the loader and the renderer pass to user functions: the template
    text or rendered output, and the processing context. *)
Inductive Arg : Type :=
| ArgText (content : string)
| ArgContext (context : ProcessingContext).

#[local] Set Warnings "-register-all".

(** A value exported by a companion module.  Numbers are the integral ones.
    [VRef l] names an object kept in the store, which is how an export can
    refer to itself. *)
Inductive Value : Type :=
| VUndefined
| VNull
| VBool (b : bool)
| VNum (n : Z)
| VStr (s : string)
| VObj (props : list (string * Value))
| VArr (elems : list Value)
| VFun (call : list Arg -> Outcome)
| VRef (l : nat)
with Outcome : Type :=
| Returns (v : Value)        (* returns v *)
| Fulfils (v : Value)        (* returns a promise fulfilled with v *)
| Throws (message : string)  (* throws *)
| Rejects (message : string).  (* returns a promise that is rejected *)

Definition Store := gmap nat Value.

(** Reading through a reference.  A store cell holds an object, never a
    reference; a dangling or chained reference reads as [undefined]. *)
Definition deref (store : Store) (v : Value) : Value :=
  match v with
  | VRef l =>
      match store !! l with
      | Some (VRef _) | None => VUndefined
      | Some target => target
      end
  | _ => v
  end.

Inductive JSType : Type :=
| TUndefined | TObject | TBoolean | TNumber | TString | TFunction.

Definition typeof (v : Value) : JSType :=
  match v with
  | VUndefined | VRef _ => TUndefined
  | VNull | VObj _ | VArr _ => TObject
  | VBool _ => TBoolean
  | VNum _ => TNumber
  | VStr _ => TString
  | VFun _ => TFunction
  end.

Definition is_function (v : Value) : bool :=
  match v with VFun _ => true | _ => false end.

(** [v === undefined || v === null] *)
Definition nullish (v : Value) : bool :=
  match v with VUndefined | VNull => true | _ => false end.

Definition is_undefined (v : Value) : bool :=
  match v with VUndefined => true | _ => false end.

(** [!v] *)
Definition falsy (v : Value) : bool :=
  match v with
  | VUndefined | VNull | VBool false => true
  | VNum n => Z.eqb n 0
  | VStr s => Str.is_empty s
  | _ => false
  end.

Fixpoint assoc_lookup {A} (key : string) (props : list (string * A))
    : option A :=
  match props with
  | [] => None
  | (k, v) :: rest => if String.eqb k key then Some v else assoc_lookup key rest
  end.

(** [obj[key] = v] on an object kept as its list of own properties, in
    insertion order. *)
Fixpoint assoc_set {A} (key : string) (v : A) (props : list (string * A))
    : list (string * A) :=
  match props with
  | [] => [(key, v)]
  | (k, w) :: rest =>
      if String.eqb k key then (k, v) :: rest
      else (k, w) :: assoc_set key v rest
  end.

Definition has_key {A} (key : string) (props : list (string * A)) : bool :=
  match assoc_lookup key props with Some _ => true | None => false end.

(** [record[key]] for the property names the loader reads. *)
Definition getProp (store : Store) (record : Value) (key : string) : Value :=
  match record with
  | VObj props =>
      match assoc_lookup key props with
      | Some v => deref store v
      | None => VUndefined
      end
  | _ => VUndefined
  end.

(** [key in value] *)
Definition hasProp (value : Value) (key : string) : bool :=
  match value with
  | VObj props => has_key key props
  | _ => false
  end.

(** [await f(args)] *)
Definition await (o : Outcome) : Result Value :=
  match o with
  | Returns v | Fulfils v => Ok v
  | Throws message | Rejects message => Err (Thrown message)
  end.

Definition invoke (store : Store) (call : list Arg -> Outcome)
    (args : list Arg) : Result Value :=
  deref store <$> await (call args).

(** ** The recipe loader ([templateModuleLoader.ts]) *)

Definition MAX_RESOLUTION_DEPTH : nat := 10.

Record TemplatePreviewRecipe : Type := {
  title : Value;
  data : Value;
  helpers : Value;
  partials : Value;
  preprocess : Value;
  postprocess : Value;
  watchFiles : Value;
}.

Inductive RecipeKey : Type :=
| KTitle | KData | KHelpers | KPartials | KPreprocess | KPostprocess
| KWatchFiles.

Definition recipe_get (key : RecipeKey) (r : TemplatePreviewRecipe) : Value :=
  match key with
  | KTitle => title r
  | KData => data r
  | KHelpers => helpers r
  | KPartials => partials r
  | KPreprocess => preprocess r
  | KPostprocess => postprocess r
  | KWatchFiles => watchFiles r
  end.

Definition recipe_set (key : RecipeKey) (v : Value)
    (r : TemplatePreviewRecipe) : TemplatePreviewRecipe :=
  match key with
  | KTitle => {| title := v; data := data r; helpers := helpers r;
                 partials := partials r; preprocess := preprocess r;
                 postprocess := postprocess r; watchFiles := watchFiles r |}
  | KData => {| title := title r; data := v; helpers := helpers r;
                partials := partials r; preprocess := preprocess r;
                postprocess := postprocess r; watchFiles := watchFiles r |}
  | KHelpers => {| title := title r; data := data r; helpers := v;
                   partials := partials r; preprocess := preprocess r;
                   postprocess := postprocess r; watchFiles := watchFiles r |}
  | KPartials => {| title := title r; data := data r; helpers := helpers r;
                    partials := v; preprocess := preprocess r;
                    postprocess := postprocess r; watchFiles := watchFiles r |}
  | KPreprocess => {| title := title r; data := data r; helpers := helpers r;
                      partials := partials r; preprocess := v;
                      postprocess := postprocess r;
                      watchFiles := watchFiles r |}
  | KPostprocess => {| title := title r; data := data r; helpers := helpers r;
                       partials := partials r; preprocess := preprocess r;
                       postprocess := v; watchFiles := watchFiles r |}
  | KWatchFiles => {| title := title r; data := data r; helpers := helpers r;
                      partials := partials r; preprocess := preprocess r;
                      postprocess := postprocess r; watchFiles := v |}
  end.

(** The object [{}] seen as a recipe: every field reads [undefined]. *)
Definition emptyRecipe : TemplatePreviewRecipe :=
  {| title := VUndefined; data := VUndefined; helpers := VUndefined;
     partials := VUndefined; preprocess := VUndefined;
     postprocess := VUndefined; watchFiles := VUndefined |}.

Definition recipeKeys : list RecipeKey :=
  [KTitle; KData; KHelpers; KPartials; KPreprocess; KPostprocess; KWatchFiles].

Definition mergeRecipes (base override : option TemplatePreviewRecipe)
    : option TemplatePreviewRecipe :=
  match override with
  | None => base
  | Some override =>
      let result := default emptyRecipe base in
      Some (fold_left
              (fun result key =>
                 let value := recipe_get key override in
                 if negb (nullish value) then recipe_set key value result
                 else result)
              recipeKeys result)
  end.

Definition nestedKeys : list string :=
  ["getPreviewRecipe"; "getPreviewConfig"; "getPreviewData"; "default"].

Definition inlineRecipe (store : Store) (record : Value)
    : TemplatePreviewRecipe :=
  {| title :=
       match getProp store record "title" with
       | VStr s => VStr s
       | _ => VUndefined
       end;
     data := getProp store record "data";
     helpers := getProp store record "helpers";
     partials := getProp store record "partials";
     preprocess :=
       (let f := getProp store record "preprocess" in
        if is_function f then f else VUndefined);
     postprocess :=
       (let f := getProp store record "postprocess" in
        if is_function f then f else VUndefined);
     watchFiles := getProp store record "watchFiles" |}.

(** [resolveRecipe].  [candidate] has been read through [deref].  The
    recursion of the source is bounded by [depth]; [fuel] makes it
    structural, and [resolveRecipe_fuel_enough] shows that
    [S MAX_RESOLUTION_DEPTH - depth] of it is all the function ever uses. *)
Fixpoint resolveRecipe_fuel (fuel : nat) (store : Store)
    (candidate : Value) (context : ProcessingContext) (depth : nat)
    : Result (option TemplatePreviewRecipe) :=
  if (MAX_RESOLUTION_DEPTH <? depth)%nat then Err DepthExceeded
  else
    match fuel with
    | O => Err OutOfFuel
    | S fuel =>
        match candidate with
        | VFun call =>
            result ← invoke store call [ArgContext context];
            resolveRecipe_fuel fuel store result context (depth + 1)
        | VObj _ | VArr _ =>
            let record := candidate in
            resolved ←
              foldl
                (fun acc key =>
                   resolved ← acc;
                   let value := getProp store record key in
                   if is_undefined value then Ok resolved
                   else
                     nested ←
                       resolveRecipe_fuel fuel store value context (depth + 1);
                     Ok (mergeRecipes resolved nested))
                (Ok None) nestedKeys;
            Ok (mergeRecipes resolved (Some (inlineRecipe store record)))
        | _ => Ok None
        end
    end.

Definition resolveRecipe (store : Store) (candidate : Value)
    (context : ProcessingContext) (depth : nat)
    : Result (option TemplatePreviewRecipe) :=
  resolveRecipe_fuel (S MAX_RESOLUTION_DEPTH - depth) store candidate
    context depth.

(** [resolveMaybeFactory] *)
Definition resolveMaybeFactory (store : Store) (value : Value)
    (context : ProcessingContext) (fallback : Value) : Result Value :=
  match value with
  | VFun call =>
      result ← invoke store call [ArgContext context];
      Ok (if is_undefined result then fallback else result)
  | _ =>
      if nullish value then Ok fallback else Ok value
  end.

(** *** Dependency tracking *)

(** A [Set<string>] in insertion order. *)
Definition set_add (x : string) (s : list string) : list string :=
  if existsb (String.eqb x) s then s else s ++ [x].

Record ModuleLoadContext : Type := {
  root : string;
  dependencies : list string;
  overrides : option (list (string * string));
}.

(** A frame refers to its context by its index in [contexts]: nested frames
    share the context object of the root that opened them. *)
Record ModuleLoadFrame : Type := {
  frame_modulePath : string;
  frame_context : nat;
  isRoot : bool;
}.

(** The module-level state of the loader.  [moduleLoadStack] has its top
    first.  [moduleDependencyMap] maps a root to the context whose
    dependency set it holds. *)
Record LoaderState : Type := {
  moduleDependencyMap : gmap string nat;
  moduleLoadStack : list ModuleLoadFrame;
  contexts : list ModuleLoadContext;
}.

Definition initialLoaderState : LoaderState :=
  {| moduleDependencyMap := ∅; moduleLoadStack := []; contexts := [] |}.

Definition add_dependency (p : string) (c : ModuleLoadContext)
    : ModuleLoadContext :=
  {| root := root c; dependencies := set_add p (dependencies c);
     overrides := overrides c |}.

Definition recordModuleDependency (filePath : string) (st : LoaderState)
    : LoaderState :=
  match moduleLoadStack st with
  | [] => st
  | frame :: _ =>
      {| moduleDependencyMap := moduleDependencyMap st;
         moduleLoadStack := moduleLoadStack st;
         contexts :=
           alter (add_dependency (path.normalize filePath))
             (frame_context frame) (contexts st) |}
  end.

Definition context_dependencies (st : LoaderState) (c : nat) : list string :=
  match contexts st !! c with
  | Some context => dependencies context
  | None => []
  end.

Definition withModuleLoadFrame {T : Type} (modulePath : string)
    (treatAsRoot : bool) (overrides : option (list (string * string)))
    (loader : LoaderState -> Result T * LoaderState) (st : LoaderState)
    : Result T * LoaderState :=
  let normalizedPath := path.normalize modulePath in
  let '(context, isRoot, allContexts) :=
    match treatAsRoot, moduleLoadStack st with
    | false, top :: _ => (frame_context top, false, contexts st)
    | _, _ =>
        (length (contexts st), true,
         (contexts st ++
            [{| root := normalizedPath; dependencies := [];
                overrides := overrides |}])%list)
    end in
  let frame :=
    {| frame_modulePath := normalizedPath; frame_context := context;
       isRoot := isRoot |} in
  let '(result, st) :=
    loader {| moduleDependencyMap := moduleDependencyMap st;
              moduleLoadStack := frame :: moduleLoadStack st;
              contexts := allContexts |} in
  (* finally *)
  let map :=
    if isRoot then
      if is_ok result
      then <[normalizedPath := context]> (moduleDependencyMap st)
      else delete normalizedPath (moduleDependencyMap st)
    else moduleDependencyMap st in
  (result,
   {| moduleDependencyMap := map;
      moduleLoadStack := tail (moduleLoadStack st);
      contexts := contexts st |}).

Definition invalidateModuleTree (modulePath : string) (st : LoaderState)
    : LoaderState :=
  {| moduleDependencyMap :=
       delete (path.normalize modulePath) (moduleDependencyMap st);
     moduleLoadStack := moduleLoadStack st;
     contexts := contexts st |}.

Definition getModuleDependenciesFor (modulePath : string) (st : LoaderState)
    : list string :=
  match moduleDependencyMap st !! path.normalize modulePath with
  | Some c => context_dependencies st c
  | None => []
  end.

(** What executing a module does to the loader's state, in order: an import
    resolved by the TypeScript fallback ([resolveTypeScriptFallback] calls
    [recordModuleDependency]), or a [require] of a TypeScript file, served
    by [registerTsModule], which runs the required file's own imports in a
    nested frame and then records the file. *)
Inductive LoadEvent : Type :=
| ImportResolved (filePath : string)
| RequiredTs (filename : string) (inner : list LoadEvent).

Fixpoint run_event (e : LoadEvent) (st : LoaderState) : LoaderState :=
  match e with
  | ImportResolved filePath => recordModuleDependency filePath st
  | RequiredTs filename inner =>
      snd (withModuleLoadFrame filename
             (length (moduleLoadStack st) =? 0)%nat None
             (fun st =>
                let st := fold_left (fun st e => run_event e st) inner st in
                (Ok tt, recordModuleDependency filename st))
             st)
  end.

Definition run_events (events : list LoadEvent) (st : LoaderState)
    : LoaderState :=
  fold_left (fun st e => run_event e st) events st.

(** The execution of a module by the runtime: the events above, then the
    value of [module.exports], or the exception that ended it. *)
Record ModuleRun : Type := {
  events : list LoadEvent;
  exported : Result Value;
}.

Definition run_module (run : ModuleRun) (st : LoaderState)
    : Result Value * LoaderState :=
  (exported run, run_events (events run) st).

(** *** The host *)

(** What the loader obtains from the runtime.  [store] holds the objects
    that module code has created.  [transpileTypeScriptModule] is the
    function of [tsCompiler.ts], modelled with its caches in [TsCompiler]
    below.  [compileModule path source overrides]
    stands for [new Module(path)], [_compile(source, path)] and the read of
    [exports]; [requireModule] for [require(path)] after its cache entry
    is dropped.  [objectToString] is the conversion [String(v)] of a
    non-primitive [v], which runs the object's own [toString]. *)
Record Host : Type := {
  cwd : string;
  store : Store;
  fileExists : string -> bool;
  readFile : string -> Value -> Result string;
  transpileTypeScriptModule : string -> string -> option string -> Result string;
  compileModule :
    string -> string -> option (list (string * string)) -> ModuleRun;
  requireModule : string -> option (list (string * string)) -> ModuleRun;
  objectToString : Value -> string;
}.

Record TemplateRecipeLoadOptions : Type := {
  moduleSource : option string;
  moduleSourceOverrides : option (list (string * string));
  partialSourceOverrides : option (list (string * string));
  workspaceFolder : option string;
}.

Module Resolved.
Record ResolvedTemplatePreviewRecipe : Type := {
  title : Value;
  data : Value;
  helpers : Value;
  partials : list (string * string);
  preprocess : Value;
  postprocess : Value;
  watchFiles : list string;
  partialFiles : list (string * string);
  moduleDependencies : list string;
}.
End Resolved.
Abbreviation ResolvedTemplatePreviewRecipe :=
  Resolved.ResolvedTemplatePreviewRecipe.

(** *** Partials *)

Definition decimal (n : nat) : string :=
  NilZero.string_of_uint (Nat.to_uint n).

Fixpoint chars_of (s : string) : list string :=
  match s with
  | EmptyString => []
  | String c rest => String c EmptyString :: chars_of rest
  end.

(** [Object.entries(v)] *)
Definition ObjectEntries (v : Value) : list (string * Value) :=
  match v with
  | VObj props => props
  | VArr elems => imap (fun i e => (decimal i, e)) elems
  | VStr s => imap (fun i c => (decimal i, VStr c)) (chars_of s)
  | _ => []
  end.

(** [String(v)] *)
Definition ToString (host : Host) (v : Value) : string :=
  match v with
  | VUndefined => "undefined"
  | VNull => "null"
  | VBool true => "true"
  | VBool false => "false"
  | VNum n => NilZero.string_of_int (Z.to_int n)
  | VStr s => s
  | _ => objectToString host v
  end.

Definition isPartialFileReference (value : Value) : bool :=
  match typeof value with
  | TObject => negb (nullish value) && hasProp value "file"
  | _ => false
  end.

Definition resolveRelativeToModule (host : Host) (modulePath target : string)
    : string :=
  if path.isAbsolute target then target
  else path.resolve (cwd host) [path.dirname modulePath; target].

Definition findOverride (overrides : option (list (string * string)))
    (normalizedPath : string) : option string :=
  match overrides with
  | None => None
  | Some overrides =>
      match assoc_lookup normalizedPath overrides with
      | Some text => Some text
      | None =>
          snd <$>
            List.find
              (fun entry =>
                 String.eqb (path.normalize (fst entry)) normalizedPath)
              overrides
      end
  end.

Record PartialResolution : Type := {
  contents : list (string * string);
  files : list (string * string);
}.

(** One turn of the loop of [resolvePartials]. *)
Definition resolvePartial (host : Host) (modulePath : string)
    (overrides : option (list (string * string)))
    (acc : PartialResolution) (entry : string * Value)
    : Result PartialResolution :=
  let name := fst entry in
  let definition := deref (store host) (snd entry) in
  if nullish definition then Ok acc
  else if isPartialFileReference definition then
    let file := getProp (store host) definition "file" in
    if falsy file then Err (PartialMissingFilePath name)
    else
      match file with
      | VStr file =>
          let absolutePath := resolveRelativeToModule host modulePath file in
          let normalizedPath := path.normalize absolutePath in
          let encoding :=
            (let e := getProp (store host) definition "encoding" in
             if nullish e then VStr "utf8" else e) in
          content ←
            match findOverride overrides normalizedPath with
            | Some override => Ok override
            | None =>
                match readFile host normalizedPath encoding with
                | Ok text => Ok text
                | Err error =>
                    Err (PartialReadFailed name normalizedPath
                           (errorMessage error))
                end
            end;
          Ok {| contents := assoc_set name content (contents acc);
                files := assoc_set name normalizedPath (files acc) |}
      | _ =>
          Err (TypeError "The path argument must be of type string.")
      end
  else
    Ok {| contents := assoc_set name (ToString host definition) (contents acc);
          files := files acc |}.

Definition resolvePartials (host : Host) (partials : Value)
    (modulePath : string) (overrides : option (list (string * string)))
    : Result PartialResolution :=
  let entries := ObjectEntries (if nullish partials then VObj [] else partials) in
  foldl
    (fun acc entry =>
       acc ← acc; resolvePartial host modulePath overrides acc entry)
    (Ok {| contents := []; files := [] |}) entries.

(** *** Loading *)

Definition loadModuleFromSource (host : Host) (modulePath source : string)
    (moduleSourceOverrides : option (list (string * string)))
    (st : LoaderState) : Result Value * LoaderState :=
  withModuleLoadFrame modulePath true moduleSourceOverrides
    (run_module (compileModule host modulePath source moduleSourceOverrides))
    st.

(** [loadModuleExports].  [ensureTypeScriptSupport] installs the runtime
    hooks through which [run_event] reaches the loader; it leaves the
    loader's own state alone. *)
Definition loadModuleExports (host : Host) (modulePath : string)
    (moduleSourceOverride : option string) (workspaceFolder : option string)
    (moduleSourceOverrides : option (list (string * string)))
    (st : LoaderState) : Result Value * LoaderState :=
  let st := invalidateModuleTree modulePath st in
  let extension := Str.toLowerCase (path.extname modulePath) in
  if String.eqb extension ".ts" then
    let source :=
      match moduleSourceOverride with
      | Some source => Ok source
      | None => readFile host modulePath (VStr "utf8")
      end in
    match source ≫= (fun source =>
            transpileTypeScriptModule host source modulePath workspaceFolder)
    with
    | Err e => (Err e, st)
    | Ok transpiled =>
        loadModuleFromSource host modulePath transpiled moduleSourceOverrides st
    end
  else
    match moduleSourceOverride with
    | Some source =>
        loadModuleFromSource host modulePath source moduleSourceOverrides st
    | None =>
        withModuleLoadFrame modulePath true moduleSourceOverrides
          (run_module (requireModule host modulePath moduleSourceOverrides))
          st
    end.

(** [[...v]] *)
Definition spread (v : Value) : Result (list Value) :=
  match v with
  | VArr elems => Ok elems
  | VStr s => Ok (map VStr (chars_of s))
  | _ => Err (TypeError "value is not iterable")
  end.

(** The equality of [Set]: by value on primitives, by identity on objects.
    Two objects written in place are two objects. *)
Definition sameValueZero (a b : Value) : bool :=
  match a, b with
  | VUndefined, VUndefined | VNull, VNull => true
  | VBool x, VBool y => Bool.eqb x y
  | VNum x, VNum y => Z.eqb x y
  | VStr x, VStr y => String.eqb x y
  | VRef x, VRef y => (x =? y)%nat
  | _, _ => false
  end.

(** [Array.from(new Set(entries))] *)
Definition uniqueValues (entries : list Value) : list Value :=
  fold_left
    (fun seen v => if existsb (sameValueZero v) seen then seen else seen ++ [v])
    entries [].

(** The guard [typeof entry === "string" && entry.trim().length > 0]. *)
Definition watchable (entry : Value) : option string :=
  match entry with
  | VStr s => if Str.trim_nonempty s then Some s else None
  | _ => None
  end.

Definition absoluteWatchFile (host : Host) (modulePath entry : string)
    : string :=
  if path.isAbsolute entry then entry
  else path.resolve (cwd host) [path.dirname modulePath; entry].

Definition normalizeWatchFiles (host : Host) (modulePath : string)
    (watchEntries : list Value) : list string :=
  map (absoluteWatchFile host modulePath)
    (omap watchable (uniqueValues watchEntries)).

Definition loadTemplateRecipe (host : Host) (modulePath : string)
    (context : ProcessingContext) (options : option TemplateRecipeLoadOptions)
    (st : LoaderState) : Result ResolvedTemplatePreviewRecipe * LoaderState :=
  let moduleSourceOverride := options ≫= moduleSource in
  let exists_ :=
    match moduleSourceOverride with
    | Some _ => true
    | None => fileExists host modulePath
    end in
  if negb exists_ then (Err (CompanionModuleNotFound modulePath), st)
  else
    let '(raw, st) :=
      loadModuleExports host modulePath moduleSourceOverride
        (match options ≫= workspaceFolder with
         | Some w => Some w
         | None => ctx_workspaceFolder context
         end)
        (options ≫= moduleSourceOverrides) st in
    (raw ≫= fun raw =>
     recipe ← resolveRecipe (store host) (deref (store host) raw) context 0;
     let field key :=
       match recipe with
       | Some r => recipe_get key r
       | None => VUndefined
       end in
     resolvedHelpers ←
       resolveMaybeFactory (store host) (field KHelpers) context (VObj []);
     resolvedPartials ←
       resolveMaybeFactory (store host) (field KPartials) context (VObj []);
     resolvedData ←
       resolveMaybeFactory (store host) (field KData) context (VObj []);
     resolvedWatchFiles ←
       resolveMaybeFactory (store host) (field KWatchFiles) context (VArr []);
     partialResolution ←
       resolvePartials host resolvedPartials modulePath
         (options ≫= partialSourceOverrides);
     let moduleDependencies := getModuleDependenciesFor modulePath st in
     spreadWatchFiles ← spread resolvedWatchFiles;
     let watchEntries :=
       (spreadWatchFiles
          ++ map VStr (map snd (files partialResolution))
          ++ map VStr moduleDependencies)%list in
     let normalizedWatchFiles :=
       normalizeWatchFiles host modulePath watchEntries in
     Ok {| Resolved.title := field KTitle;
           Resolved.data := resolvedData;
           Resolved.helpers := resolvedHelpers;
           Resolved.partials := contents partialResolution;
           Resolved.preprocess := field KPreprocess;
           Resolved.postprocess := field KPostprocess;
           Resolved.watchFiles := normalizedWatchFiles;
           Resolved.partialFiles := files partialResolution;
           Resolved.moduleDependencies := moduleDependencies |},
     st).

(** ** Module selection in [HandlebarsPreviewManager.render] *)

Definition resolveCompanionModule (host : Host)
    (moduleCandidates : list string) (overrides : list (string * string))
    : option (string * option string) :=
  List.fold_right
    (fun candidate next =>
       let normalized := path.normalize candidate in
       match assoc_lookup normalized overrides with
       | Some override => Some (normalized, Some override)
       | None =>
           if fileExists host normalized then Some (normalized, None)
           else next
       end)
    None moduleCandidates.

(** [createDefaultRecipe]; the object it builds has no [moduleDependencies]
    property, read here as no dependencies. *)
Definition createDefaultRecipe : ResolvedTemplatePreviewRecipe :=
  {| Resolved.title := VUndefined;
     Resolved.data := VObj [];
     Resolved.helpers := VObj [];
     Resolved.partials := [];
     Resolved.preprocess := VUndefined;
     Resolved.postprocess := VUndefined;
     Resolved.watchFiles := [];
     Resolved.partialFiles := [];
     Resolved.moduleDependencies := [] |}.

(** The recipe that [render] renders with: that of the selected module, or
    the default one when no candidate is selected. *)
Definition renderRecipe (host : Host) (moduleCandidates : list string)
    (dirtyOverrides : list (string * string)) (context : ProcessingContext)
    (st : LoaderState) : Result ResolvedTemplatePreviewRecipe * LoaderState :=
  match resolveCompanionModule host moduleCandidates dirtyOverrides with
  | Some (modulePath, source) =>
      loadTemplateRecipe host modulePath context
        (Some {| moduleSource := source;
                 moduleSourceOverrides := None;
                 partialSourceOverrides := Some dirtyOverrides;
                 workspaceFolder := ctx_workspaceFolder context |})
        st
  | None => (Ok createDefaultRecipe, st)
  end.

(** ** The compiler context ([tsCompiler.ts]) *)

Module TsCompiler.

(** [ts.CompilerOptions]: option name to value, values written as text. *)
Record CompilerContext : Type := {
  options : gmap string string;
  baseDir : string;
  originalRootDir : option string;
}.

(** The TypeScript services the module calls: [ts.findConfigFile],
    [ts.readConfigFile] followed by [ts.parseJsonConfigFileContent] (an
    error of either is the exception the module throws), and
    [ts.transpileModule], whose result is the output text and the
    formatted diagnostics. *)
Record TsHost : Type := {
  cwd : string;
  findConfigFile : string -> option string;
  parseConfigFile : string -> string -> Result (gmap string string);
  transpileModule :
    string -> gmap string string -> string -> string * list string;
}.

Record TsState : Type := {
  configLookupCache : gmap string (option string);
  compilerContextCache : gmap string CompilerContext;
}.

Definition initialState : TsState :=
  {| configLookupCache := ∅; compilerContextCache := ∅ |}.

Definition DEFAULT_COMPILER_OPTIONS : gmap string string :=
  list_to_map
    [("module", "CommonJS"); ("target", "ES2020");
     ("moduleResolution", "Node16"); ("esModuleInterop", "true");
     ("resolveJsonModule", "true"); ("allowJs", "true");
     ("skipLibCheck", "true")].

(** A string used as a condition. *)
Definition truthy (s : option string) : option string :=
  match s with
  | Some s => if Str.is_empty s then None else Some s
  | None => None
  end.

Definition isWithinDirectory (host : TsHost) (filePath directory : string)
    : bool :=
  let relative := path.relative (cwd host) directory filePath in
  if Str.is_empty relative then true
  else negb (Str.startsWith relative "..") && negb (path.isAbsolute relative).

Definition set_lookup (key : string) (v : option string) (st : TsState)
    : TsState :=
  {| configLookupCache := <[key := v]> (configLookupCache st);
     compilerContextCache := compilerContextCache st |}.

Definition set_context (key : string) (c : CompilerContext) (st : TsState)
    : TsState :=
  {| configLookupCache := configLookupCache st;
     compilerContextCache := <[key := c]> (compilerContextCache st) |}.

Fixpoint findTsConfigPath_loop (host : TsHost) (searchOrder : list string)
    (st : TsState) : option string * TsState :=
  match searchOrder with
  | [] => (None, st)
  | searchRoot :: more =>
      let key := path.resolve (cwd host) [searchRoot] in
      match configLookupCache st !! key with
      | Some cached =>
          match truthy cached with
          | Some found => (Some found, st)
          | None => findTsConfigPath_loop host more st
          end
      | None =>
          let resolved := findConfigFile host searchRoot in
          let st := set_lookup key resolved st in
          match truthy resolved with
          | Some found => (Some found, st)
          | None => findTsConfigPath_loop host more st
          end
      end
  end.

Definition findTsConfigPath (host : TsHost) (filePath : string)
    (workspaceFolder : option string) (st : TsState)
    : option string * TsState :=
  let searchOrder :=
    path.dirname filePath ::
      match truthy workspaceFolder with
      | Some w => [w]
      | None => []
      end in
  findTsConfigPath_loop host searchOrder st.

Definition getCompilerContext (host : TsHost) (filePath : string)
    (workspaceFolder : option string) (st : TsState)
    : Result CompilerContext * TsState :=
  let '(configPath, st) := findTsConfigPath host filePath workspaceFolder st in
  match configPath with
  | None =>
      let baseDir :=
        match truthy workspaceFolder with
        | Some w => path.resolve (cwd host) [w]
        | None => path.dirname filePath
        end in
      let cacheKey := "default::" +:+ baseDir in
      match compilerContextCache st !! cacheKey with
      | Some cached => (Ok cached, st)
      | None =>
          let context :=
            {| options := DEFAULT_COMPILER_OPTIONS; baseDir := baseDir;
               originalRootDir := None |} in
          (Ok context, set_context cacheKey context st)
      end
  | Some configPath =>
      let normalizedConfigPath := path.normalize configPath in
      let baseDir := path.dirname normalizedConfigPath in
      let baseKey := "config::" +:+ normalizedConfigPath in
      let rootlessKey := baseKey +:+ "::noRootDir" in
      let cachedBase := compilerContextCache st !! baseKey in
      let useBase :=
        match cachedBase with
        | Some cachedBase =>
            match truthy (originalRootDir cachedBase) with
            | None => true
            | Some rootDir => isWithinDirectory host filePath rootDir
            end
        | None => false
        end in
      match cachedBase, useBase with
      | Some cachedBase, true => (Ok cachedBase, st)
      | _, _ =>
          match compilerContextCache st !! rootlessKey with
          | Some cachedRootless => (Ok cachedRootless, st)
          | None =>
              match parseConfigFile host normalizedConfigPath baseDir with
              | Err e => (Err e, st)
              | Ok parsed =>
                  let options := <["module" := "CommonJS"]> parsed in
                  let '(options, cacheKey, originalRootDir) :=
                    match truthy (options !! "rootDir") with
                    | Some rootDir =>
                        let originalRootDir :=
                          path.resolve (cwd host) [baseDir; rootDir] in
                        if negb (isWithinDirectory host filePath
                                   originalRootDir)
                        then (delete "rootDir" options, rootlessKey,
                              Some originalRootDir)
                        else (options, baseKey, Some originalRootDir)
                    | None => (options, baseKey, None)
                    end in
                  let context :=
                    {| options := options; baseDir := baseDir;
                       originalRootDir := originalRootDir |} in
                  (Ok context, set_context cacheKey context st)
              end
          end
      end
  end.

Definition transpileTypeScriptModule (host : TsHost) (source filePath : string)
    (workspaceFolder : option string) (st : TsState)
    : Result string * TsState :=
  let '(context, st) := getCompilerContext host filePath workspaceFolder st in
  match context with
  | Err e => (Err e, st)
  | Ok context =>
      let '(outputText, diagnostics) :=
        transpileModule host source (options context) filePath in
      match diagnostics with
      | [] => (Ok outputText, st)
      | _ :: _ =>
          (Err (Thrown
                  ("Failed to compile TypeScript companion module at "
                     +:+ filePath +:+ ":" +:+ String (ascii_of_nat 10)
                           (Str.join EmptyString diagnostics))),
           st)
      end
  end.

End TsCompiler.

(** ** The render pipeline ([templateRenderer.ts]) *)

Module TemplateRenderer.

(** An engine instance, as [Handlebars.create()] returns it, with what has
    been registered on it. *)
Record Engine : Type := {
  registeredHelpers : list (string * Value);
  registeredPartials : list (string * string);
}.

Definition create : Engine :=
  {| registeredHelpers := []; registeredPartials := [] |}.

Definition registerHelper (name : string) (helper : Value) (e : Engine)
    : Engine :=
  {| registeredHelpers := assoc_set name helper (registeredHelpers e);
     registeredPartials := registeredPartials e |}.

Definition registerPartial (name partial : string) (e : Engine) : Engine :=
  {| registeredHelpers := registeredHelpers e;
     registeredPartials := assoc_set name partial (registeredPartials e) |}.

(** The templating engine: [expand e template data] is
    [e.compile(template)(data)]. *)
Definition Handlebars : Type := Engine -> string -> Value -> Result string.

Definition callProcessor (store : Store) (f : Value) (content : string)
    (context : ProcessingContext) : Result Value :=
  match f with
  | VFun call => invoke store call [ArgText content; ArgContext context]
  | _ => Err (TypeError "processor is not a function")
  end.

Definition renderTemplate (expand : Handlebars) (store : Store)
    (templateContent : string) (recipe : ResolvedTemplatePreviewRecipe)
    (context : ProcessingContext) : Result Value :=
  let engine := create in
  let engine :=
    if falsy (Resolved.helpers recipe) then engine
    else
      fold_left
        (fun engine entry =>
           registerHelper (fst entry) (deref store (snd entry)) engine)
        (ObjectEntries (Resolved.helpers recipe)) engine in
  let engine :=
    fold_left
      (fun engine entry => registerPartial (fst entry) (snd entry) engine)
      (Resolved.partials recipe) engine in
  processedTemplate ←
    (if falsy (Resolved.preprocess recipe) then Ok (VStr templateContent)
     else callProcessor store (Resolved.preprocess recipe) templateContent
            context);
  output ←
    match processedTemplate with
    | VStr processedTemplate =>
        expand engine processedTemplate
          (if nullish (Resolved.data recipe) then VObj []
           else Resolved.data recipe)
    | _ =>
        Err (Thrown "You must pass a string or Handlebars AST to Handlebars.compile.")
    end;
  if falsy (Resolved.postprocess recipe) then Ok (VStr output)
  else callProcessor store (Resolved.postprocess recipe) output context.

End TemplateRenderer.

(** ** The preview's HTML ([previewManager.ts]) *)

(** [s.replace(/c/g, replacement)] for a pattern of one character. *)
Fixpoint replaceAll (c : ascii) (replacement : string) (s : string) : string :=
  match s with
  | EmptyString => EmptyString
  | String d rest =>
      if Ascii.eqb d c then replacement +:+ replaceAll c replacement rest
      else String d (replaceAll c replacement rest)
  end.

Definition escapeHtml (value : string) : string :=
  replaceAll "'" "&#39;"
    (replaceAll (ascii_of_nat 34) "&quot;"
       (replaceAll ">" "&gt;"
          (replaceAll "<" "&lt;"
             (replaceAll "&" "&amp;" value)))).

(** ** Documents, candidates and watch targets ([previewManager.ts]) *)

(** What the manager reads of an open [vscode.TextDocument]. *)
Record TextDocument : Type := {
  fsPath : string;       (* document.uri.fsPath *)
  scheme : string;       (* document.uri.scheme *)
  isDirty : bool;
  getText : string;
}.

(** [collectDirtyDocumentOverrides]: the object it builds, as the list of
    its properties. *)
Definition collectDirtyDocumentOverrides (textDocuments : list TextDocument)
    : list (string * string) :=
  fold_left
    (fun overrides document =>
       if isDirty document && String.eqb (scheme document) "file"
       then assoc_set (path.normalize (fsPath document)) (getText document)
              overrides
       else overrides)
    textDocuments [].

(** [Array.from(new Set(entries))] for strings. *)
Definition uniqueStrings (entries : list string) : list string :=
  fold_left (fun seen entry => set_add entry seen) entries [].

Definition deriveModuleCandidates (templatePath : string) : list string :=
  uniqueStrings
    (map path.normalize [templatePath +:+ ".js"; templatePath +:+ ".ts"]).

(** The fields of a [PreviewSession] that the functions below use.  A
    session is an object with an identity: [session_id] stands for it where
    sessions are members of a set. *)
Record PreviewSession : Type := {
  session_id : nat;
  templateFsPath : string;               (* templateUri.fsPath *)
  moduleCandidates : list string;
  activeModulePath : option string;
  trackedModuleUris : list string;       (* a Set, in insertion order *)
  trackedPartials : list string;         (* a Set, in insertion order *)
}.

(** [createProcessingContext]; [folder] is what the editor gives as the
    workspace folder of the template. *)
Definition createProcessingContext (folder : option string)
    (session : PreviewSession) (modulePathForContext : option string)
    : ProcessingContext :=
  let fallbackModulePath :=
    match modulePathForContext with
    | Some p => p
    | None =>
        match activeModulePath session with
        | Some p => p
        | None =>
            match moduleCandidates session with
            | p :: _ => p
            | [] => templateFsPath session +:+ ".js"
            end
        end
    end in
  {| ctx_templatePath := templateFsPath session;
     ctx_modulePath := fallbackModulePath;
     ctx_workspaceFolder := folder |}.

Definition normalizeFsPath (host : Host) (session : PreviewSession)
    (targetPath : string) : string :=
  if path.isAbsolute targetPath then path.normalize targetPath
  else
    let baseDir :=
      match TsCompiler.truthy (activeModulePath session) with
      | Some active => path.dirname active
      | None => path.dirname (templateFsPath session)
      end in
    path.normalize (path.resolve (cwd host) [baseDir; targetPath]).

(** [partialSessionIndex] and [moduleSessionIndex]: for the text of a
    document's URI, the sessions to render again when the document
    changes. *)
Abbreviation SessionIndex := (gmap string (gset nat)).

Section SessionIndexes.

(** [vscode.Uri.file(filePath).toString()] *)
Variable uriOf : string -> string.

Definition trackSession (key : string) (session : PreviewSession)
    (index : SessionIndex) : SessionIndex :=
  let bucket := default ∅ (index !! key) in
  <[key := bucket ∪ {[session_id session]}]> index.

Definition untrackSession (key : string) (session : PreviewSession)
    (index : SessionIndex) : SessionIndex :=
  match index !! key with
  | None => index
  | Some bucket =>
      let bucket := bucket ∖ {[session_id session]} in
      if decide (bucket = ∅) then delete key index
      else <[key := bucket]> index
  end.

Definition trackPartialSession (session : PreviewSession) (filePath : string)
    (index : SessionIndex) : SessionIndex :=
  trackSession (uriOf filePath) session index.

Definition untrackPartialSession (session : PreviewSession)
    (filePath : string) (index : SessionIndex) : SessionIndex :=
  untrackSession (uriOf filePath) session index.

Definition with_trackedPartials (session : PreviewSession)
    (tracked : list string) : PreviewSession :=
  {| session_id := session_id session;
     templateFsPath := templateFsPath session;
     moduleCandidates := moduleCandidates session;
     activeModulePath := activeModulePath session;
     trackedModuleUris := trackedModuleUris session;
     trackedPartials := tracked |}.

Definition with_trackedModuleUris (session : PreviewSession)
    (tracked : list string) : PreviewSession :=
  {| session_id := session_id session;
     templateFsPath := templateFsPath session;
     moduleCandidates := moduleCandidates session;
     activeModulePath := activeModulePath session;
     trackedModuleUris := tracked;
     trackedPartials := trackedPartials session |}.

Definition untrackAllPartials (session : PreviewSession)
    (index : SessionIndex) : PreviewSession * SessionIndex :=
  (with_trackedPartials session [],
   fold_left
     (fun index partialPath => untrackPartialSession session partialPath index)
     (trackedPartials session) index).


Definition untrackModuleSessions (session : PreviewSession)
    (index : SessionIndex) : PreviewSession * SessionIndex :=
  (with_trackedModuleUris session [],
   fold_left (fun index key => untrackSession key session index)
     (trackedModuleUris session) index).

(** [updateAdditionalWatchers], without the watcher objects themselves: the
    session and the index of partials as it leaves them, and the targets it
    creates a watcher for, in order. *)
Definition updateAdditionalWatchers (host : Host) (session : PreviewSession)
    (watchFiles : list string) (partialFiles : list (string * string))
    (index : SessionIndex) : PreviewSession * SessionIndex * list string :=
  let '(session, index) := untrackAllPartials session index in
  let watchTargets :=
    fold_left
      (fun watchTargets filePath =>
         if Str.is_empty filePath then watchTargets
         else set_add (normalizeFsPath host session filePath) watchTargets)
      watchFiles [] in
  fold_left
    (fun '(session, index, watchTargets) partialPath =>
       if Str.is_empty partialPath then (session, index, watchTargets)
       else
         let normalized := normalizeFsPath host session partialPath in
         (with_trackedPartials session
            (set_add normalized (trackedPartials session)),
          trackPartialSession session normalized index,
          set_add normalized watchTargets))
    (map snd partialFiles) (session, index, watchTargets).

End SessionIndexes.

(** ** The TypeScript hooks of the loader ([templateModuleLoader.ts]) *)



(** What the hooks obtain from the runtime: [fs.existsSync],
    [fs.statSync(p).isFile()], the names of the built-in modules, and
    [resolveTypeScriptImport] of [tsCompiler.ts], which asks the TypeScript
    compiler to resolve a module name. *)
Record ResolutionHost : Type := {
  workingDirectory : string;
  existsSync : string -> bool;
  isFile : string -> bool;
  builtinModuleNames : list string;
  resolveTypeScriptImport : string -> string -> option string -> option string;
}.

Definition getModuleOverride (filePath : string) (st : LoaderState)
    : option string :=
  match moduleLoadStack st with
  | [] => None
  | frame :: _ =>
      match contexts st !! frame_context frame ≫= overrides with
      | None => None
      | Some overrides =>
          let normalized := path.normalize filePath in
          match assoc_lookup normalized overrides with
          | Some source => Some source
          | None =>
              snd <$>
                List.find
                  (fun entry =>
                     String.eqb (path.normalize (fst entry)) normalized)
                  overrides
          end
      end
  end.



(** The part of [ensureTypeScriptSupport] that is not the installation of
    the hooks. *)
Definition ensureTypeScriptSupport (host : ResolutionHost)
    (workspaceFolder : option string) (tsWorkspaceRoots : list string)
    : list string :=
  match TsCompiler.truthy workspaceFolder with
  | Some w => set_add (path.resolve (workingDirectory host) [w]) tsWorkspaceRoots
  | None => tsWorkspaceRoots
  end.





(** What [disposeSession] does to the two indexes: the session is taken
    out of the index of modules, then out of the index of partials. *)
Definition disposeSession (uriOf : string -> string)
    (session : PreviewSession) (moduleSessionIndex : SessionIndex)
    (partialSessionIndex : SessionIndex)
    : PreviewSession * SessionIndex * SessionIndex :=
  let '(session, moduleSessionIndex) :=
    untrackModuleSessions session moduleSessionIndex in
  let '(session, partialSessionIndex) :=
    untrackAllPartials uriOf session partialSessionIndex in
  (session, moduleSessionIndex, partialSessionIndex).

(** ** [HandlebarsPreviewManager.render] ([previewManager.ts]) *)

Definition with_activeModulePath (session : PreviewSession)
    (active : option string) : PreviewSession :=
  {| session_id := session_id session;
     templateFsPath := templateFsPath session;
     moduleCandidates := moduleCandidates session;
     activeModulePath := active;
     trackedModuleUris := trackedModuleUris session;
     trackedPartials := trackedPartials session |}.

(** [render] once the template document has been obtained, without the
    panel: the rendered output, or the error that is shown in its place;
    the session, the index of partials and the loader's state as the call
    leaves them; and the targets of the session's additional watchers,
    [watched] before the call.  [folder] is what the editor gives as the
    workspace folder of the template. *)
Definition render (uriOf : string -> string)
    (expand : TemplateRenderer.Handlebars) (host : Host)
    (textDocuments : list TextDocument) (folder : option string)
    (templateContent : string) (session : PreviewSession)
    (partialSessionIndex : SessionIndex) (watched : list string)
    (st : LoaderState)
    : Result Value * PreviewSession * SessionIndex * list string
      * LoaderState :=
  let dirtyOverrides := collectDirtyDocumentOverrides textDocuments in
  let moduleSelection :=
    resolveCompanionModule host (moduleCandidates session) dirtyOverrides in
  let session := with_activeModulePath session (fst <$> moduleSelection) in
  let context :=
    createProcessingContext folder session (fst <$> moduleSelection) in
  let '(recipe, st) :=
    renderRecipe host (moduleCandidates session) dirtyOverrides context st in
  match recipe with
  | Ok recipe =>
      let '(session, partialSessionIndex, watchTargets) :=
        updateAdditionalWatchers uriOf host session
          (Resolved.watchFiles recipe) (Resolved.partialFiles recipe)
          partialSessionIndex in
      (TemplateRenderer.renderTemplate expand (store host) templateContent
         recipe context,
       session, partialSessionIndex, watchTargets, st)
  | Err error => (Err error, session, partialSessionIndex, watched, st)
  end.

(** ** Definitions used to state the properties *)

(** *** Recipes and their resolution *)

#[global] Instance RecipeKey_eq_dec : EqDecision RecipeKey.
Proof. solve_decision. Defined.

Definition field_of (r : option TemplatePreviewRecipe) (key : RecipeKey)
    : Value :=
  match r with
  | Some r => recipe_get key r
  | None => VUndefined
  end.

(** The first value that is neither [null] nor [undefined]. *)
Fixpoint pick (candidates : list Value) : Value :=
  match candidates with
  | [] => VUndefined
  | v :: rest => if nullish v then pick rest else v
  end.

(** The body of the loop of [mergeRecipes]. *)
Definition merge_step (override : TemplatePreviewRecipe)
    (result : TemplatePreviewRecipe) (key : RecipeKey) : TemplatePreviewRecipe :=
  let value := recipe_get key override in
  if negb (nullish value) then recipe_set key value result else result.

(** The merges of [resolveRecipe] on an object, in the order of its loop:
    the four nested results, then the inline recipe. *)
Definition merge_all (r1 r2 r3 r4 : option TemplatePreviewRecipe)
    (inline : TemplatePreviewRecipe) : option TemplatePreviewRecipe :=
  mergeRecipes
    (mergeRecipes (mergeRecipes (mergeRecipes (mergeRecipes None r1) r2) r3) r4)
    (Some inline).

(** The resolution of the wrapper stored under one nested key, as
    [resolveRecipe] performs it one level down. *)
Definition resolveNested (store : Store) (record : Value)
    (context : ProcessingContext) (depth : nat) (key : string)
    : Result (option TemplatePreviewRecipe) :=
  let value := getProp store record key in
  if is_undefined value then Ok None
  else resolveRecipe store value context (depth + 1).

(** The wrapper under one nested key, resolved with [fuel]. *)
Definition nested_fuel (store : Store) (context : ProcessingContext)
    (fuel : nat) (record : Value) (depth : nat) (key : string)
    : Result (option TemplatePreviewRecipe) :=
  let value := getProp store record key in
  if is_undefined value then Ok None
  else resolveRecipe_fuel fuel store value context (depth + 1).

Definition is_record (v : Value) : bool :=
  match v with VObj _ | VArr _ => true | _ => false end.





(** The specification's rule for one of the fields [data], [helpers],
    [partials], [watchFiles]: [resolves_to store context fallback value r]
    when [value] resolves to [r]. *)
Inductive resolves_to (store : Store) (context : ProcessingContext)
    (fallback : Value) : Value -> Value -> Prop :=
| resolves_callable call v :
    await (call [ArgContext context]) = Ok v ->
    deref store v <> VUndefined ->
    resolves_to store context fallback (VFun call) (deref store v)
| resolves_callable_nothing call v :
    await (call [ArgContext context]) = Ok v ->
    deref store v = VUndefined ->
    resolves_to store context fallback (VFun call) fallback
| resolves_absent :
    resolves_to store context fallback VUndefined fallback
| resolves_null :
    resolves_to store context fallback VNull fallback
| resolves_as_is value :
    is_function value = false ->
    nullish value = false ->
    resolves_to store context fallback value value.

(** *** Steps of a load *)

(** The merged recipe of a load, and the partials object it resolves to:
    the first steps of [loadTemplateRecipe], named. *)
Definition loadedRecipe (host : Host) (modulePath : string)
    (context : ProcessingContext) (options : option TemplateRecipeLoadOptions)
    (st : LoaderState) : Result (option TemplatePreviewRecipe) :=
  raw ←
    fst (loadModuleExports host modulePath (options ≫= moduleSource)
           (match options ≫= workspaceFolder with
            | Some w => Some w
            | None => ctx_workspaceFolder context
            end)
           (options ≫= moduleSourceOverrides) st);
  resolveRecipe (store host) (deref (store host) raw) context 0.

Definition resolvedPartialsOf (host : Host) (modulePath : string)
    (context : ProcessingContext) (options : option TemplateRecipeLoadOptions)
    (st : LoaderState) : Result Value :=
  recipe ← loadedRecipe host modulePath context options st;
  resolveMaybeFactory (store host) (field_of recipe KPartials) context (VObj []).

Definition resolvedWatchFilesOf (host : Host) (modulePath : string)
    (context : ProcessingContext) (options : option TemplateRecipeLoadOptions)
    (st : LoaderState) : Result Value :=
  recipe ← loadedRecipe host modulePath context options st;
  resolveMaybeFactory (store host) (field_of recipe KWatchFiles) context
    (VArr []).

(** The program text that [loadModuleExports] executes for an override. *)
Definition executedSource (host : Host) (modulePath source : string)
    (workspaceFolder : option string) : Result string :=
  if String.eqb (Str.toLowerCase (path.extname modulePath)) ".ts"
  then transpileTypeScriptModule host source modulePath workspaceFolder
  else Ok source.

(** The execution that [loadModuleExports] asks of the runtime. *)
Definition moduleRunOf (host : Host) (modulePath : string)
    (moduleSourceOverride : option string) (workspaceFolder : option string)
    (moduleSourceOverrides : option (list (string * string)))
    : Result ModuleRun :=
  if String.eqb (Str.toLowerCase (path.extname modulePath)) ".ts" then
    source ←
      match moduleSourceOverride with
      | Some source => Ok source
      | None => readFile host modulePath (VStr "utf8")
      end;
    transpiled ←
      transpileTypeScriptModule host source modulePath workspaceFolder;
    Ok (compileModule host modulePath transpiled moduleSourceOverrides)
  else
    match moduleSourceOverride with
    | Some source =>
        Ok (compileModule host modulePath source moduleSourceOverrides)
    | None => Ok (requireModule host modulePath moduleSourceOverrides)
    end.


(** A host that differs in what reading a file gives. *)
Definition with_readFile (host : Host)
    (readFile' : string -> Value -> Result string) : Host :=
  {| cwd := cwd host; store := store host; fileExists := fileExists host;
     readFile := readFile';
     transpileTypeScriptModule := transpileTypeScriptModule host;
     compileModule := compileModule host;
     requireModule := requireModule host;
     objectToString := objectToString host |}.

(** A host that differs in which files exist. *)
Definition with_fileExists (host : Host) (fileExists' : string -> bool)
    : Host :=
  {| cwd := cwd host; store := store host; fileExists := fileExists';
     readFile := readFile host;
     transpileTypeScriptModule := transpileTypeScriptModule host;
     compileModule := compileModule host;
     requireModule := requireModule host;
     objectToString := objectToString host |}.

(** *** Partials *)

(** The entries that [resolvePartials] goes through. *)
Definition partialEntries (partials : Value) : list (string * Value) :=
  ObjectEntries (if nullish partials then VObj [] else partials).

(** The body of the loop of [resolvePartials], exceptions included. *)
Definition partials_step (host : Host) (modulePath : string)
    (overrides : option (list (string * string)))
    (acc : Result PartialResolution) (entry : string * Value)
    : Result PartialResolution :=
  acc ← acc; resolvePartial host modulePath overrides acc entry.

(** What one entry of the partials object contributes: nothing, an inline
    content, or a content together with the file it comes from. *)
Definition entry_outcome (host : Host) (modulePath : string)
    (overrides : option (list (string * string))) (name : string)
    (definition : Value) : Result (option (string * option string)) :=
  if nullish definition then Ok None
  else if isPartialFileReference definition then
    let file := getProp (store host) definition "file" in
    if falsy file then Err (PartialMissingFilePath name)
    else
      match file with
      | VStr file =>
          let normalizedPath :=
            path.normalize (resolveRelativeToModule host modulePath file) in
          match findOverride overrides normalizedPath with
          | Some override => Ok (Some (override, Some normalizedPath))
          | None =>
              match
                readFile host normalizedPath
                  (let e := getProp (store host) definition "encoding" in
                   if nullish e then VStr "utf8" else e)
              with
              | Ok text => Ok (Some (text, Some normalizedPath))
              | Err error =>
                  Err (PartialReadFailed name normalizedPath
                         (errorMessage error))
              end
          end
      | _ => Err (TypeError "The path argument must be of type string.")
      end
  else Ok (Some (ToString host definition, None)).

Definition apply_outcome (name : string) (o : option (string * option string))
    (acc : PartialResolution) : PartialResolution :=
  match o with
  | None => acc
  | Some (content, None) =>
      {| contents := assoc_set name content (contents acc);
         files := files acc |}
  | Some (content, Some file) =>
      {| contents := assoc_set name content (contents acc);
         files := assoc_set name file (files acc) |}
  end.

(** The three kinds of partial definitions. *)
Definition is_skipped (definition : Value) : Prop :=
  nullish definition = true.

Definition is_file_backed (definition : Value) : Prop :=
  nullish definition = false /\ isPartialFileReference definition = true.

Definition is_inline (definition : Value) : Prop :=
  nullish definition = false /\ isPartialFileReference definition = false.

(** The path a file reference resolves to. *)
Definition partialPath (host : Host) (modulePath file : string) : string :=
  path.normalize (resolveRelativeToModule host modulePath file).

(** The encoding a file reference is read with. *)
Definition partialEncoding (host : Host) (definition : Value) : Value :=
  let e := getProp (store host) definition "encoding" in
  if nullish e then VStr "utf8" else e.

(** *** Recorded dependencies *)

(** The files a load event records as dependencies, in order. *)
Fixpoint event_paths (e : LoadEvent) : list string :=
  match e with
  | ImportResolved filePath => [filePath]
  | RequiredTs filename inner => flat_map event_paths inner ++ [filename]
  end.

(** The dependency set after the given files were recorded in it. *)
Definition record_paths (paths : list string) (deps : list string)
    : list string :=
  fold_left (fun deps p => set_add (path.normalize p) deps) paths deps.

Definition recordedDependencies (events : list LoadEvent) : list string :=
  record_paths (flat_map event_paths events) [].

(** The contexts after one file was recorded in context [c]. *)
Definition record_in (c : nat) (contexts : list ModuleLoadContext)
    (filePath : string) : list ModuleLoadContext :=
  alter (add_dependency (path.normalize filePath)) c contexts.

(** Induction on load events, with the events of a nested require. *)
Fixpoint LoadEvent_nested_ind (P : LoadEvent -> Prop)
    (Hresolved : forall filePath, P (ImportResolved filePath))
    (Hrequired : forall filename inner,
        Forall P inner -> P (RequiredTs filename inner))
    (e : LoadEvent) : P e :=
  match e with
  | ImportResolved filePath => Hresolved filePath
  | RequiredTs filename inner =>
      Hrequired filename inner
        ((fix all (l : list LoadEvent) : Forall P l :=
            match l with
            | [] => @List.Forall_nil _ P
            | e' :: l' =>
                @List.Forall_cons _ P e' l'
                  (LoadEvent_nested_ind P Hresolved Hrequired e') (all l')
            end) inner)
  end.

(** What running events does to a state whose top frame has context [c]:
    the map and the stack are as before, and every path is recorded in
    [c]. *)
Definition records_in_top (e : LoadEvent) : Prop :=
  forall st top rest,
    moduleLoadStack st = top :: rest ->
    moduleDependencyMap (run_event e st) = moduleDependencyMap st
    /\ moduleLoadStack (run_event e st) = moduleLoadStack st
    /\ contexts (run_event e st)
       = fold_left (record_in (frame_context top)) (event_paths e)
           (contexts st).

(** *** Normal forms of paths *)

(** Segments of a normal form. *)
Definition no_sep (seg : string) : Prop :=
  Str.contains_char path.sep seg = false.

Definition proper (seg : string) : Prop :=
  seg <> EmptyString /\ seg <> "." /\ seg <> "..".

(** The shape of a normalized list of segments: the ".." that could not be
    resolved, allowed in a relative path only, then ordinary segments. *)
Definition ordered (allowAboveRoot : bool) (segs : list string) : Prop :=
  exists ups normals,
    segs = ups ++ normals
    /\ Forall (fun seg => seg = "..") ups
    /\ Forall proper normals
    /\ (allowAboveRoot = false -> ups = []).

(** The stack of [normalizeString] keeps this shape: ordinary segments on
    top of the ".." kept so far. *)
Definition stack_shape (allow : bool) (res : list string) : Prop :=
  exists normals ups,
    res = normals ++ ups
    /\ Forall proper normals
    /\ Forall (fun seg => seg = "..") ups
    /\ (allow = false -> ups = []).

(** *** Rendering *)

(** [prefix] is literal text for the engine: put in front of a template, it
    comes out in front of the output and changes nothing else. *)
Definition literal_prefix (expand : TemplateRenderer.Handlebars)
    (prefix : string) : Prop :=
  forall engine template data,
    expand engine (prefix +:+ template) data
    = String.append prefix <$> expand engine template data.


(** *** Escaping *)

(** The characters that [escapeHtml] replaces. *)
Definition html_special (c : ascii) : bool :=
  Ascii.eqb c "&" || Ascii.eqb c "<" || Ascii.eqb c ">"
  || Ascii.eqb c (ascii_of_nat 34) || Ascii.eqb c "'".

(** What one character becomes. *)
Definition escape_char (c : ascii) : string :=
  if Ascii.eqb c "&" then "&amp;"
  else if Ascii.eqb c "<" then "&lt;"
  else if Ascii.eqb c ">" then "&gt;"
  else if Ascii.eqb c (ascii_of_nat 34) then "&quot;"
  else if Ascii.eqb c "'" then "&#39;"
  else String c EmptyString.

(** *** Types of the fields of a recipe *)

(** A title is a string when there is one; a hook is a function when there
    is one. *)
Definition string_or_undefined (v : Value) : Prop :=
  v = VUndefined \/ exists s, v = VStr s.

Definition function_or_undefined (v : Value) : Prop :=
  v = VUndefined \/ exists call, v = VFun call.

Definition typed_fields (r : option TemplatePreviewRecipe) : Prop :=
  string_or_undefined (field_of r KTitle)
  /\ function_or_undefined (field_of r KPreprocess)
  /\ function_or_undefined (field_of r KPostprocess).

(** *** An export without a recipe *)

(** The properties that [resolveRecipe] reads from an exported object. *)
Definition recipeProperties : list string :=
  nestedKeys
    ++ ["title"; "data"; "helpers"; "partials"; "preprocess"; "postprocess";
        "watchFiles"].

(** The recipe that [loadTemplateRecipe] returns when the export has none
    of them: empty, apart from the files the module was seen to depend
    on. *)
Definition bareRecipe (host : Host) (modulePath : string)
    (moduleDependencies : list string) : ResolvedTemplatePreviewRecipe :=
  {| Resolved.title := VUndefined;
     Resolved.data := VObj [];
     Resolved.helpers := VObj [];
     Resolved.partials := [];
     Resolved.preprocess := VUndefined;
     Resolved.postprocess := VUndefined;
     Resolved.watchFiles :=
       normalizeWatchFiles host modulePath (map VStr moduleDependencies);
     Resolved.partialFiles := [];
     Resolved.moduleDependencies := moduleDependencies |}.

(** *** The loader's state *)


(** *** A partial that cannot be resolved *)

(** The entry resolves: it is skipped, inline, or a file that can be
    read. *)
Definition entry_ok (host : Host) (modulePath : string)
    (overrides : option (list (string * string))) (entry : string * Value)
    : Prop :=
  is_ok (entry_outcome host modulePath overrides (fst entry)
           (deref (store host) (snd entry))) = true.

(** [e] is the error of the first entry that does not resolve. *)
Definition first_failure (host : Host) (modulePath : string)
    (overrides : option (list (string * string)))
    (entries : list (string * Value)) (e : Error) : Prop :=
  exists before name definition after,
    entries = before ++ (name, definition) :: after
    /\ Forall (entry_ok host modulePath overrides) before
    /\ entry_outcome host modulePath overrides name
         (deref (store host) definition) = Err e.

(** *** Unsaved documents *)

(** The document is unsaved, is a file, and its path has the normal form
    [p]. *)
Definition overrides_path (p : string) (document : TextDocument) : bool :=
  isDirty document && String.eqb (scheme document) "file"
  && String.eqb (path.normalize (fsPath document)) p.

(** The text of the last such document. *)
Definition dirtyText (textDocuments : list TextDocument) (p : string)
    : option string :=
  getText <$> List.find (overrides_path p) (rev textDocuments).

(** *** The indexes of sessions *)

(** The sessions rendered again when the document with URI [key]
    changes. *)
Definition sessions_of (index : SessionIndex) (key : string) : gset nat :=
  default ∅ (index !! key).

(** The index holds no empty bucket. *)
Definition no_empty_bucket (index : SessionIndex) : Prop :=
  forall key bucket, index !! key = Some bucket -> bucket <> ∅.

(** The session is registered under the URIs of the files in [tracked], and
    under no other. *)
Definition registered_for (uriOf : string -> string)
    (session : PreviewSession) (tracked : list string) (index : SessionIndex)
    : Prop :=
  forall key,
    session_id session ∈ sessions_of index key
    <-> exists p, In p tracked /\ uriOf p = key.

(** The partial files of a recipe that [updateAdditionalWatchers] keeps,
    as it registers them. *)
Definition keptPartials (host : Host) (session : PreviewSession)
    (partialFiles : list (string * string)) : list string :=
  map (normalizeFsPath host session)
    (List.filter (fun p => negb (Str.is_empty p)) (map snd partialFiles)).

(** *** Companion candidates *)

(** An extension written after a path: it holds no separator, and a
    segment that ends with it is an ordinary segment. *)
Definition plain_extension (ext : string) : Prop :=
  no_sep ext /\ forall seg, proper (seg +:+ ext).

(** The last segment of a path, and the segments before it. *)
Definition lastSegment (p : string) : string :=
  List.last (Str.split path.sep p) EmptyString.

Definition leadingSegments (p : string) : list string :=
  removelast (Str.split path.sep p).

(** The normal form of [p] with a plain extension, less the extension. *)
Definition normalizedStem (p : string) : string :=
  let absolute := path.isAbsolute p in
  let kept := path.normalize_segments (negb absolute) (leadingSegments p) in
  (if absolute then "/" else EmptyString)
    +:+ (match kept with
         | [] => EmptyString
         | _ :: _ => Str.join "/" kept +:+ "/"
         end
         +:+ lastSegment p).

(** *** The caches of the compiler *)

(** Every cached compiler context emits CommonJS modules. *)
Definition commonjs_cache (st : TsCompiler.TsState) : Prop :=
  forall key context,
    TsCompiler.compilerContextCache st !! key = Some context ->
    TsCompiler.options context !! "module" = Some "CommonJS".

(** A host that differs in which [tsconfig.json] files can be found. *)
Definition with_findConfigFile (host : TsCompiler.TsHost)
    (findConfigFile' : string -> option string) : TsCompiler.TsHost :=
  {| TsCompiler.cwd := TsCompiler.cwd host;
     TsCompiler.findConfigFile := findConfigFile';
     TsCompiler.parseConfigFile := TsCompiler.parseConfigFile host;
     TsCompiler.transpileModule := TsCompiler.transpileModule host |}.

(** The part of [getCompilerContext] that follows the search for the
    configuration file. *)
Definition contextFor (host : TsCompiler.TsHost) (filePath : string)
    (workspaceFolder : option string) (configPath : option string)
    (st : TsCompiler.TsState)
    : Result TsCompiler.CompilerContext * TsCompiler.TsState :=
  match configPath with
  | None =>
      let baseDir :=
        match TsCompiler.truthy workspaceFolder with
        | Some w => path.resolve (TsCompiler.cwd host) [w]
        | None => path.dirname filePath
        end in
      let cacheKey := "default::" +:+ baseDir in
      match TsCompiler.compilerContextCache st !! cacheKey with
      | Some cached => (Ok cached, st)
      | None =>
          let context :=
            {| TsCompiler.options := TsCompiler.DEFAULT_COMPILER_OPTIONS;
               TsCompiler.baseDir := baseDir;
               TsCompiler.originalRootDir := None |} in
          (Ok context, TsCompiler.set_context cacheKey context st)
      end
  | Some configPath =>
      let normalizedConfigPath := path.normalize configPath in
      let baseDir := path.dirname normalizedConfigPath in
      let baseKey := "config::" +:+ normalizedConfigPath in
      let rootlessKey := baseKey +:+ "::noRootDir" in
      let cachedBase := TsCompiler.compilerContextCache st !! baseKey in
      let useBase :=
        match cachedBase with
        | Some cachedBase =>
            match TsCompiler.truthy (TsCompiler.originalRootDir cachedBase) with
            | None => true
            | Some rootDir => TsCompiler.isWithinDirectory host filePath rootDir
            end
        | None => false
        end in
      match cachedBase, useBase with
      | Some cachedBase, true => (Ok cachedBase, st)
      | _, _ =>
          match TsCompiler.compilerContextCache st !! rootlessKey with
          | Some cachedRootless => (Ok cachedRootless, st)
          | None =>
              match
                TsCompiler.parseConfigFile host normalizedConfigPath baseDir
              with
              | Err e => (Err e, st)
              | Ok parsed =>
                  let options := <["module" := "CommonJS"]> parsed in
                  let '(options, cacheKey, originalRootDir) :=
                    match TsCompiler.truthy (options !! "rootDir") with
                    | Some rootDir =>
                        let originalRootDir :=
                          path.resolve (TsCompiler.cwd host)
                            [baseDir; rootDir] in
                        if negb (TsCompiler.isWithinDirectory host filePath
                                   originalRootDir)
                        then (delete "rootDir" options, rootlessKey,
                              Some originalRootDir)
                        else (options, baseKey, Some originalRootDir)
                    | None => (options, baseKey, None)
                    end in
                  let context :=
                    {| TsCompiler.options := options;
                       TsCompiler.baseDir := baseDir;
                       TsCompiler.originalRootDir := originalRootDir |} in
                  (Ok context, TsCompiler.set_context cacheKey context st)
              end
          end
      end
  end.

(** *** Paths below a directory *)

(** The segments of the absolute form of a path. *)
Definition resolvedSegments (cwd p : string) : list string :=
  path.segments_of (path.resolve cwd [p]).

(** [rest] does not begin with a segment whose name starts with two
    dots. *)
Definition plain_descent (rest : list string) : Prop :=
  match rest with
  | [] => True
  | seg :: _ => Str.startsWith seg ".." = false
  end.

(** ** Sample inputs *)

Definition sample_context : ProcessingContext :=
  {| ctx_templatePath := "/proj/mail.hbs";
     ctx_modulePath := "/proj/mail.hbs.js";
     ctx_workspaceFolder := Some "/proj" |}.





(** A host given by two tables: the text of each file on disk, and what
    each program text does when it is run. *)
Definition failed_run (message : string) : ModuleRun :=
  {| events := []; exported := Err (Thrown message) |}.

Definition table_host (disk : list (string * string))
    (programs : list (string * ModuleRun)) : Host :=
  let run source :=
    match assoc_lookup source programs with
    | Some r => r
    | None => failed_run "SyntaxError: Unexpected token"
    end in
  {| cwd := "/work";
     store := ∅;
     fileExists := fun p => has_key p disk;
     readFile := fun p _ =>
       match assoc_lookup p disk with
       | Some text => Ok text
       | None => Err (Thrown "ENOENT: no such file or directory")
       end;
     transpileTypeScriptModule := fun source _ _ => Ok source;
     compileModule := fun _ source _ => run source;
     requireModule := fun p _ =>
       match assoc_lookup p disk with
       | Some source => run source
       | None => failed_run "Cannot find module"
       end;
     objectToString := fun _ => "[object Object]" |}.

(** A companion module whose fields are given in the four possible ways:
    [data] by an asynchronous factory, [helpers] by a factory that returns
    nothing, [partials] as null, [watchFiles] by value. *)
Definition factories_export : Value :=
  VObj [("data", VFun (fun _ => Fulfils (VObj [("name", VStr "Ada")])));
        ("helpers", VFun (fun _ => Returns VUndefined));
        ("partials", VNull);
        ("watchFiles", VArr [VStr "extra.json"])].

Definition factories_host : Host :=
  table_host [("/proj/mail.hbs.js", "factories")]
    [("factories", {| events := []; exported := Ok factories_export |})].


(** A companion module with a file-backed partial and an inline one. *)
Definition partials_export : Value :=
  VObj [("partials",
         VObj [("header", VObj [("file", VStr "./partials/header.hbs")]);
               ("footer", VStr "<footer/>")])].

Definition partials_host : Host :=
  table_host
    [("/proj/mail.hbs.js", "partials");
     ("/proj/partials/header.hbs", "<header>on disk</header>")]
    [("partials", {| events := []; exported := Ok partials_export |})].

(** The editor holds an unsaved version of the header; its key is not in
    normal form. *)
Definition dirty_header : TemplateRecipeLoadOptions :=
  {| moduleSource := None;
     moduleSourceOverrides := None;
     partialSourceOverrides :=
       Some [("/proj/partials/../partials/header.hbs",
              "<header>unsaved</header>")];
     workspaceFolder := None |}.



(** A companion module whose watch list names one file twice, relatively and
    absolutely, and one file by a path that is not in normal form. *)
Definition watching_export : Value :=
  VObj [("watchFiles",
         VArr [VStr "a.txt"; VStr "/proj/a.txt"; VStr "/proj/../q.txt";
               VStr "a.txt"; VStr " "; VNum 7])].

Definition watching_host : Host :=
  table_host [("/proj/mail.hbs.js", "watching")]
    [("watching",
      {| events := [ImportResolved "/proj/lib/../dep.ts";
                    RequiredTs "/proj/helper.ts"
                      [ImportResolved "/proj/dep.ts"]];
         exported := Ok watching_export |})].

(** A project at /proj whose tsconfig.json restricts sources to src/. *)
Definition project_config : gmap string string :=
  list_to_map [("rootDir", "src"); ("module", "ESNext"); ("strict", "true")].

Definition project_host : TsCompiler.TsHost :=
  {| TsCompiler.cwd := "/work";
     TsCompiler.findConfigFile := fun searchRoot =>
       if Str.startsWith searchRoot "/proj" then Some "/proj/tsconfig.json"
       else None;
     TsCompiler.parseConfigFile := fun _ _ => Ok project_config;
     TsCompiler.transpileModule := fun source _ _ => (source, []) |}.

(** The compiler options obtained for [second] after [first] was compiled,
    starting from empty caches. *)
Definition options_after (host : TsCompiler.TsHost) (first second : string)
    : Result (gmap string string) :=
  let st :=
    snd (TsCompiler.getCompilerContext host first None
           TsCompiler.initialState) in
  TsCompiler.options
    <$> fst (TsCompiler.getCompilerContext host second None st).

(** *** A small templating engine *)

(** Enough of an engine to run the render pipeline: a tag [{{name}}] is
    replaced by the string found under [name] in the data, and all other
    text is copied.  It stands for the third-party engine in examples. *)
Inductive Scan : Type :=
| InText
| SawOpen
| InTag (name : string)
| SawClose (name : string).

Definition lookup_text (data : Value) (name : string) : string :=
  match data with
  | VObj props =>
      match assoc_lookup name props with
      | Some (VStr text) => text
      | _ => EmptyString
      end
  | _ => EmptyString
  end.

Fixpoint mini_expand (data : Value) (mode : Scan) (template : string)
    : string :=
  match template with
  | EmptyString =>
      match mode with
      | InText => EmptyString
      | SawOpen => "{"
      | InTag name => "{{" +:+ name
      | SawClose name => "{{" +:+ name +:+ "}"
      end
  | String c rest =>
      match mode with
      | InText =>
          if Ascii.eqb c "{" then mini_expand data SawOpen rest
          else String c (mini_expand data InText rest)
      | SawOpen =>
          if Ascii.eqb c "{" then mini_expand data (InTag EmptyString) rest
          else String "{" (String c (mini_expand data InText rest))
      | InTag name =>
          if Ascii.eqb c "}" then mini_expand data (SawClose name) rest
          else mini_expand data (InTag (name +:+ String c EmptyString)) rest
      | SawClose name =>
          if Ascii.eqb c "}"
          then lookup_text data name +:+ mini_expand data InText rest
          else
            mini_expand data
              (InTag (name +:+ "}" +:+ String c EmptyString)) rest
      end
  end.

Definition mini_engine : TemplateRenderer.Handlebars :=
  fun _ template data => Ok (mini_expand data InText template).


Fixpoint strip_prefix (prefix s : string) : option string :=
  match prefix, s with
  | EmptyString, _ => Some s
  | String c prefix, String d s =>
      if Ascii.eqb c d then strip_prefix prefix s else None
  | String _ _, EmptyString => None
  end.


Definition welcome_recipe : ResolvedTemplatePreviewRecipe :=
  {| Resolved.title := VUndefined;
     Resolved.data := VObj [("title", VStr "Welcome")];
     Resolved.helpers := VObj [];
     Resolved.partials := [];
     Resolved.preprocess := VUndefined;
     Resolved.postprocess := VUndefined;
     Resolved.watchFiles := [];
     Resolved.partialFiles := [];
     Resolved.moduleDependencies := [] |}.

(** [module.exports = { title: 42, preprocess: "upper",
      default: { title: "Mail", postprocess: (html) => html } }] *)
Definition mistyped_export : Value :=
  VObj [("title", VNum 42);
        ("preprocess", VStr "upper");
        ("default",
         VObj [("title", VStr "Mail");
               ("postprocess",
                VFun (fun args =>
                        match args with
                        | ArgText html :: _ => Returns (VStr html)
                        | _ => Throws "html is not a string"
                        end))])].

Definition mistyped_host : Host :=
  table_host [("/proj/mail.hbs.js", "mistyped")]
    [("mistyped", {| events := []; exported := Ok mistyped_export |})].

(** [require("./util"); module.exports = "just text"] *)
Definition textual_host : Host :=
  table_host [("/proj/mail.hbs.js", "textual")]
    [("textual",
      {| events := [ImportResolved "/proj/lib/../util.ts"];
         exported := Ok (VStr "just text") |})].

(** Two companion modules side by side. *)
Definition two_modules_host : Host :=
  table_host
    [("/proj/mail.hbs.js", "watching");
     ("/proj/invoice.hbs.js", "textual")]
    [("watching",
      {| events := [ImportResolved "/proj/lib/../dep.ts";
                    RequiredTs "/proj/helper.ts"
                      [ImportResolved "/proj/dep.ts"]];
         exported := Ok watching_export |});
     ("textual",
      {| events := [ImportResolved "/proj/lib/../util.ts"];
         exported := Ok (VStr "just text") |})].

(** An unsaved edit that leaves the module with a syntax error. *)
Definition broken_edit : TemplateRecipeLoadOptions :=
  {| moduleSource := Some "module.exports = {";
     moduleSourceOverrides := None;
     partialSourceOverrides := None;
     workspaceFolder := None |}.

(** The loader's state after the first module was loaded. *)
Definition mail_loaded : LoaderState :=
  snd (loadTemplateRecipe two_modules_host "/proj/mail.hbs.js" sample_context
         None initialLoaderState).

(** A partials object whose second and third entries cannot be resolved:
    one has an empty file path, the other names a file that is not there. *)
Definition faulty_partials : Value :=
  VObj [("header", VStr "<header/>");
        ("body", VObj [("file", VStr EmptyString)]);
        ("footer", VObj [("file", VStr "./missing.hbs")])].

(** The open editors: the header partial twice, under two spellings of its
    path, both unsaved; a saved template; an unsaved scratch buffer that is
    not a file. *)
Definition open_documents : list TextDocument :=
  [{| fsPath := "/proj/partials/header.hbs"; scheme := "file";
      isDirty := true; getText := "<header>first</header>" |};
   {| fsPath := "/proj/mail.hbs"; scheme := "file";
      isDirty := false; getText := "{{> header}}" |};
   {| fsPath := "/proj/partials/../partials/header.hbs"; scheme := "file";
      isDirty := true; getText := "<header>second</header>" |};
   {| fsPath := "Untitled-1"; scheme := "untitled";
      isDirty := true; getText := "notes" |}].

(** The text of the URI of a file. *)
Definition file_uri (filePath : string) : string := "file://" +:+ filePath.

(** A session whose last render used one partial file. *)
Definition mail_session : PreviewSession :=
  {| session_id := 1;
     templateFsPath := "/proj/mail.hbs";
     moduleCandidates := ["/proj/mail.hbs.js"; "/proj/mail.hbs.ts"];
     activeModulePath := Some "/proj/mail.hbs.js";
     trackedModuleUris :=
       [file_uri "/proj/mail.hbs.js"; file_uri "/proj/mail.hbs.ts"];
     trackedPartials := ["/proj/partials/old.hbs"] |}.

(** The index of partials: that file is used by the session above and by
    another one. *)
Definition mail_index : SessionIndex :=
  {[ file_uri "/proj/partials/old.hbs" := {[ 1%nat; 2%nat ]} ]}.


(** The loader's state while /proj/mail.hbs.ts is being loaded, with an
    unsaved version of one of the files it imports. *)
Definition loading_state : LoaderState :=
  {| moduleDependencyMap := ∅;
     moduleLoadStack :=
       [{| frame_modulePath := "/proj/mail.hbs.ts"; frame_context := 0;
           isRoot := true |}];
     contexts :=
       [{| root := "/proj/mail.hbs.ts"; dependencies := [];
           overrides :=
             Some [("/proj/lib/../lib/format.ts", "export const unsaved = 1")]
         |}] |}.



(** The index of modules: the session above is registered under both of
    its candidates, another session under the first one only. *)
Definition mail_module_index : SessionIndex :=
  <[ file_uri "/proj/mail.hbs.js" := {[ 1%nat; 2%nat ]} ]>
    {[ file_uri "/proj/mail.hbs.ts" := {[ 1%nat ]} ]}.



(** The editor while the companion module is being typed: the unsaved text
    ends in the middle of an object. *)
Definition typing_documents : list TextDocument :=
  [{| fsPath := "/proj/mail.hbs"; scheme := "file";
      isDirty := false; getText := "{{> header}}" |};
   {| fsPath := "/proj/mail.hbs.js"; scheme := "file";
      isDirty := true; getText := "module.exports = {" |}].

(** * Properties *)

(** ** Results *)

Lemma bind_Ok {A B} (m : Result A) (f : A -> Result B) (b : B) :
  m ≫= f = Ok b -> exists a, m = Ok a /\ f a = Ok b.
Proof. destruct m as [a | e]; simpl; [eauto | discriminate]. Qed.

Lemma bind_Err {A B} (m : Result A) (f : A -> Result B) (e : Error) :
  m ≫= f = Err e -> m = Err e \/ exists a, m = Ok a /\ f a = Err e.
Proof. destruct m as [a | e']; simpl; [eauto | intros [= ->]; auto]. Qed.



(** ** Merging recipes *)

Lemma recipe_get_set (k k' : RecipeKey) v r :
  recipe_get k (recipe_set k' v r)
  = if decide (k = k') then v else recipe_get k r.
Proof.
  destruct k, k'; simpl; try reflexivity;
    (destruct (decide _) as [Heq | Hne]; [try discriminate Heq | try contradiction]; reflexivity).
Qed.

Lemma merge_fold_field override keys result key :
  recipe_get key (fold_left (merge_step override) keys result)
  = if bool_decide (key ∈ keys) && negb (nullish (recipe_get key override))
    then recipe_get key override
    else recipe_get key result.
Proof.
  revert result. induction keys as [| k keys IH]; intros result.
  - reflexivity.
  - cbn [fold_left]. rewrite IH. unfold merge_step.
    destruct (decide (key = k)) as [-> | Hne].
    + rewrite (bool_decide_eq_true_2 (k ∈ k :: keys)) by left.
      destruct (nullish (recipe_get k override)) eqn:Hn; cbn [negb andb].
      * rewrite andb_false_r. reflexivity.
      * rewrite andb_true_r. rewrite recipe_get_set.
        destruct (decide (k = k)); [| contradiction].
        destruct (bool_decide (k ∈ keys)); reflexivity.
    + assert (bool_decide (key ∈ k :: keys) = bool_decide (key ∈ keys)) as ->.
      { apply bool_decide_ext. rewrite elem_of_cons.
        split; [intros [Heq | Hin]; [contradiction | assumption] | auto]. }
      destruct (bool_decide (key ∈ keys) && negb (nullish (recipe_get key override)));
        [reflexivity |].
      destruct (negb (nullish (recipe_get k override))); [| reflexivity].
      rewrite recipe_get_set. destruct (decide (key = k)); [contradiction | reflexivity].
Qed.

Lemma recipeKeys_all key : key ∈ recipeKeys.
Proof. unfold recipeKeys. destruct key; set_solver. Qed.

Lemma mergeRecipes_field base override key :
  field_of (mergeRecipes base (Some override)) key
  = if nullish (recipe_get key override) then field_of base key
    else recipe_get key override.
Proof.
  unfold mergeRecipes. cbn [field_of].
  change (fun result key0 => _) with (merge_step override).
  rewrite merge_fold_field.
  rewrite (bool_decide_eq_true_2 _ (recipeKeys_all key)). cbn [andb].
  destruct (nullish (recipe_get key override)); cbn [negb]; [| reflexivity].
  destruct base; [reflexivity | destruct key; reflexivity].
Qed.

(** ** Resolution of the exported shape *)

Section Resolution.

Variable store : Store.
Variable context : ProcessingContext.

Lemma resolveRecipe_fuel_deep fuel candidate depth :
  (MAX_RESOLUTION_DEPTH < depth)%nat ->
  resolveRecipe_fuel fuel store candidate context depth = Err DepthExceeded.
Proof.
  intros Hd. destruct fuel; cbn [resolveRecipe_fuel];
    apply Nat.ltb_lt in Hd; rewrite Hd; reflexivity.
Qed.

Lemma resolveRecipe_fuel_call fuel call depth :
  (depth <= MAX_RESOLUTION_DEPTH)%nat ->
  resolveRecipe_fuel (S fuel) store (VFun call) context depth
  = invoke store call [ArgContext context] ≫= fun result =>
      resolveRecipe_fuel fuel store result context (depth + 1).
Proof.
  intros Hd. cbn [resolveRecipe_fuel].
  apply Nat.ltb_ge in Hd. rewrite Hd. reflexivity.
Qed.

Lemma resolveRecipe_fuel_record fuel record depth :
  is_record record = true ->
  (depth <= MAX_RESOLUTION_DEPTH)%nat ->
  resolveRecipe_fuel (S fuel) store record context depth
  = nested_fuel store context fuel record depth "getPreviewRecipe" ≫= fun r1 =>
    nested_fuel store context fuel record depth "getPreviewConfig" ≫= fun r2 =>
    nested_fuel store context fuel record depth "getPreviewData" ≫= fun r3 =>
    nested_fuel store context fuel record depth "default" ≫= fun r4 =>
    Ok (merge_all r1 r2 r3 r4 (inlineRecipe store record)).
Proof.
  intros Hrec Hd. apply Nat.ltb_ge in Hd.
  destruct record; try discriminate Hrec;
    cbn [resolveRecipe_fuel]; rewrite Hd; unfold nestedKeys, merge_all;
    cbn [foldl]; unfold nested_fuel;
    repeat match goal with
    | |- context [is_undefined ?v] => destruct (is_undefined v)
    | |- context [resolveRecipe_fuel fuel store ?v context ?d] =>
        destruct (resolveRecipe_fuel fuel store v context d)
    | _ => progress cbn [mbind Result_bind mergeRecipes]
    end; reflexivity.
Qed.

Lemma resolveRecipe_fuel_other fuel candidate depth :
  (depth <= MAX_RESOLUTION_DEPTH)%nat ->
  is_record candidate = false ->
  is_function candidate = false ->
  resolveRecipe_fuel (S fuel) store candidate context depth = Ok None.
Proof.
  intros Hd Hr Hf. apply Nat.ltb_ge in Hd.
  destruct candidate; try discriminate; cbn [resolveRecipe_fuel];
    rewrite Hd; reflexivity.
Qed.

Lemma resolveRecipe_fuel_enough fuel1 :
  forall fuel2 candidate depth,
    (S MAX_RESOLUTION_DEPTH - depth <= fuel1)%nat ->
    (S MAX_RESOLUTION_DEPTH - depth <= fuel2)%nat ->
    resolveRecipe_fuel fuel1 store candidate context depth
    = resolveRecipe_fuel fuel2 store candidate context depth.
Proof.
  induction fuel1 as [| fuel1 IH]; intros fuel2 candidate depth H1 H2;
    destruct (le_lt_dec depth MAX_RESOLUTION_DEPTH) as [Hd | Hd];
    try (rewrite !resolveRecipe_fuel_deep by assumption; reflexivity);
    try (exfalso; unfold MAX_RESOLUTION_DEPTH in *; lia).
  destruct fuel2 as [| fuel2];
    [exfalso; unfold MAX_RESOLUTION_DEPTH in *; lia |].
  assert (forall v, resolveRecipe_fuel fuel1 store v context (depth + 1)
                    = resolveRecipe_fuel fuel2 store v context (depth + 1))
    as Hrec.
  { intros v. apply IH; unfold MAX_RESOLUTION_DEPTH in *; lia. }
  destruct (is_record candidate) eqn:Hr.
  - rewrite !resolveRecipe_fuel_record by assumption.
    assert (forall key,
              nested_fuel store context fuel1 candidate depth key
              = nested_fuel store context fuel2 candidate depth key) as Hn.
    { intros key. unfold nested_fuel. rewrite Hrec. reflexivity. }
    do 4 (match goal with
          | |- nested_fuel _ _ _ _ _ ?key ≫= _ = _ => rewrite (Hn key)
          end;
          match goal with
          | |- ?m ≫= _ = _ => destruct m; cbn [mbind Result_bind]
          end; [| reflexivity]).
    reflexivity.
  - destruct (is_function candidate) eqn:Hf.
    + destruct candidate; try discriminate Hf.
      rewrite !resolveRecipe_fuel_call by assumption.
      destruct (invoke store call [ArgContext context]);
        cbn [mbind Result_bind]; [apply Hrec | reflexivity].
    + rewrite !resolveRecipe_fuel_other by assumption. reflexivity.
Qed.

Lemma resolveRecipe_of_fuel fuel candidate depth :
  (S MAX_RESOLUTION_DEPTH - depth <= fuel)%nat ->
  resolveRecipe_fuel fuel store candidate context depth
  = resolveRecipe store candidate context depth.
Proof.
  intros H. unfold resolveRecipe. apply resolveRecipe_fuel_enough; [assumption | lia].
Qed.

Lemma nested_fuel_resolveNested fuel record depth key :
  (S MAX_RESOLUTION_DEPTH - (depth + 1) <= fuel)%nat ->
  nested_fuel store context fuel record depth key
  = resolveNested store record context depth key.
Proof.
  intros H. unfold nested_fuel, resolveNested.
  destruct (is_undefined _); [reflexivity |].
  apply resolveRecipe_of_fuel. assumption.
Qed.

Lemma resolveRecipe_record record depth :
  is_record record = true ->
  (depth <= MAX_RESOLUTION_DEPTH)%nat ->
  resolveRecipe store record context depth
  = resolveNested store record context depth "getPreviewRecipe" ≫= fun r1 =>
    resolveNested store record context depth "getPreviewConfig" ≫= fun r2 =>
    resolveNested store record context depth "getPreviewData" ≫= fun r3 =>
    resolveNested store record context depth "default" ≫= fun r4 =>
    Ok (merge_all r1 r2 r3 r4 (inlineRecipe store record)).
Proof.
  intros Hr Hd. unfold resolveRecipe.
  replace (S MAX_RESOLUTION_DEPTH - depth)%nat
    with (S (MAX_RESOLUTION_DEPTH - depth)) by lia.
  rewrite resolveRecipe_fuel_record by assumption.
  rewrite !nested_fuel_resolveNested by lia. reflexivity.
Qed.

Lemma resolveRecipe_call call depth :
  (depth <= MAX_RESOLUTION_DEPTH)%nat ->
  resolveRecipe store (VFun call) context depth
  = invoke store call [ArgContext context] ≫= fun result =>
      resolveRecipe store result context (depth + 1).
Proof.
  intros Hd. unfold resolveRecipe at 1.
  replace (S MAX_RESOLUTION_DEPTH - depth)%nat
    with (S (MAX_RESOLUTION_DEPTH - depth)) by lia.
  rewrite resolveRecipe_fuel_call by assumption.
  destruct (invoke store call [ArgContext context]);
    cbn [mbind Result_bind]; [| reflexivity].
  apply resolveRecipe_of_fuel. lia.
Qed.

Lemma resolveRecipe_other candidate depth :
  (depth <= MAX_RESOLUTION_DEPTH)%nat ->
  is_record candidate = false ->
  is_function candidate = false ->
  resolveRecipe store candidate context depth = Ok None.
Proof.
  intros Hd Hr Hf. unfold resolveRecipe.
  replace (S MAX_RESOLUTION_DEPTH - depth)%nat
    with (S (MAX_RESOLUTION_DEPTH - depth)) by lia.
  apply resolveRecipe_fuel_other; assumption.
Qed.

Lemma resolveRecipe_deep candidate depth :
  (MAX_RESOLUTION_DEPTH < depth)%nat ->
  resolveRecipe store candidate context depth = Err DepthExceeded.
Proof. apply resolveRecipe_fuel_deep. Qed.

(** *** The depth cap *)













End Resolution.










(** ** The order of the merges *)

Lemma mergeRecipes_field_of base override key :
  field_of (mergeRecipes base override) key
  = if nullish (field_of override key) then field_of base key
    else field_of override key.
Proof.
  destruct override as [o |]; [apply mergeRecipes_field | reflexivity].
Qed.

Lemma merge_all_field r1 r2 r3 r4 inline key :
  field_of (merge_all r1 r2 r3 r4 inline) key
  = pick [recipe_get key inline; field_of r4 key; field_of r3 key;
          field_of r2 key; field_of r1 key].
Proof.
  unfold merge_all. rewrite !mergeRecipes_field_of. cbn [pick field_of].
  destruct (nullish (recipe_get key inline)); [| reflexivity].
  destruct (nullish (field_of r4 key)); [| reflexivity].
  destruct (nullish (field_of r3 key)); [| reflexivity].
  destruct (nullish (field_of r2 key)); [| reflexivity].
  destruct (nullish (field_of r1 key)); reflexivity.
Qed.



(** ** Fields given by value or by factory *)

Lemma is_undefined_spec v : is_undefined v = true <-> v = VUndefined.
Proof. destruct v; simpl; split; intros H; congruence. Qed.

Lemma resolveMaybeFactory_Ok store context value fallback r :
  resolveMaybeFactory store value context fallback = Ok r
  <-> resolves_to store context fallback value r.
Proof.
  split.
  - destruct value; cbn [resolveMaybeFactory nullish]; intros H;
      try (injection H as <-; first [ constructor; reflexivity | constructor ]).
    unfold invoke in H.
    destruct (await (call [ArgContext context])) as [v | e] eqn:Ev;
      cbn in H; [| discriminate].
    destruct (is_undefined (deref store v)) eqn:Eu; injection H as <-.
    + eapply resolves_callable_nothing; [eassumption |].
      apply is_undefined_spec. assumption.
    + eapply resolves_callable; [eassumption |].
      intros Hu. apply is_undefined_spec in Hu. congruence.
  - destruct 1 as [call v Hv Hdef | call v Hv Hundef | | | value Hf Hn];
      cbn [resolveMaybeFactory nullish]; try reflexivity.
    + unfold invoke. rewrite Hv. cbn.
      destruct (is_undefined (deref store v)) eqn:Eu; [| reflexivity].
      apply is_undefined_spec in Eu. contradiction.
    + unfold invoke. rewrite Hv. cbn. rewrite Hundef. reflexivity.
    + destruct value; try discriminate; reflexivity.
Qed.

Lemma resolveMaybeFactory_Err store context value fallback e :
  resolveMaybeFactory store value context fallback = Err e
  <-> exists call,
        value = VFun call /\ await (call [ArgContext context]) = Err e.
Proof.
  split.
  - destruct value; cbn [resolveMaybeFactory nullish]; try discriminate.
    unfold invoke.
    destruct (await (call [ArgContext context])) as [v | e'] eqn:Ev; cbn.
    + destruct (is_undefined (deref store v)); discriminate.
    + intros [= <-]. eauto.
  - intros (call & -> & Hv). cbn [resolveMaybeFactory].
    unfold invoke. rewrite Hv. reflexivity.
Qed.

(** ** What a successful load is made of *)

Lemma loadTemplateRecipe_inv host modulePath context options st r st' :
  loadTemplateRecipe host modulePath context options st = (Ok r, st') ->
  exists raw recipe rh rp rd rw pr entries,
    (is_Some (options ≫= moduleSource) \/ fileExists host modulePath = true)
    /\ loadModuleExports host modulePath (options ≫= moduleSource)
         (match options ≫= workspaceFolder with
          | Some w => Some w
          | None => ctx_workspaceFolder context
          end)
         (options ≫= moduleSourceOverrides) st = (Ok raw, st')
    /\ resolveRecipe (store host) (deref (store host) raw) context 0 = Ok recipe
    /\ resolveMaybeFactory (store host) (field_of recipe KHelpers) context
         (VObj []) = Ok rh
    /\ resolveMaybeFactory (store host) (field_of recipe KPartials) context
         (VObj []) = Ok rp
    /\ resolveMaybeFactory (store host) (field_of recipe KData) context
         (VObj []) = Ok rd
    /\ resolveMaybeFactory (store host) (field_of recipe KWatchFiles) context
         (VArr []) = Ok rw
    /\ resolvePartials host rp modulePath (options ≫= partialSourceOverrides)
       = Ok pr
    /\ spread rw = Ok entries
    /\ r = {| Resolved.title := field_of recipe KTitle;
              Resolved.data := rd;
              Resolved.helpers := rh;
              Resolved.partials := contents pr;
              Resolved.preprocess := field_of recipe KPreprocess;
              Resolved.postprocess := field_of recipe KPostprocess;
              Resolved.watchFiles :=
                normalizeWatchFiles host modulePath
                  (entries ++ map VStr (map snd (files pr))
                     ++ map VStr (getModuleDependenciesFor modulePath st'));
              Resolved.partialFiles := files pr;
              Resolved.moduleDependencies :=
                getModuleDependenciesFor modulePath st' |}.
Proof.
  unfold loadTemplateRecipe.
  set (ws := match options ≫= workspaceFolder with
             | Some w => Some w
             | None => ctx_workspaceFolder context
             end).
  destruct (match options ≫= moduleSource with
            | Some _ => true
            | None => fileExists host modulePath
            end) eqn:Hexists; cbn [negb]; [| discriminate].
  assert (is_Some (options ≫= moduleSource) \/ fileExists host modulePath = true)
    as Hex.
  { destruct (options ≫= moduleSource); [left; eauto | right; assumption]. }
  destruct (loadModuleExports host modulePath (options ≫= moduleSource) ws
              (options ≫= moduleSourceOverrides) st) as [raw'' st''];
    intros [= Hres <-];
    apply bind_Ok in Hres as (raw & -> & Hres);
    apply bind_Ok in Hres as (recipe & Hrecipe & Hres);
    apply bind_Ok in Hres as (rh & Hrh & Hres);
    apply bind_Ok in Hres as (rp & Hrp & Hres);
    apply bind_Ok in Hres as (rd & Hrd & Hres);
    apply bind_Ok in Hres as (rw & Hrw & Hres);
    apply bind_Ok in Hres as (pr & Hpr & Hres);
    apply bind_Ok in Hres as (entries & Hentries & Hres);
    injection Hres as <-;
    exists raw, recipe, rh, rp, rd, rw, pr, entries;
    repeat (split; [first [ assumption | reflexivity | auto ] |]);
    reflexivity.
Qed.

(** ** Association lists *)

Lemma eqb_refl_true s : String.eqb s s = true.
Proof. apply String.eqb_refl. Qed.

Lemma assoc_lookup_set_eq {A} key (v : A) props :
  assoc_lookup key (assoc_set key v props) = Some v.
Proof.
  induction props as [| [k w] props IH]; cbn.
  - rewrite eqb_refl_true. reflexivity.
  - destruct (String.eqb k key) eqn:E; cbn; rewrite E; [reflexivity | exact IH].
Qed.

Lemma assoc_lookup_set_ne {A} key key' (v : A) props :
  key <> key' ->
  assoc_lookup key' (assoc_set key v props) = assoc_lookup key' props.
Proof.
  intros Hne. induction props as [| [k w] props IH]; cbn.
  - destruct (String.eqb key key') eqn:E; [| reflexivity].
    apply String.eqb_eq in E. contradiction.
  - destruct (String.eqb k key) eqn:E; cbn.
    + apply String.eqb_eq in E. subst k.
      destruct (String.eqb key key') eqn:E'; [| reflexivity].
      apply String.eqb_eq in E'. contradiction.
    + destruct (String.eqb k key'); [reflexivity | exact IH].
Qed.

Lemma assoc_lookup_In {A} key (v : A) props :
  assoc_lookup key props = Some v -> In (key, v) props.
Proof.
  induction props as [| [k w] props IH]; cbn; [discriminate |].
  destruct (String.eqb k key) eqn:E.
  - apply String.eqb_eq in E. intros [= ->]. left. congruence.
  - intros H. right. apply IH, H.
Qed.

Lemma assoc_lookup_None {A} key (props : list (string * A)) :
  assoc_lookup key props = None <-> ~ In key (map fst props).
Proof.
  induction props as [| [k w] props IH]; cbn; [tauto |].
  destruct (String.eqb k key) eqn:E.
  - apply String.eqb_eq in E. split; [discriminate | intros H; exfalso; auto].
  - apply String.eqb_neq in E. rewrite IH. tauto.
Qed.

Lemma assoc_lookup_NoDup {A} key (v : A) props :
  NoDup (map fst props) -> In (key, v) props ->
  assoc_lookup key props = Some v.
Proof.
  induction props as [| [k w] props IH]; cbn; [contradiction |].
  intros Hnd [Heq | Hin].
  - injection Heq as -> ->. rewrite eqb_refl_true. reflexivity.
  - apply NoDup_cons in Hnd as [Hnotin Hnd].
    destruct (String.eqb k key) eqn:E.
    + apply String.eqb_eq in E. subst k. exfalso. apply Hnotin.
      apply list_elem_of_In. apply (in_map fst) in Hin. exact Hin.
    + apply IH; assumption.
Qed.

(** ** Partials *)

Section Partials.

Variable host : Host.
Variable modulePath : string.
Variable overrides : option (list (string * string)).

Lemma resolvePartial_outcome acc name v :
  resolvePartial host modulePath overrides acc (name, v)
  = (fun o => apply_outcome name o acc)
      <$> entry_outcome host modulePath overrides name (deref (store host) v).
Proof.
  unfold resolvePartial, entry_outcome. cbn [fst snd].
  destruct (nullish (deref (store host) v)); [reflexivity |].
  destruct (isPartialFileReference (deref (store host) v)); [| reflexivity].
  destruct (falsy (getProp (store host) (deref (store host) v) "file"));
    [reflexivity |].
  destruct (getProp (store host) (deref (store host) v) "file");
    try reflexivity.
  destruct (findOverride overrides _); [reflexivity |].
  destruct (readFile host _ _); reflexivity.
Qed.

Lemma partials_fold_Err entries e :
  foldl (partials_step host modulePath overrides) (Err e) entries = Err e.
Proof. induction entries as [| entry entries IH]; [reflexivity | exact IH]. Qed.

Lemma partials_fold entries :
  forall acc pr,
    NoDup (map fst entries) ->
    foldl (partials_step host modulePath overrides) (Ok acc) entries = Ok pr ->
    (forall name v,
        In (name, v) entries ->
        exists o,
          entry_outcome host modulePath overrides name (deref (store host) v)
          = Ok o
          /\ assoc_lookup name (contents pr)
             = match o with
               | Some (content, _) => Some content
               | None => assoc_lookup name (contents acc)
               end
          /\ assoc_lookup name (files pr)
             = match o with
               | Some (_, Some file) => Some file
               | _ => assoc_lookup name (files acc)
               end)
    /\ (forall name,
          ~ In name (map fst entries) ->
          assoc_lookup name (contents pr) = assoc_lookup name (contents acc)
          /\ assoc_lookup name (files pr) = assoc_lookup name (files acc)).
Proof.
  induction entries as [| [name0 v0] entries IH]; intros acc pr Hnd Hfold.
  - cbn in Hfold. injection Hfold as <-. split; [contradiction | auto].
  - cbn [foldl] in Hfold. unfold partials_step at 2 in Hfold.
    cbn [mbind Result_bind] in Hfold.
    rewrite resolvePartial_outcome in Hfold.
    destruct (entry_outcome host modulePath overrides name0
                (deref (store host) v0)) as [o0 | e0] eqn:E0;
      cbn [fmap Result_fmap] in Hfold;
      [| rewrite partials_fold_Err in Hfold; discriminate].
    cbn [map fst] in Hnd. apply NoDup_cons in Hnd as [Hnotin Hnd].
    rewrite list_elem_of_In in Hnotin.
    destruct (IH _ _ Hnd Hfold) as [Hin Hout].
    destruct (Hout name0 Hnotin) as [Hc0 Hf0].
    split.
    + intros name v [Heq | Hi].
      * injection Heq as <- <-. exists o0. split; [exact E0 |].
        rewrite Hc0, Hf0.
        destruct o0 as [[content [file |]] |]; cbn [apply_outcome contents files];
          rewrite ?assoc_lookup_set_eq; auto.
      * destruct (Hin name v Hi) as (o & Ho & Hc & Hf).
        assert (name0 <> name) as Hne.
        { intros ->. apply Hnotin. apply (in_map fst) in Hi. exact Hi. }
        exists o. split; [exact Ho |].
        rewrite Hc, Hf.
        destruct o0 as [[content0 [file0 |]] |];
          cbn [apply_outcome contents files];
          rewrite ?(assoc_lookup_set_ne name0 name) by assumption; auto.
    + intros name Hnot. cbn [map fst] in Hnot.
      assert (name0 <> name) as Hne by (intros ->; apply Hnot; left; reflexivity).
      destruct (Hout name) as [Hc Hf]; [intros Hi; apply Hnot; right; exact Hi |].
      rewrite Hc, Hf.
      destruct o0 as [[content0 [file0 |]] |];
        cbn [apply_outcome contents files];
        rewrite ?(assoc_lookup_set_ne name0 name) by assumption; auto.
Qed.

Lemma resolvePartials_fold partials :
  resolvePartials host partials modulePath overrides
  = foldl (partials_step host modulePath overrides) (Ok {| contents := []; files := [] |})
      (partialEntries partials).
Proof. reflexivity. Qed.

(** Every entry contributes its outcome, and nothing else is in the
    result. *)
Lemma resolvePartials_entries partials pr :
  NoDup (map fst (partialEntries partials)) ->
  resolvePartials host partials modulePath overrides = Ok pr ->
  (forall name v,
      In (name, v) (partialEntries partials) ->
      exists o,
        entry_outcome host modulePath overrides name (deref (store host) v)
        = Ok o
        /\ assoc_lookup name (contents pr) = fst <$> o
        /\ assoc_lookup name (files pr) = o ≫= snd)
  /\ (forall name,
        ~ In name (map fst (partialEntries partials)) ->
        assoc_lookup name (contents pr) = None
        /\ assoc_lookup name (files pr) = None).
Proof.
  intros Hnd Hres. rewrite resolvePartials_fold in Hres.
  destruct (partials_fold _ _ _ Hnd Hres) as [Hin Hout].
  split; [| exact Hout].
  intros name v Hi. destruct (Hin name v Hi) as (o & Ho & Hc & Hf).
  exists o. split; [exact Ho |]. rewrite Hc, Hf.
  destruct o as [[content [file |]] |]; auto.
Qed.

End Partials.

Lemma entry_outcome_shapes host modulePath overrides name definition o :
  entry_outcome host modulePath overrides name definition = Ok o ->
  (is_skipped definition /\ o = None)
  \/ (is_inline definition /\ o = Some (ToString host definition, None))
  \/ (is_file_backed definition
      /\ exists file content,
          getProp (store host) definition "file" = VStr file
          /\ o = Some (content, Some (partialPath host modulePath file))
          /\ match findOverride overrides (partialPath host modulePath file) with
             | Some override => content = override
             | None =>
                 readFile host (partialPath host modulePath file)
                   (partialEncoding host definition) = Ok content
             end).
Proof.
  unfold entry_outcome, is_skipped, is_inline, is_file_backed.
  destruct (nullish definition) eqn:En; [intros [= <-]; auto |].
  destruct (isPartialFileReference definition) eqn:Ef;
    [| intros [= <-]; auto].
  destruct (falsy (getProp (store host) definition "file")); [discriminate |].
  destruct (getProp (store host) definition "file") as [| | | | file | | | |];
    try discriminate.
  fold (partialPath host modulePath file).
  fold (partialEncoding host definition).
  intros H. right. right. split; [auto |].
  destruct (findOverride overrides (partialPath host modulePath file))
    as [override |] eqn:Eo.
  - injection H as <-. exists file, override. rewrite Eo. auto.
  - destruct (readFile host (partialPath host modulePath file)
                (partialEncoding host definition)) as [text | e] eqn:Er;
      [| discriminate].
    injection H as <-. exists file, text. rewrite Eo. auto.
Qed.

Lemma keys_is_Some {A} name (props : list (string * A)) :
  In name (map fst props) <-> is_Some (assoc_lookup name props).
Proof.
  destruct (assoc_lookup name props) eqn:E.
  - split; [eauto |]. intros _. apply assoc_lookup_In in E.
    apply (in_map fst) in E. exact E.
  - split; [| intros [x Hx]; discriminate].
    intros Hin. apply assoc_lookup_None in E. contradiction.
Qed.



(** ** Paths *)

Lemma append_first_is c s t :
  Str.first_is c s = true -> Str.first_is c (s +:+ t) = true.
Proof. destruct s; cbn; [discriminate | auto]. Qed.

Lemma isAbsolute_slash s : path.isAbsolute ("/" +:+ s) = true.
Proof. reflexivity. Qed.

Lemma resolve_loop_absolute cwd parts acc :
  path.isAbsolute cwd = true ->
  snd (path.resolve_loop (parts ++ [cwd]) acc) = true.
Proof.
  intros Hcwd. revert acc.
  induction parts as [| part parts IH]; intros acc; cbn.
  - destruct (Str.is_empty cwd) eqn:E; [destruct cwd; discriminate |].
    rewrite Hcwd. reflexivity.
  - destruct (Str.is_empty part); [apply IH |].
    destruct (path.isAbsolute part); [reflexivity | apply IH].
Qed.

Lemma resolve_isAbsolute cwd args :
  path.isAbsolute cwd = true ->
  path.isAbsolute (path.resolve cwd args) = true.
Proof.
  intros Hcwd. unfold path.resolve.
  pose proof (resolve_loop_absolute cwd (rev args) EmptyString Hcwd) as H.
  destruct (path.resolve_loop (rev args ++ [cwd]) EmptyString) as [p abs].
  cbn in H. subst abs. reflexivity.
Qed.

Lemma normalize_isAbsolute p :
  path.isAbsolute p = true -> path.isAbsolute (path.normalize p) = true.
Proof.
  intros Habs. unfold path.normalize.
  destruct p as [| c p]; [discriminate |]. cbn [Str.is_empty].
  rewrite Habs. cbn [negb].
  destruct (Str.is_empty _); [reflexivity |].
  destruct (Str.last_is path.sep (String c p)); reflexivity.
Qed.

Lemma absolute_trim_nonempty p :
  path.isAbsolute p = true -> Str.trim_nonempty p = true.
Proof.
  destruct p as [| c p]; [discriminate |]. cbn.
  intros H. apply Ascii.eqb_eq in H. subst c. reflexivity.
Qed.

(** ** The watch list *)

Lemma sameValueZero_str s y :
  sameValueZero (VStr s) y = true <-> y = VStr s.
Proof.
  destruct y; cbn; split; intros H; try discriminate.
  - apply String.eqb_eq in H. congruence.
  - injection H as ->. apply String.eqb_refl.
Qed.

Lemma unique_fold_In s entries :
  forall seen,
    In (VStr s)
      (fold_left
         (fun seen v =>
            if existsb (sameValueZero v) seen then seen else seen ++ [v])
         entries seen)
    <-> In (VStr s) seen \/ In (VStr s) entries.
Proof.
  induction entries as [| v entries IH]; intros seen; cbn [fold_left].
  - cbn. tauto.
  - rewrite IH. cbn [In].
    destruct (existsb (sameValueZero v) seen) eqn:E.
    + split; [tauto |]. intros [H | [-> | H]]; auto.
      apply existsb_exists in E as (y & Hy & Hsame).
      apply sameValueZero_str in Hsame. subst y. auto.
    + rewrite in_app_iff. cbn [In]. tauto.
Qed.

Lemma uniqueValues_In s entries :
  In (VStr s) (uniqueValues entries) <-> In (VStr s) entries.
Proof.
  unfold uniqueValues. rewrite unique_fold_In. cbn. tauto.
Qed.

Lemma watchable_Some v s :
  watchable v = Some s <-> v = VStr s /\ Str.trim_nonempty s = true.
Proof.
  destruct v; cbn; try (split; [discriminate | intros [H _]; discriminate]).
  destruct (Str.trim_nonempty s0) eqn:E.
  - split; [intros [= ->]; auto | intros [[= ->] _]; reflexivity].
  - split; [discriminate | intros [[= ->] H]; congruence].
Qed.

Lemma normalizeWatchFiles_In host modulePath entries w :
  In w (normalizeWatchFiles host modulePath entries)
  <-> exists s,
        In (VStr s) entries
        /\ Str.trim_nonempty s = true
        /\ w = absoluteWatchFile host modulePath s.
Proof.
  unfold normalizeWatchFiles. rewrite in_map_iff. split.
  - intros (s & <- & Hin). apply list_elem_of_In in Hin.
    apply list_elem_of_omap in Hin as (v & Hv & Hw).
    apply watchable_Some in Hw as [-> Ht].
    apply list_elem_of_In in Hv. apply (proj1 (uniqueValues_In _ _)) in Hv.
    exists s. auto.
  - intros (s & Hin & Ht & ->). exists s. split; [reflexivity |].
    apply list_elem_of_In, list_elem_of_omap. exists (VStr s).
    split; [apply list_elem_of_In, (proj2 (uniqueValues_In _ _)); exact Hin |].
    apply watchable_Some. auto.
Qed.

Lemma absoluteWatchFile_absolute host modulePath s :
  path.isAbsolute (cwd host) = true ->
  path.isAbsolute (absoluteWatchFile host modulePath s) = true.
Proof.
  intros Hcwd. unfold absoluteWatchFile.
  destruct (path.isAbsolute s) eqn:E; [exact E |].
  apply resolve_isAbsolute. exact Hcwd.
Qed.

Lemma partialPath_absolute host modulePath file :
  path.isAbsolute (cwd host) = true ->
  path.isAbsolute (partialPath host modulePath file) = true.
Proof.
  intros Hcwd. unfold partialPath, resolveRelativeToModule.
  apply normalize_isAbsolute.
  destruct (path.isAbsolute file) eqn:E; [exact E |].
  apply resolve_isAbsolute. exact Hcwd.
Qed.

Lemma In_values {A} name (v : A) props :
  assoc_lookup name props = Some v -> In v (map snd props).
Proof.
  intros H. apply assoc_lookup_In in H. apply (in_map snd) in H. exact H.
Qed.


(** The same, in terms of the named steps. *)
Lemma loadTemplateRecipe_steps host modulePath context options st r st' :
  loadTemplateRecipe host modulePath context options st = (Ok r, st') ->
  exists recipe rp rw pr entries,
    loadedRecipe host modulePath context options st = Ok recipe
    /\ resolvedPartialsOf host modulePath context options st = Ok rp
    /\ resolvedWatchFilesOf host modulePath context options st = Ok rw
    /\ resolvePartials host rp modulePath (options ≫= partialSourceOverrides)
       = Ok pr
    /\ spread rw = Ok entries
    /\ resolves_to (store host) context (VObj []) (field_of recipe KData)
         (Resolved.data r)
    /\ resolves_to (store host) context (VObj []) (field_of recipe KHelpers)
         (Resolved.helpers r)
    /\ Resolved.partials r = contents pr
    /\ Resolved.partialFiles r = files pr
    /\ Resolved.watchFiles r
       = normalizeWatchFiles host modulePath
           (entries ++ map VStr (map snd (files pr))
              ++ map VStr (Resolved.moduleDependencies r)).
Proof.
  intros Hload.
  apply loadTemplateRecipe_inv in Hload
    as (raw & recipe & rh & rp & rd & rw & pr & entries & _ & Hraw & Hrecipe
        & Hrh & Hrp & Hrd & Hrw & Hpr & Hentries & ->).
  exists recipe, rp, rw, pr, entries.
  assert (loadedRecipe host modulePath context options st = Ok recipe) as Hl.
  { unfold loadedRecipe. rewrite Hraw. exact Hrecipe. }
  unfold resolvedPartialsOf, resolvedWatchFilesOf. rewrite Hl.
  cbn [mbind Result_bind Resolved.data Resolved.helpers Resolved.partials
       Resolved.partialFiles Resolved.watchFiles Resolved.moduleDependencies].
  repeat split; try assumption; apply resolveMaybeFactory_Ok; assumption.
Qed.

(** C4.  Each of the fields data, helpers, partials and watchFiles of the
    merged recipe is resolved on its own by the same rule: a callable is
    called with the context and its result awaited, with the empty default
    in place of an undefined result; an absent or null value gives the empty
    default; any other value is used as it is.  The defaults are the empty
    object for data, helpers and partials and the empty array for
    watchFiles.  The resolved data and helpers are returned as they are; the
    resolved partials and watchFiles are what partial resolution and the
    watch list are computed from. *)
Theorem loadTemplateRecipe_fields host context :
  (forall value fallback r,
      resolveMaybeFactory (store host) value context fallback = Ok r
      <-> resolves_to (store host) context fallback value r)
  /\ (forall modulePath options st r st' recipe,
        loadTemplateRecipe host modulePath context options st = (Ok r, st') ->
        loadedRecipe host modulePath context options st = Ok recipe ->
        resolves_to (store host) context (VObj [])
          (field_of recipe KData) (Resolved.data r)
        /\ resolves_to (store host) context (VObj [])
             (field_of recipe KHelpers) (Resolved.helpers r)
        /\ exists resolvedPartials resolvedWatchFiles entries,
            resolves_to (store host) context (VObj [])
              (field_of recipe KPartials) resolvedPartials
            /\ resolves_to (store host) context (VArr [])
                 (field_of recipe KWatchFiles) resolvedWatchFiles
            /\ resolvePartials host resolvedPartials modulePath
                 (options ≫= partialSourceOverrides)
               = Ok {| contents := Resolved.partials r;
                       files := Resolved.partialFiles r |}
            /\ spread resolvedWatchFiles = Ok entries
            /\ Resolved.watchFiles r
               = normalizeWatchFiles host modulePath
                   (entries ++ map VStr (map snd (Resolved.partialFiles r))
                      ++ map VStr (Resolved.moduleDependencies r))).
Proof.
  split.
  - intros value fallback r. apply resolveMaybeFactory_Ok.
  - intros modulePath options st r st' recipe Hload Hrecipe.
    apply loadTemplateRecipe_steps in Hload
      as (recipe' & rp & rw & pr & entries & Hrecipe' & Hrp & Hrw & Hpr
          & Hentries & Hd & Hh & Hp & Hf & Hw).
    rewrite Hrecipe in Hrecipe'. injection Hrecipe' as <-.
    split; [exact Hd |]. split; [exact Hh |].
    exists rp, rw, entries.
    unfold resolvedPartialsOf in Hrp. unfold resolvedWatchFilesOf in Hrw.
    rewrite Hrecipe in Hrp, Hrw. cbn [mbind Result_bind] in Hrp, Hrw.
    apply resolveMaybeFactory_Ok in Hrp. apply resolveMaybeFactory_Ok in Hrw.
    rewrite Hp, Hf, Hw.
    split; [exact Hrp |]. split; [exact Hrw |].
    split; [destruct pr; exact Hpr |]. split; [exact Hentries | reflexivity].
Qed.

Lemma loadTemplateRecipe_fields_witness :
  exists r st',
    loadTemplateRecipe factories_host "/proj/mail.hbs.js" sample_context None
      initialLoaderState = (Ok r, st')
    /\ resolves_to (store factories_host) sample_context (VObj [])
         (VFun (fun _ => Fulfils (VObj [("name", VStr "Ada")])))
         (Resolved.data r)
    /\ resolves_to (store factories_host) sample_context (VObj [])
         (VFun (fun _ => Returns VUndefined)) (Resolved.helpers r)
    /\ Resolved.data r = VObj [("name", VStr "Ada")]
    /\ Resolved.helpers r = VObj []
    /\ Resolved.partials r = []
    /\ Resolved.watchFiles r = ["/proj/extra.json"].
Proof.
  destruct (loadTemplateRecipe factories_host "/proj/mail.hbs.js"
              sample_context None initialLoaderState) as [[r | e] st'] eqn:E;
    [| vm_compute in E; discriminate].
  exists r, st'. split; [reflexivity |].
  destruct (proj2 (loadTemplateRecipe_fields factories_host sample_context)
              _ _ _ _ _ _ E eq_refl) as (Hd & Hh & _).
  split; [exact Hd |]. split; [exact Hh |].
  vm_compute in E. injection E as <- <-.
  repeat split; reflexivity.
Defined.

(** ** Partial source overrides *)

Lemma findOverride_found overrides p key text :
  In (key, text) overrides ->
  key = p \/ path.normalize key = p ->
  is_Some (findOverride (Some overrides) p).
Proof.
  intros Hin Hmatch. unfold findOverride.
  destruct (assoc_lookup p overrides) as [t |] eqn:El; [eauto |].
  destruct Hmatch as [-> | Hnorm].
  - apply assoc_lookup_None in El. exfalso. apply El.
    apply (in_map fst) in Hin. exact Hin.
  - destruct (List.find _ overrides) as [entry |] eqn:Ef; [cbn; eauto |].
    exfalso. eapply List.find_none in Ef; [| exact Hin].
    cbn in Ef. rewrite Hnorm, String.eqb_refl in Ef. discriminate.
Qed.

Lemma findOverride_verbatim overrides p text :
  findOverride (Some overrides) p = Some text ->
  exists key, In (key, text) overrides /\ (key = p \/ path.normalize key = p).
Proof.
  unfold findOverride.
  destruct (assoc_lookup p overrides) as [t |] eqn:El.
  - intros [= ->]. apply assoc_lookup_In in El. eauto.
  - destruct (List.find _ overrides) as [[key t] |] eqn:Ef; [| discriminate].
    cbn. intros [= ->]. apply List.find_some in Ef as [Hin Heq].
    cbn in Heq. apply String.eqb_eq in Heq. eauto.
Qed.

Lemma resolvePartial_readFile host readFile' modulePath overrides acc entry :
  (forall q encoding,
      findOverride overrides q = None ->
      readFile' q encoding = readFile host q encoding) ->
  resolvePartial (with_readFile host readFile') modulePath overrides acc entry
  = resolvePartial host modulePath overrides acc entry.
Proof.
  intros Hsame. unfold resolvePartial. cbn [store with_readFile].
  destruct (nullish _); [reflexivity |].
  destruct (isPartialFileReference _); [| reflexivity].
  destruct (falsy _); [reflexivity |].
  destruct (getProp (store host) (deref (store host) (snd entry)) "file");
    try reflexivity.
  unfold resolveRelativeToModule. cbn [cwd with_readFile readFile].
  destruct (findOverride overrides _) eqn:Eo; [reflexivity |].
  rewrite Hsame by exact Eo. reflexivity.
Qed.

Lemma resolvePartials_readFile host readFile' partials modulePath overrides :
  (forall q encoding,
      findOverride overrides q = None ->
      readFile' q encoding = readFile host q encoding) ->
  resolvePartials (with_readFile host readFile') partials modulePath overrides
  = resolvePartials host partials modulePath overrides.
Proof.
  intros Hsame. unfold resolvePartials.
  generalize (Ok {| contents := []; files := [] |}).
  induction (ObjectEntries (if nullish partials then VObj [] else partials))
    as [| entry entries IH]; intros acc; [reflexivity |].
  cbn [foldl]. rewrite <- IH. f_equal.
  destruct acc as [acc | e]; [| reflexivity]. cbn [mbind Result_bind].
  apply resolvePartial_readFile. exact Hsame.
Qed.

(** C5.  A file-backed partial whose resolved path has a source override,
    under the very path or under a key that normalizes to it, gets the
    override's text as its content, unchanged; the resolved path is its
    partialFiles entry and is in watchFiles.  Partial resolution never reads
    from disk a path that has an override: it gives the same result whatever
    the disk holds there. *)
Theorem partial_override_used host modulePath context options st r st'
    resolvedPartials :
  path.isAbsolute (cwd host) = true ->
  loadTemplateRecipe host modulePath context options st = (Ok r, st') ->
  resolvedPartialsOf host modulePath context options st = Ok resolvedPartials ->
  NoDup (map fst (partialEntries resolvedPartials)) ->
  (forall overrides p key text,
      In (key, text) overrides ->
      key = p \/ path.normalize key = p ->
      exists override,
        findOverride (Some overrides) p = Some override
        /\ exists key',
            In (key', override) overrides
            /\ (key' = p \/ path.normalize key' = p))
  /\ (forall readFile' partials,
        (forall q encoding,
            findOverride (options ≫= partialSourceOverrides) q = None ->
            readFile' q encoding = readFile host q encoding) ->
        resolvePartials (with_readFile host readFile') partials modulePath
          (options ≫= partialSourceOverrides)
        = resolvePartials host partials modulePath
            (options ≫= partialSourceOverrides))
  /\ (forall name v file override,
        In (name, v) (partialEntries resolvedPartials) ->
        is_file_backed (deref (store host) v) ->
        getProp (store host) (deref (store host) v) "file" = VStr file ->
        findOverride (options ≫= partialSourceOverrides)
          (partialPath host modulePath file) = Some override ->
        assoc_lookup name (Resolved.partials r) = Some override
        /\ assoc_lookup name (Resolved.partialFiles r)
           = Some (partialPath host modulePath file)
        /\ In (partialPath host modulePath file) (Resolved.watchFiles r)).
Proof.
  intros Hcwd Hload Hpartials Hnd. split; [| split].
  - intros overrides p key text Hin Hmatch.
    destruct (findOverride_found _ _ _ _ Hin Hmatch) as [override Ho].
    exists override. split; [exact Ho |].
    apply findOverride_verbatim. exact Ho.
  - intros readFile' partials Hsame. apply resolvePartials_readFile. exact Hsame.
  - apply loadTemplateRecipe_steps in Hload
      as (recipe & rp & rw & pr & entries & Hrecipe & Hrp & Hrw & Hpr
          & Hentries & Hr).
    rewrite Hrp in Hpartials. injection Hpartials as <-.
    intros name v file override Hin [Hnn Hfile] Hprop Hover.
    destruct Hr as (_ & _ & -> & -> & ->).
    destruct (resolvePartials_entries _ _ _ _ _ Hnd Hpr) as [Hall _].
    destruct (Hall name v Hin) as (o & Ho & Hc & Hf).
    apply entry_outcome_shapes in Ho
      as [[Hs _] | [[[_ Hr] _] | [_ (file' & content & Hprop' & -> & Hcontent)]]];
      [unfold is_skipped in Hs; congruence | congruence |].
    rewrite Hprop in Hprop'. injection Hprop' as <-.
    rewrite Hover in Hcontent. subst content.
    cbn in Hc, Hf. split; [exact Hc |]. split; [exact Hf |].
    apply normalizeWatchFiles_In. exists (partialPath host modulePath file).
    pose proof (partialPath_absolute host modulePath file Hcwd) as Habs.
    split; [| split].
    + rewrite !in_app_iff. right. left. apply in_map. eapply In_values, Hf.
    + apply absolute_trim_nonempty. exact Habs.
    + unfold absoluteWatchFile. rewrite Habs. reflexivity.
Qed.

Lemma partial_override_used_witness :
  exists r st',
    loadTemplateRecipe partials_host "/proj/mail.hbs.js" sample_context
      (Some dirty_header) initialLoaderState = (Ok r, st')
    /\ assoc_lookup "header" (Resolved.partials r)
       = Some "<header>unsaved</header>"
    /\ assoc_lookup "header" (Resolved.partialFiles r)
       = Some "/proj/partials/header.hbs"
    /\ In "/proj/partials/header.hbs" (Resolved.watchFiles r).
Proof.
  destruct (loadTemplateRecipe partials_host "/proj/mail.hbs.js"
              sample_context (Some dirty_header) initialLoaderState)
    as [[r | e] st'] eqn:E; [| vm_compute in E; discriminate].
  exists r, st'. split; [reflexivity |].
  assert (NoDup
            (map fst
               (partialEntries
                  (VObj [("header", VObj [("file", VStr "./partials/header.hbs")]);
                         ("footer", VStr "<footer/>")])))) as Hnd.
  { apply (bool_decide_unpack _). vm_compute. exact I. }
  destruct (partial_override_used partials_host "/proj/mail.hbs.js"
              sample_context (Some dirty_header) initialLoaderState r st' _
              eq_refl E eq_refl Hnd)
    as (_ & _ & Hall).
  apply (Hall "header" (VObj [("file", VStr "./partials/header.hbs")])
           "./partials/header.hbs" "<header>unsaved</header>");
    [cbn; auto | split; reflexivity | reflexivity | reflexivity].
Defined.

(** C6.  In a recipe returned by [loadTemplateRecipe], the keys of
    partialFiles are the names of the partials defined by a file reference,
    every one of them is a key of partials too, and a partial given inline
    is in partials only: an inline string is its own content and has no
    partialFiles entry. *)
Theorem partialFiles_keys host modulePath context options st r st'
    resolvedPartials :
  loadTemplateRecipe host modulePath context options st = (Ok r, st') ->
  resolvedPartialsOf host modulePath context options st = Ok resolvedPartials ->
  NoDup (map fst (partialEntries resolvedPartials)) ->
  (forall name,
      In name (map fst (Resolved.partialFiles r))
      <-> exists v,
            In (name, v) (partialEntries resolvedPartials)
            /\ is_file_backed (deref (store host) v))
  /\ (forall name,
        In name (map fst (Resolved.partialFiles r)) ->
        In name (map fst (Resolved.partials r)))
  /\ (forall name v,
        In (name, v) (partialEntries resolvedPartials) ->
        is_inline (deref (store host) v) ->
        In name (map fst (Resolved.partials r))
        /\ ~ In name (map fst (Resolved.partialFiles r)))
  /\ (forall name v text,
        In (name, v) (partialEntries resolvedPartials) ->
        deref (store host) v = VStr text ->
        assoc_lookup name (Resolved.partials r) = Some text
        /\ ~ In name (map fst (Resolved.partialFiles r))).
Proof.
  intros Hload Hpartials Hnd.
  apply loadTemplateRecipe_steps in Hload
    as (recipe & rp & rw & pr & entries & Hrecipe & Hrp & Hrw & Hpr
        & Hentries & _ & _ & -> & -> & _).
  rewrite Hrp in Hpartials. injection Hpartials as <-.
  destruct (resolvePartials_entries _ _ _ _ _ Hnd Hpr) as [Hall Hnone].
  assert (forall name v,
             In (name, v) (partialEntries rp) ->
             is_inline (deref (store host) v) ->
             assoc_lookup name (contents pr)
             = Some (ToString host (deref (store host) v))
             /\ ~ In name (map fst (files pr))) as Hinline.
  { intros name v Hin [Hn Hf].
    destruct (Hall name v Hin) as (o & Ho & Hc & Hfl).
    rewrite <- assoc_lookup_None.
    apply entry_outcome_shapes in Ho
      as [[Hs _] | [[_ ->] | [[_ Hr] _]]];
      [unfold is_skipped in Hs; congruence | auto | congruence]. }
  split; [| split; [| split]].
  - intros name. split.
    + intros Hkey.
      destruct (in_dec string_dec name (map fst (partialEntries rp)))
        as [Hin | Hnotin].
      * apply in_map_iff in Hin as ([name' v] & <- & Hin). cbn [fst] in *.
        exists v. split; [exact Hin |].
        destruct (Hall name' v Hin) as (o & Ho & Hc & Hf).
        apply keys_is_Some in Hkey as [p Hp]. rewrite Hp in Hf.
        apply entry_outcome_shapes in Ho
          as [[_ ->] | [[_ ->] | [Hfb _]]]; [discriminate | discriminate | exact Hfb].
      * destruct (Hnone name Hnotin) as [_ Hf].
        apply assoc_lookup_None in Hf. contradiction.
    + intros (v & Hin & Hfb).
      destruct (Hall name v Hin) as (o & Ho & Hc & Hf).
      apply keys_is_Some.
      apply entry_outcome_shapes in Ho
        as [[Hs _] | [[[_ Hr] _] | [_ (file & content & _ & -> & _)]]].
      * destruct Hfb as [Hn _]. unfold is_skipped in Hs. congruence.
      * destruct Hfb as [_ Hr']. congruence.
      * rewrite Hf. cbn. eauto.
  - intros name Hkey.
    destruct (in_dec string_dec name (map fst (partialEntries rp)))
      as [Hin | Hnotin].
    + apply in_map_iff in Hin as ([name' v] & <- & Hin). cbn [fst] in *.
      destruct (Hall name' v Hin) as (o & Ho & Hc & Hf).
      apply keys_is_Some in Hkey as [p Hp]. rewrite Hp in Hf.
      apply keys_is_Some. rewrite Hc.
      destruct o as [[content file] |]; [cbn; eauto | discriminate].
    + destruct (Hnone name Hnotin) as [_ Hf].
      apply assoc_lookup_None in Hf. contradiction.
  - intros name v Hin Hi. destruct (Hinline name v Hin Hi) as [Hc Hf].
    split; [| exact Hf]. apply keys_is_Some. rewrite Hc. eauto.
  - intros name v text Hin Hv.
    assert (is_inline (deref (store host) v)) as Hi.
    { rewrite Hv. split; reflexivity. }
    destruct (Hinline name v Hin Hi) as [Hc Hf].
    rewrite Hv in Hc. split; [exact Hc | exact Hf].
Qed.

Lemma partialFiles_keys_witness :
  exists r st',
    loadTemplateRecipe partials_host "/proj/mail.hbs.js" sample_context None
      initialLoaderState = (Ok r, st')
    /\ In "header" (map fst (Resolved.partialFiles r))
    /\ In "header" (map fst (Resolved.partials r))
    /\ assoc_lookup "footer" (Resolved.partials r) = Some "<footer/>"
    /\ ~ In "footer" (map fst (Resolved.partialFiles r)).
Proof.
  destruct (loadTemplateRecipe partials_host "/proj/mail.hbs.js"
              sample_context None initialLoaderState)
    as [[r | e] st'] eqn:E; [| vm_compute in E; discriminate].
  exists r, st'. split; [reflexivity |].
  assert (NoDup
            (map fst
               (partialEntries
                  (VObj [("header", VObj [("file", VStr "./partials/header.hbs")]);
                         ("footer", VStr "<footer/>")])))) as Hnd.
  { apply (bool_decide_unpack _). vm_compute. exact I. }
  destruct (partialFiles_keys partials_host "/proj/mail.hbs.js"
              sample_context None initialLoaderState r st' _ E eq_refl Hnd)
    as (Hkeys & Hboth & _ & Hstring).
  assert (In "header" (map fst (Resolved.partialFiles r))) as Hheader.
  { apply Hkeys. exists (VObj [("file", VStr "./partials/header.hbs")]).
    split; [cbn; auto | split; reflexivity]. }
  split; [exact Hheader |]. split; [apply Hboth; exact Hheader |].
  apply (Hstring "footer" (VStr "<footer/>")); [cbn; auto | reflexivity].
Defined.

(** ** A companion module that is not there *)


Lemma resolveCompanionModule_none host candidates dirty :
  (forall candidate,
      In candidate candidates ->
      assoc_lookup (path.normalize candidate) dirty = None
      /\ fileExists host (path.normalize candidate) = false) ->
  resolveCompanionModule host candidates dirty = None.
Proof.
  unfold resolveCompanionModule.
  induction candidates as [| candidate candidates IH]; intros Hnone;
    [reflexivity |].
  cbn [fold_right]. destruct (Hnone candidate) as [Hdirty Hdisk]; [left; reflexivity |].
  rewrite Hdirty, Hdisk. apply IH. intros c Hc. apply Hnone. right. exact Hc.
Qed.




(** ** Normal forms of paths *)

Lemma split_nonempty c s : Str.split c s <> [].
Proof.
  destruct s as [| d s]; cbn; [discriminate |].
  destruct (Ascii.eqb d c); [discriminate |].
  destruct (Str.split c s); discriminate.
Qed.

Lemma split_no_sep s : Forall no_sep (Str.split path.sep s).
Proof.
  induction s as [| d s IH]; cbn.
  - repeat constructor.
  - destruct (Ascii.eqb d path.sep) eqn:E.
    + constructor; [reflexivity | exact IH].
    + destruct (Str.split path.sep s) as [| piece more].
      * repeat constructor. unfold no_sep. cbn. rewrite E. reflexivity.
      * apply Forall_cons in IH as [Hp Hm]. constructor; [| exact Hm].
        unfold no_sep in *. cbn. rewrite E. exact Hp.
Qed.

Lemma split_single s : no_sep s -> Str.split path.sep s = [s].
Proof.
  unfold no_sep. induction s as [| d s IH]; cbn; [reflexivity |].
  destruct (Ascii.eqb d path.sep); cbn; [discriminate |].
  intros H. rewrite IH by exact H. reflexivity.
Qed.

Lemma append_nil_l s : EmptyString +:+ s = s.
Proof. reflexivity. Qed.

Lemma append_cons c s t : String c s +:+ t = String c (s +:+ t).
Proof. reflexivity. Qed.

Lemma split_app c s t :
  Str.split c (s +:+ String c t) = Str.split c s ++ Str.split c t.
Proof.
  induction s as [| d s IH].
  - rewrite append_nil_l. cbn [Str.split app]. rewrite Ascii.eqb_refl.
    reflexivity.
  - rewrite append_cons. cbn [Str.split]. rewrite IH.
    destruct (Ascii.eqb d c); [reflexivity |].
    destruct (Str.split c s) as [| piece more] eqn:E;
      [exfalso; eapply split_nonempty; exact E | reflexivity].
Qed.

Lemma split_app_sep s t :
  Str.split path.sep (s +:+ String path.sep t)
  = Str.split path.sep s ++ Str.split path.sep t.
Proof. apply split_app. Qed.

Lemma split_join segs :
  Forall no_sep segs -> segs <> [] ->
  Str.split path.sep (Str.join "/" segs) = segs.
Proof.
  induction segs as [| seg segs IH]; intros Hall Hne; [contradiction |].
  apply Forall_cons in Hall as [Hseg Hall].
  destruct segs as [| seg' segs].
  - cbn. apply split_single. exact Hseg.
  - change (Str.join "/" (seg :: seg' :: segs))
      with (seg +:+ String path.sep (Str.join "/" (seg' :: segs))).
    rewrite split_app_sep, split_single by exact Hseg.
    rewrite IH by (assumption || discriminate). reflexivity.
Qed.

Lemma proper_step allow res seg :
  proper seg -> path.normalize_step allow res seg = seg :: res.
Proof.
  intros (Hne & Hdot & Hup). unfold path.normalize_step, path.is_dotdot.
  destruct seg as [| c seg] ; [contradiction |]. cbn [Str.is_empty orb].
  destruct (String.eqb (String c seg) ".") eqn:E1;
    [apply String.eqb_eq in E1; contradiction |].
  destruct (String.eqb (String c seg) "..") eqn:E2;
    [apply String.eqb_eq in E2; contradiction |].
  reflexivity.
Qed.

Lemma proper_not_dotdot seg : proper seg -> path.is_dotdot seg = false.
Proof.
  intros (_ & _ & Hup). unfold path.is_dotdot.
  destruct (String.eqb seg "..") eqn:E; [| reflexivity].
  apply String.eqb_eq in E. contradiction.
Qed.

Lemma step_shape allow res seg :
  stack_shape allow res -> stack_shape allow (path.normalize_step allow res seg).
Proof.
  intros (normals & ups & -> & Hn & Hu & Hallow).
  unfold path.normalize_step.
  destruct (Str.is_empty seg || String.eqb seg ".") eqn:Eskip;
    [exists normals, ups; auto |].
  destruct (path.is_dotdot seg) eqn:Eup.
  - unfold path.is_dotdot in Eup. apply String.eqb_eq in Eup. subst seg.
    destruct normals as [| top normals]; cbn [app].
    + destruct ups as [| up ups].
      * destruct allow.
        -- exists [], [".."]. repeat split; auto. discriminate.
        -- exists [], []. auto.
      * apply Forall_cons in Hu as [-> Hu]. cbn.
        destruct allow; [| specialize (Hallow eq_refl); discriminate].
        exists [], (".." :: ".." :: ups). repeat split; auto.
        discriminate.
    + apply Forall_cons in Hn as [Htop Hn].
      rewrite (proper_not_dotdot top Htop).
      exists normals, ups. auto.
  - exists (seg :: normals), ups. repeat split; auto.
    constructor; [| exact Hn].
    apply orb_false_iff in Eskip as [Hne Hdot].
    repeat split.
    + intros ->. discriminate.
    + intros ->. discriminate.
    + intros ->. discriminate.
Qed.

Lemma fold_shape allow segs :
  forall res,
    stack_shape allow res ->
    stack_shape allow (fold_left (path.normalize_step allow) segs res).
Proof.
  induction segs as [| seg segs IH]; intros res H; [exact H |].
  cbn [fold_left]. apply IH, step_shape, H.
Qed.

Lemma step_no_sep allow res seg :
  Forall no_sep res -> no_sep seg ->
  Forall no_sep (path.normalize_step allow res seg).
Proof.
  intros Hres Hseg. unfold path.normalize_step.
  destruct (Str.is_empty seg || String.eqb seg "."); [exact Hres |].
  destruct (path.is_dotdot seg).
  - destruct res as [| top rest]; [destruct allow; repeat constructor; auto |].
    apply Forall_cons in Hres as [Htop Hrest].
    destruct (path.is_dotdot top); [destruct allow |]; repeat constructor; auto.
  - constructor; assumption.
Qed.

Lemma fold_no_sep allow segs :
  forall res,
    Forall no_sep res -> Forall no_sep segs ->
    Forall no_sep (fold_left (path.normalize_step allow) segs res).
Proof.
  induction segs as [| seg segs IH]; intros res Hres Hsegs; [exact Hres |].
  apply Forall_cons in Hsegs as [Hseg Hsegs].
  cbn [fold_left]. apply IH; [apply step_no_sep; assumption | exact Hsegs].
Qed.

Lemma normalize_segments_ordered allow segs :
  ordered allow (path.normalize_segments allow segs).
Proof.
  unfold path.normalize_segments.
  destruct (fold_shape allow segs []) as (normals & ups & -> & Hn & Hu & Ha).
  { exists [], []. auto. }
  exists (rev ups), (rev normals). rewrite rev_app_distr.
  repeat split; [apply Forall_rev; exact Hu | apply Forall_rev; exact Hn |].
  intros H. rewrite (Ha H). reflexivity.
Qed.

Lemma normalize_segments_no_sep allow segs :
  Forall no_sep segs -> Forall no_sep (path.normalize_segments allow segs).
Proof.
  intros H. unfold path.normalize_segments. apply Forall_rev.
  apply fold_no_sep; [constructor | exact H].
Qed.

Lemma fold_ups allow ups :
  Forall (fun seg => seg = "..") ups ->
  (allow = false -> ups = []) ->
  forall res,
    Forall (fun seg => seg = "..") res ->
    fold_left (path.normalize_step allow) ups res = rev ups ++ res.
Proof.
  intros Hu Ha. induction ups as [| up ups IH]; intros res Hres;
    [reflexivity |].
  destruct allow; [| specialize (Ha eq_refl); discriminate].
  apply Forall_cons in Hu as [-> Hu]. cbn [fold_left rev].
  assert (path.normalize_step true res ".." = ".." :: res) as ->.
  { destruct res as [| top rest]; [reflexivity |].
    apply Forall_cons in Hres as [-> _]. reflexivity. }
  rewrite IH; [| exact Hu | discriminate | constructor; auto].
  rewrite <- app_assoc. reflexivity.
Qed.

Lemma fold_normals allow normals :
  Forall proper normals ->
  forall res,
    fold_left (path.normalize_step allow) normals res = rev normals ++ res.
Proof.
  induction normals as [| seg normals IH]; intros Hn res; [reflexivity |].
  apply Forall_cons in Hn as [Hseg Hn]. cbn [fold_left rev].
  rewrite proper_step by exact Hseg. rewrite IH by exact Hn.
  rewrite <- app_assoc. reflexivity.
Qed.

Lemma normalize_segments_fixed allow segs :
  ordered allow segs -> path.normalize_segments allow segs = segs.
Proof.
  intros (ups & normals & -> & Hu & Hn & Ha).
  unfold path.normalize_segments. rewrite fold_left_app.
  rewrite (fold_ups allow ups Hu Ha []) by constructor.
  rewrite fold_normals by exact Hn.
  rewrite app_nil_r, rev_app_distr, !rev_involutive. reflexivity.
Qed.

Lemma ordered_nonempty_segs allow segs :
  ordered allow segs -> Forall (fun seg => seg <> EmptyString) segs.
Proof.
  intros (ups & normals & -> & Hu & Hn & _). apply Forall_app. split.
  - eapply Forall_impl; [exact Hu |]. cbn. intros seg ->. discriminate.
  - eapply Forall_impl; [exact Hn |]. cbn. intros seg (H & _). exact H.
Qed.

Lemma first_is_app c s t :
  s <> EmptyString -> Str.first_is c (s +:+ t) = Str.first_is c s.
Proof. destruct s; [contradiction | reflexivity]. Qed.

Lemma first_is_no_sep s : no_sep s -> Str.first_is path.sep s = false.
Proof.
  unfold no_sep. destruct s as [| d s]; [reflexivity |].
  cbn [Str.contains_char Str.first_is]. intros H.
  apply orb_false_iff in H as [H _]. exact H.
Qed.

Lemma last_is_cons c d s :
  s <> EmptyString -> Str.last_is c (String d s) = Str.last_is c s.
Proof. destruct s; [contradiction | reflexivity]. Qed.

Lemma last_is_app c s t :
  t <> EmptyString -> Str.last_is c (s +:+ t) = Str.last_is c t.
Proof.
  intros Ht. induction s as [| d s IH]; [reflexivity |].
  rewrite append_cons, last_is_cons; [exact IH |].
  destruct s; [exact Ht | discriminate].
Qed.

Lemma last_is_no_sep s : no_sep s -> Str.last_is path.sep s = false.
Proof.
  unfold no_sep. induction s as [| d s IH]; [reflexivity |].
  cbn [Str.contains_char]. intros H. apply orb_false_iff in H as [Hd Hs].
  destruct s as [| e s]; [exact Hd |].
  rewrite last_is_cons by discriminate. apply IH, Hs.
Qed.

Lemma last_is_snoc c s : Str.last_is c (s +:+ String c EmptyString) = true.
Proof.
  rewrite last_is_app by discriminate. cbn. apply Ascii.eqb_refl.
Qed.

Lemma join_cons seg seg' segs :
  Str.join "/" (seg :: seg' :: segs)
  = seg +:+ String path.sep (Str.join "/" (seg' :: segs)).
Proof. reflexivity. Qed.

Lemma join_nonempty segs :
  segs <> [] -> Forall (fun seg => seg <> EmptyString) segs ->
  Str.join "/" segs <> EmptyString.
Proof.
  destruct segs as [| seg segs]; [contradiction |]. intros _ H.
  apply Forall_cons in H as [Hseg _].
  destruct segs as [| seg' segs]; [exact Hseg |].
  rewrite join_cons. destruct seg; [contradiction | discriminate].
Qed.

Lemma join_first segs :
  Forall no_sep segs -> Forall (fun seg => seg <> EmptyString) segs ->
  Str.first_is path.sep (Str.join "/" segs) = false.
Proof.
  destruct segs as [| seg segs]; [reflexivity |]. intros H Hne.
  apply Forall_cons in H as [Hseg _]. apply Forall_cons in Hne as [Hne _].
  destruct segs as [| seg' segs]; [apply first_is_no_sep; exact Hseg |].
  rewrite join_cons, first_is_app by exact Hne.
  apply first_is_no_sep. exact Hseg.
Qed.

Lemma join_last segs :
  Forall no_sep segs -> Forall (fun seg => seg <> EmptyString) segs ->
  Str.last_is path.sep (Str.join "/" segs) = false.
Proof.
  induction segs as [| seg segs IH]; [reflexivity |]. intros H Hne.
  apply Forall_cons in H as [Hseg H]. apply Forall_cons in Hne as [Hseg' Hne].
  destruct segs as [| seg' segs]; [apply last_is_no_sep; exact Hseg |].
  rewrite join_cons, last_is_app by discriminate.
  rewrite last_is_cons.
  - apply IH; assumption.
  - apply join_nonempty; [discriminate | exact Hne].
Qed.

Lemma normalizeString_join allow segs :
  ordered allow segs -> Forall no_sep segs ->
  path.normalizeString (Str.join "/" segs) allow = Str.join "/" segs.
Proof.
  intros Hord Hsep. unfold path.normalizeString.
  destruct segs as [| seg segs]; [reflexivity |].
  rewrite split_join by (assumption || discriminate).
  rewrite normalize_segments_fixed by exact Hord. reflexivity.
Qed.

Lemma normalize_segments_skip_first allow segs :
  path.normalize_segments allow (EmptyString :: segs)
  = path.normalize_segments allow segs.
Proof. reflexivity. Qed.

Lemma normalize_segments_skip_last allow segs :
  path.normalize_segments allow (segs ++ [EmptyString])
  = path.normalize_segments allow segs.
Proof.
  unfold path.normalize_segments. rewrite fold_left_app. reflexivity.
Qed.

Lemma normalizeString_slash allow s :
  path.normalizeString (String path.sep s) allow = path.normalizeString s allow.
Proof.
  unfold path.normalizeString. cbn [Str.split]. rewrite Ascii.eqb_refl.
  rewrite normalize_segments_skip_first. reflexivity.
Qed.

Lemma normalizeString_trailing allow s :
  path.normalizeString (s +:+ String path.sep EmptyString) allow
  = path.normalizeString s allow.
Proof.
  unfold path.normalizeString. rewrite split_app_sep.
  cbn [Str.split]. rewrite normalize_segments_skip_last. reflexivity.
Qed.

(** What [normalizeString] returns is a fixed point of it, does not start
    with a separator and does not end with one. *)
Lemma normalizeString_normal p allow :
  let body := path.normalizeString p allow in
  path.normalizeString body allow = body
  /\ Str.first_is path.sep body = false
  /\ Str.last_is path.sep body = false.
Proof.
  cbn zeta. unfold path.normalizeString at 2 3 4.
  pose proof (normalize_segments_ordered allow (Str.split path.sep p)) as Hord.
  pose proof (normalize_segments_no_sep allow _ (split_no_sep p)) as Hsep.
  pose proof (ordered_nonempty_segs _ _ Hord) as Hne.
  split; [apply normalizeString_join; assumption |].
  split; [apply join_first | apply join_last]; assumption.
Qed.

Lemma is_empty_spec s : Str.is_empty s = true <-> s = EmptyString.
Proof. destruct s; cbn; split; congruence. Qed.



Lemma normalize_idempotent p :
  path.normalize (path.normalize p) = path.normalize p.
Proof.
  destruct p as [| c0 p0]; [reflexivity |].
  remember (path.normalize (String c0 p0)) as r eqn:Hr.
  unfold path.normalize in Hr. cbn [Str.is_empty] in Hr.
  set (p := String c0 p0) in *.
  set (absolute := path.isAbsolute p) in *.
  set (trailing := Str.last_is path.sep p) in *.
  destruct (normalizeString_normal p (negb absolute)) as (Hfix & Hfirst & Hlast).
  set (body := path.normalizeString p (negb absolute)) in *.
  destruct (Str.is_empty body) eqn:Eb.
  { subst r. destruct absolute; [reflexivity |]. destruct trailing; reflexivity. }
  assert (body <> EmptyString) as Hne.
  { intros H. apply is_empty_spec in H. congruence. }
  set (body' := if trailing then body +:+ "/" else body) in *.
  assert (body' <> EmptyString) as Hne'.
  { unfold body'. destruct trailing; [| exact Hne].
    destruct body; [contradiction | discriminate]. }
  assert (Str.last_is path.sep body' = trailing) as Hlast'.
  { unfold body'. destruct trailing; [apply last_is_snoc | exact Hlast]. }
  assert (forall allow,
             path.normalizeString body' allow = path.normalizeString body allow)
    as Hbody'.
  { intros allow. unfold body'. destruct trailing; [| reflexivity].
    apply normalizeString_trailing. }
  assert (Str.first_is path.sep body' = false) as Hfirst'.
  { unfold body'. destruct trailing; [| exact Hfirst].
    rewrite first_is_app by exact Hne. exact Hfirst. }
  destruct absolute; cbn [negb] in *; subst r.
  - change ("/" +:+ body') with (String path.sep body').
    unfold path.normalize. cbn [Str.is_empty path.isAbsolute Str.first_is].
    rewrite Ascii.eqb_refl. cbn [negb].
    rewrite normalizeString_slash, Hbody', Hfix, Eb.
    rewrite last_is_cons by exact Hne'. rewrite Hlast'. reflexivity.
  - unfold path.normalize.
    destruct (Str.is_empty body') eqn:Eb';
      [apply is_empty_spec in Eb'; contradiction |].
    unfold path.isAbsolute. rewrite Hfirst'. cbn [negb].
    rewrite Hbody', Hfix, Eb, Hlast'. reflexivity.
Qed.

Example normalize_examples :
  map path.normalize ["/a/../b"; "/a//b/./c/"; "a/../../b"; "./"; "/.."]
  = ["/b"; "/a/b/c/"; "../b"; "./"; "/"].
Proof. reflexivity. Qed.

(** ** Recorded dependencies *)

Lemma recordModuleDependency_top filePath st top rest :
  moduleLoadStack st = top :: rest ->
  moduleDependencyMap (recordModuleDependency filePath st)
  = moduleDependencyMap st
  /\ moduleLoadStack (recordModuleDependency filePath st) = moduleLoadStack st
  /\ contexts (recordModuleDependency filePath st)
     = record_in (frame_context top) (contexts st) filePath.
Proof.
  intros Hstack. unfold recordModuleDependency. rewrite Hstack. auto.
Qed.

Lemma run_events_top events :
  Forall records_in_top events ->
  forall st top rest,
    moduleLoadStack st = top :: rest ->
    moduleDependencyMap (run_events events st) = moduleDependencyMap st
    /\ moduleLoadStack (run_events events st) = moduleLoadStack st
    /\ contexts (run_events events st)
       = fold_left (record_in (frame_context top))
           (flat_map event_paths events) (contexts st).
Proof.
  unfold run_events.
  induction 1 as [| e events He _ IH]; intros st top rest Hstack; [auto |].
  cbn [fold_left flat_map]. rewrite fold_left_app.
  destruct (He st top rest Hstack) as (Hmap & Hstk & Hctx).
  destruct (IH (run_event e st) top rest) as (Hmap' & Hstk' & Hctx');
    [rewrite Hstk; exact Hstack |].
  rewrite Hmap', Hstk', Hctx', Hmap, Hstk, Hctx. auto.
Qed.

Lemma run_event_top e : records_in_top e.
Proof.
  induction e as [filePath | filename inner IH] using LoadEvent_nested_ind;
    intros st top rest Hstack.
  - cbn [run_event event_paths fold_left].
    apply (recordModuleDependency_top _ _ _ _ Hstack).
  - cbn [run_event event_paths]. unfold withModuleLoadFrame.
    rewrite Hstack. cbn [length Nat.eqb].
    set (frame := {| frame_modulePath := path.normalize filename;
                     frame_context := frame_context top;
                     isRoot := false |}).
    set (pushed := {| moduleDependencyMap := moduleDependencyMap st;
                      moduleLoadStack := frame :: top :: rest;
                      contexts := contexts st |}).
    destruct (run_events_top inner IH pushed frame (top :: rest) eq_refl)
      as (Hmap & Hstk & Hctx).
    fold (run_events inner pushed).
    destruct (recordModuleDependency_top filename (run_events inner pushed)
                frame (top :: rest)) as (Hmap' & Hstk' & Hctx');
      [rewrite Hstk; reflexivity |].
    cbn [snd moduleDependencyMap moduleLoadStack contexts is_ok].
    rewrite Hmap', Hstk', Hctx', Hmap, Hstk, Hctx, fold_left_app.
    cbn [moduleDependencyMap moduleLoadStack contexts tail fold_left
         frame_context frame pushed].
    auto.
Qed.

Lemma record_in_lookup c paths :
  forall contexts,
    fold_left (record_in c) paths contexts !! c
    = (fun context =>
         {| root := root context;
            dependencies := record_paths paths (dependencies context);
            overrides := overrides context |})
        <$> contexts !! c.
Proof.
  induction paths as [| p paths IH]; intros contexts; cbn [fold_left].
  - destruct (contexts !! c) as [[r d o] |]; reflexivity.
  - rewrite IH. unfold record_in. rewrite list_lookup_alter_eq.
    destruct (contexts !! c) as [[r d o] |]; reflexivity.
Qed.

Lemma loadModuleExports_run host modulePath moduleSourceOverride
    workspaceFolder moduleSourceOverrides st :
  loadModuleExports host modulePath moduleSourceOverride workspaceFolder
    moduleSourceOverrides st
  = match
      moduleRunOf host modulePath moduleSourceOverride workspaceFolder
        moduleSourceOverrides
    with
    | Ok run =>
        withModuleLoadFrame modulePath true moduleSourceOverrides
          (run_module run) (invalidateModuleTree modulePath st)
    | Err e => (Err e, invalidateModuleTree modulePath st)
    end.
Proof.
  unfold loadModuleExports, moduleRunOf, loadModuleFromSource.
  destruct (String.eqb _ ".ts").
  - destruct (match moduleSourceOverride with
              | Some source => Ok source
              | None => readFile host modulePath (VStr "utf8")
              end) as [source | e]; cbn [mbind Result_bind]; [| reflexivity].
    destruct (transpileTypeScriptModule host source modulePath workspaceFolder);
      reflexivity.
  - destruct moduleSourceOverride; reflexivity.
Qed.

(** After a successful load, the dependencies kept for the module are the
    files recorded while it ran, and nothing else. *)
Lemma loadModuleExports_dependencies host modulePath moduleSourceOverride
    workspaceFolder moduleSourceOverrides st raw st' run :
  loadModuleExports host modulePath moduleSourceOverride workspaceFolder
    moduleSourceOverrides st = (Ok raw, st') ->
  moduleRunOf host modulePath moduleSourceOverride workspaceFolder
    moduleSourceOverrides = Ok run ->
  exported run = Ok raw
  /\ getModuleDependenciesFor modulePath st'
     = recordedDependencies (events run).
Proof.
  intros Hload Hrun. rewrite loadModuleExports_run, Hrun in Hload.
  unfold withModuleLoadFrame, run_module in Hload.
  set (st1 := invalidateModuleTree modulePath st) in *.
  set (n := length (contexts st1)) in *.
  set (frame := {| frame_modulePath := path.normalize modulePath;
                   frame_context := n; isRoot := true |}) in *.
  set (fresh := {| root := path.normalize modulePath; dependencies := [];
                   overrides := moduleSourceOverrides |}) in *.
  set (pushed := {| moduleDependencyMap := moduleDependencyMap st1;
                    moduleLoadStack := frame :: moduleLoadStack st1;
                    contexts := contexts st1 ++ [fresh] |}) in *.
  destruct (run_events_top (events run)) with (st := pushed) (top := frame)
    (rest := moduleLoadStack st1) as (Hmap & Hstk & Hctx);
    [apply Forall_forall; intros e _; apply run_event_top | reflexivity |].
  cbn beta iota zeta in Hload. injection Hload as Hraw <-.
  split; [exact Hraw |].
  unfold getModuleDependenciesFor.
  cbn [moduleDependencyMap]. rewrite Hraw. cbn [is_ok].
  rewrite lookup_insert_eq. unfold context_dependencies. cbn [contexts].
  rewrite Hctx. cbn [frame_context frame contexts pushed].
  rewrite record_in_lookup.
  rewrite (list_lookup_middle (contexts st1) [] fresh n eq_refl).
  reflexivity.
Qed.

Lemma set_add_In x d deps : In d (set_add x deps) <-> In d deps \/ d = x.
Proof.
  unfold set_add. destruct (existsb (String.eqb x) deps) eqn:E.
  - split; [auto |]. intros [H | ->]; [exact H |].
    apply existsb_exists in E as (y & Hy & Heq).
    apply String.eqb_eq in Heq. subst y. exact Hy.
  - rewrite in_app_iff. cbn. intuition congruence.
Qed.



Lemma assoc_set_values {A} (P : A -> Prop) key v props :
  P v -> Forall P (map snd props) -> Forall P (map snd (assoc_set key v props)).
Proof.
  intros Hv. induction props as [| [k w] props IH]; cbn; intros H.
  - repeat constructor. exact Hv.
  - apply Forall_cons in H as [Hw H].
    destruct (String.eqb k key); cbn; constructor; auto.
Qed.

Lemma resolvePartials_files_normal host partials modulePath overrides pr :
  resolvePartials host partials modulePath overrides = Ok pr ->
  Forall (fun p => exists file, p = partialPath host modulePath file)
    (map snd (files pr)).
Proof.
  rewrite resolvePartials_fold.
  assert (Forall (fun p => exists file, p = partialPath host modulePath file)
            (map snd (files {| contents := []; files := [] |}))) as Hinit
    by constructor.
  revert Hinit. generalize {| contents := []; files := [] |}. revert pr.
  induction (partialEntries partials) as [| [name v] entries IH];
    intros pr acc Hacc Hfold.
  - cbn in Hfold. injection Hfold as <-. exact Hacc.
  - cbn [foldl] in Hfold. unfold partials_step at 2 in Hfold.
    cbn [mbind Result_bind] in Hfold.
    rewrite resolvePartial_outcome in Hfold.
    destruct (entry_outcome host modulePath overrides name
                (deref (store host) v)) as [o | e] eqn:Eo;
      cbn [fmap Result_fmap] in Hfold;
      [| rewrite partials_fold_Err in Hfold; discriminate].
    eapply IH; [| exact Hfold].
    apply entry_outcome_shapes in Eo
      as [[_ ->] | [[_ ->] | [_ (file & content & _ & -> & _)]]];
      cbn [apply_outcome files]; try exact Hacc.
    apply assoc_set_values; [eauto | exact Hacc].
Qed.





(** ** The watch list of a load *)




(** ** The compiler context and [rootDir] *)

(** On empty context caches the context is built as C7 says: the parsed
    options with the module format forced, without [rootDir] exactly when
    the file is outside of it. *)
Lemma getCompilerContext_fresh host filePath workspaceFolder st configPath
    st1 parsed rootDir :
  TsCompiler.findTsConfigPath host filePath workspaceFolder st
  = (Some configPath, st1) ->
  TsCompiler.compilerContextCache st1
    !! ("config::" +:+ path.normalize configPath) = None ->
  TsCompiler.compilerContextCache st1
    !! (("config::" +:+ path.normalize configPath) +:+ "::noRootDir") = None ->
  TsCompiler.parseConfigFile host (path.normalize configPath)
    (path.dirname (path.normalize configPath)) = Ok parsed ->
  TsCompiler.truthy (parsed !! "rootDir") = Some rootDir ->
  let baseDir := path.dirname (path.normalize configPath) in
  let root := path.resolve (TsCompiler.cwd host) [baseDir; rootDir] in
  fst (TsCompiler.getCompilerContext host filePath workspaceFolder st)
  = Ok {| TsCompiler.options :=
            if TsCompiler.isWithinDirectory host filePath root
            then <["module" := "CommonJS"]> parsed
            else delete "rootDir" (<["module" := "CommonJS"]> parsed);
          TsCompiler.baseDir := baseDir;
          TsCompiler.originalRootDir := Some root |}.
Proof.
  intros Hfind Hbase Hrootless Hparse Hroot. cbn zeta.
  unfold TsCompiler.getCompilerContext. rewrite Hfind.
  rewrite Hbase, Hrootless, Hparse.
  rewrite lookup_insert_ne by discriminate. rewrite Hroot.
  destruct (TsCompiler.isWithinDirectory host filePath _); reflexivity.
Qed.

(** C7 fails on the code once a file outside of [rootDir] was compiled
    first: the context without [rootDir] is then served to a file inside of
    it, which alone would have kept the option. *)
Theorem getCompilerContext_stale_rootless :
  TsCompiler.isWithinDirectory project_host "/proj/src/util/helper.ts"
    "/proj/src" = true
  /\ TsCompiler.isWithinDirectory project_host "/proj/templates/mail.hbs.ts"
       "/proj/src" = false
  /\ TsCompiler.options
       <$> fst (TsCompiler.getCompilerContext project_host
                  "/proj/src/util/helper.ts" None TsCompiler.initialState)
     = Ok (<["module" := "CommonJS"]> project_config)
  /\ options_after project_host "/proj/templates/mail.hbs.ts"
       "/proj/src/util/helper.ts"
     = Ok (delete "rootDir" (<["module" := "CommonJS"]> project_config))
  /\ (delete "rootDir" (<["module" := "CommonJS"]> project_config))
       !! "rootDir" = None.
Proof. repeat split; vm_compute; reflexivity. Qed.

(** A second way out of [rootDir]: a directory inside of it whose name
    starts with two dots is taken for a way up. *)
Lemma isWithinDirectory_dotted_name :
  path.relative "/work" "/proj/src" "/proj/src/..cache/helper.ts"
  = "..cache/helper.ts"
  /\ TsCompiler.isWithinDirectory project_host "/proj/src/..cache/helper.ts"
       "/proj/src" = false.
Proof. split; reflexivity. Qed.

(** ** The render pipeline *)

Example render_welcome :
  TemplateRenderer.renderTemplate mini_engine ∅ "<h1>{{title}}</h1>"
    welcome_recipe sample_context
  = Ok (VStr "<h1>Welcome</h1>").
Proof. reflexivity. Qed.

Lemma mini_expand_literal data prefix template :
  Str.contains_char "{" prefix = false ->
  mini_expand data InText (prefix +:+ template)
  = prefix +:+ mini_expand data InText template.
Proof.
  induction prefix as [| c prefix IH]; [reflexivity |].
  cbn [Str.contains_char]. intros H. apply orb_false_iff in H as [Hc Hrest].
  rewrite !append_cons. cbn [mini_expand]. rewrite Hc, IH by exact Hrest.
  reflexivity.
Qed.

Lemma mini_engine_literal prefix :
  Str.contains_char "{" prefix = false -> literal_prefix mini_engine prefix.
Proof.
  intros H engine template data. unfold mini_engine. cbn.
  rewrite mini_expand_literal by exact H. reflexivity.
Qed.

Lemma strip_prefix_append prefix s :
  strip_prefix prefix (prefix +:+ s) = Some s.
Proof.
  induction prefix as [| c prefix IH]; [reflexivity |].
  rewrite append_cons. cbn [strip_prefix]. rewrite Ascii.eqb_refl. exact IH.
Qed.



(** ** Escaping HTML *)

Lemma append_assoc s t u : (s +:+ t) +:+ u = s +:+ (t +:+ u).
Proof.
  induction s as [| c s IH]; [reflexivity |].
  rewrite !append_cons, IH. reflexivity.
Qed.

Lemma append_nil_r s : s +:+ EmptyString = s.
Proof.
  induction s as [| c s IH]; [reflexivity |].
  rewrite append_cons, IH. reflexivity.
Qed.

Lemma replaceAll_app c replacement s t :
  replaceAll c replacement (s +:+ t)
  = replaceAll c replacement s +:+ replaceAll c replacement t.
Proof.
  induction s as [| d s IH].
  - rewrite append_nil_l. cbn [replaceAll]. rewrite append_nil_l. reflexivity.
  - rewrite append_cons. cbn [replaceAll]. rewrite IH.
    destruct (Ascii.eqb d c).
    + rewrite append_assoc. reflexivity.
    + rewrite append_cons. reflexivity.
Qed.

Lemma escapeHtml_app s t : escapeHtml (s +:+ t) = escapeHtml s +:+ escapeHtml t.
Proof. unfold escapeHtml. rewrite !replaceAll_app. reflexivity. Qed.

Lemma escapeHtml_char c : escapeHtml (String c EmptyString) = escape_char c.
Proof.
  unfold escapeHtml, escape_char. cbn [replaceAll].
  destruct (Ascii.eqb c "&") eqn:E1; [reflexivity |].
  cbn [replaceAll]. destruct (Ascii.eqb c "<") eqn:E2; [reflexivity |].
  cbn [replaceAll]. destruct (Ascii.eqb c ">") eqn:E3; [reflexivity |].
  cbn [replaceAll]. destruct (Ascii.eqb c (ascii_of_nat 34)) eqn:E4;
    [reflexivity |].
  cbn [replaceAll]. destruct (Ascii.eqb c "'") eqn:E5; reflexivity.
Qed.

Lemma escapeHtml_cons c s :
  escapeHtml (String c s) = escape_char c +:+ escapeHtml s.
Proof.
  change (String c s) with (String c EmptyString +:+ s) at 1.
  rewrite escapeHtml_app, escapeHtml_char. reflexivity.
Qed.

Lemma contains_char_app c s t :
  Str.contains_char c (s +:+ t)
  = Str.contains_char c s || Str.contains_char c t.
Proof.
  induction s as [| d s IH]; [reflexivity |].
  rewrite append_cons. cbn [Str.contains_char]. rewrite IH.
  apply orb_assoc.
Qed.

Lemma escape_char_cases c :
  (html_special c = true
   /\ In (escape_char c) ["&amp;"; "&lt;"; "&gt;"; "&quot;"; "&#39;"])
  \/ (html_special c = false /\ escape_char c = String c EmptyString).
Proof.
  unfold html_special, escape_char.
  destruct (Ascii.eqb c "&"); [left; cbn; auto |].
  destruct (Ascii.eqb c "<"); [left; cbn; auto |].
  destruct (Ascii.eqb c ">"); [left; cbn; auto |].
  destruct (Ascii.eqb c (ascii_of_nat 34)); [left; cbn; auto 6 |].
  destruct (Ascii.eqb c "'"); [left; cbn; auto 7 |].
  right. auto.
Qed.

Lemma escape_char_clean c d :
  html_special d = true -> d <> "&"%char ->
  Str.contains_char d (escape_char c) = false.
Proof.
  intros Hd Hamp.
  assert (d = "<" \/ d = ">" \/ d = ascii_of_nat 34 \/ d = "'")%char as Hcases.
  { unfold html_special in Hd. rewrite !orb_true_iff, !Ascii.eqb_eq in Hd.
    tauto. }
  destruct (escape_char_cases c) as [[_ Hin] | [Hc ->]].
  - cbn [In] in Hin.
    destruct Hin as [<- | [<- | [<- | [<- | [<- | []]]]]];
      destruct Hcases as [-> | [-> | [-> | ->]]]; reflexivity.
  - cbn [Str.contains_char]. rewrite orb_false_r.
    destruct (Ascii.eqb c d) eqn:E; [| reflexivity].
    apply Ascii.eqb_eq in E. subst d. congruence.
Qed.

(** X1.  The text that [escapeHtml] returns holds none of the characters
    that open or close markup or an attribute value: no less-than sign, no
    greater-than sign, no double quote and no single quote, whatever the
    input. *)
Theorem escapeHtml_no_markup value :
  Str.contains_char "<" (escapeHtml value) = false
  /\ Str.contains_char ">" (escapeHtml value) = false
  /\ Str.contains_char (ascii_of_nat 34) (escapeHtml value) = false
  /\ Str.contains_char "'" (escapeHtml value) = false.
Proof.
  induction value as [| c value (IH1 & IH2 & IH3 & IH4)];
    [repeat split; reflexivity |].
  rewrite escapeHtml_cons, !contains_char_app, IH1, IH2, IH3, IH4.
  rewrite !orb_false_r.
  repeat split; apply escape_char_clean; (reflexivity || discriminate).
Qed.

Lemma escape_char_inj c1 c2 s1 s2 :
  escape_char c1 +:+ s1 = escape_char c2 +:+ s2 -> c1 = c2 /\ s1 = s2.
Proof.
  unfold escape_char.
  destruct (Ascii.eqb c1 "&") eqn:A1;
    [| destruct (Ascii.eqb c1 "<") eqn:B1;
       [| destruct (Ascii.eqb c1 ">") eqn:C1;
          [| destruct (Ascii.eqb c1 (ascii_of_nat 34)) eqn:D1;
             [| destruct (Ascii.eqb c1 "'") eqn:E1]]]];
    (destruct (Ascii.eqb c2 "&") eqn:A2;
     [| destruct (Ascii.eqb c2 "<") eqn:B2;
        [| destruct (Ascii.eqb c2 ">") eqn:C2;
           [| destruct (Ascii.eqb c2 (ascii_of_nat 34)) eqn:D2;
              [| destruct (Ascii.eqb c2 "'") eqn:E2]]]]);
    rewrite ?append_cons, ?append_nil_l; intros H;
    try discriminate H;
    rewrite ?Ascii.eqb_eq in *;
    try (injection H as H; subst; split; [congruence | reflexivity]);
    try (injection H as -> _; rewrite ?Ascii.eqb_refl in *; discriminate);
    try (injection H as <- _; rewrite ?Ascii.eqb_refl in *; discriminate).
Qed.

(** X2.  [escapeHtml] loses nothing: two texts with the same escaped form
    are the same text. *)
Theorem escapeHtml_injective a b : escapeHtml a = escapeHtml b -> a = b.
Proof.
  revert b. induction a as [| c a IH]; intros [| d b] H.
  - reflexivity.
  - rewrite escapeHtml_cons in H. change (escapeHtml EmptyString) with EmptyString in H.
    destruct (escape_char_cases d) as [[_ Hin] | [_ Hd]].
    + cbn [In] in Hin.
      destruct Hin as [E | [E | [E | [E | [E | []]]]]]; rewrite <- E in H;
        discriminate H.
    + rewrite Hd in H. discriminate H.
  - rewrite escapeHtml_cons in H. change (escapeHtml EmptyString) with EmptyString in H.
    destruct (escape_char_cases c) as [[_ Hin] | [_ Hc]].
    + cbn [In] in Hin.
      destruct Hin as [E | [E | [E | [E | [E | []]]]]]; rewrite <- E in H;
        discriminate H.
    + rewrite Hc in H. discriminate H.
  - rewrite !escapeHtml_cons in H.
    apply escape_char_inj in H as [-> H]. f_equal. apply IH. exact H.
Qed.

Lemma escapeHtml_injective_witness :
  escapeHtml "a<b" = escapeHtml "a<b" /\ "a<b" = "a<b".
Proof.
  split; [reflexivity |]. apply (escapeHtml_injective "a<b" "a<b").
  reflexivity.
Defined.

Lemma length_append s t :
  String.length (s +:+ t) = String.length s + String.length t.
Proof.
  induction s as [| c s IH]; [reflexivity |].
  rewrite append_cons. cbn [String.length]. rewrite IH. reflexivity.
Qed.

Lemma escape_char_length c :
  if html_special c then 4 <= String.length (escape_char c)
  else escape_char c = String c EmptyString.
Proof.
  destruct (escape_char_cases c) as [[-> Hin] | [-> Hc]]; [| exact Hc].
  cbn [In] in Hin.
  destruct Hin as [<- | [<- | [<- | [<- | [<- | []]]]]]; cbn; lia.
Qed.

Lemma escapeHtml_length s : String.length s <= String.length (escapeHtml s).
Proof.
  induction s as [| c s IH]; [reflexivity |].
  rewrite escapeHtml_cons, length_append. cbn [String.length].
  pose proof (escape_char_length c) as Hc.
  destruct (html_special c); [lia |]. rewrite Hc. cbn [String.length]. lia.
Qed.

(** X3.  [escapeHtml] returns a text unchanged exactly when the text has
    none of the five characters it replaces (ampersand, less-than,
    greater-than, double quote, single quote); any other text gets
    longer. *)
Theorem escapeHtml_unchanged value :
  (escapeHtml value = value
   <-> forallb (fun c => negb (html_special c)) (list_ascii_of_string value)
       = true)
  /\ (escapeHtml value <> value
      -> String.length value < String.length (escapeHtml value)).
Proof.
  assert (escapeHtml value = value
          <-> forallb (fun c => negb (html_special c))
                (list_ascii_of_string value) = true) as Hiff.
  { induction value as [| c value IH]; [split; reflexivity |].
    rewrite escapeHtml_cons. cbn [list_ascii_of_string forallb].
    rewrite andb_true_iff, <- IH, negb_true_iff.
    pose proof (escape_char_length c) as Hc.
    pose proof (escapeHtml_length value) as Hlen.
    destruct (html_special c).
    - split; [| intros [H _]; discriminate H].
      intros H. apply (f_equal String.length) in H.
      rewrite length_append in H. cbn [String.length] in H. lia.
    - rewrite Hc, append_cons, append_nil_l. split.
      + intros H. injection H as H. auto.
      + intros [_ ->]. reflexivity. }
  split; [exact Hiff |].
  intros Hne.
  pose proof (escapeHtml_length value) as Hle.
  destruct (Nat.eq_dec (String.length value) (String.length (escapeHtml value)))
    as [Heq |]; [| lia].
  exfalso. apply Hne. clear Hne Hle Hiff.
  induction value as [| c value IH]; [reflexivity |].
  rewrite escapeHtml_cons in *. rewrite length_append in Heq.
  cbn [String.length] in Heq.
  pose proof (escape_char_length c) as Hc.
  pose proof (escapeHtml_length value) as Hlen.
  destruct (html_special c); [lia |].
  rewrite Hc in *. cbn [String.length] in Heq.
  rewrite append_cons, append_nil_l. f_equal. apply IH. lia.
Qed.

Lemma escapeHtml_unchanged_witness :
  escapeHtml "Tom & Jerry" <> "Tom & Jerry"
  /\ String.length "Tom & Jerry" < String.length (escapeHtml "Tom & Jerry").
Proof.
  assert (escapeHtml "Tom & Jerry" <> "Tom & Jerry") as Hne
    by (vm_compute; discriminate).
  split; [exact Hne |].
  apply (proj2 (escapeHtml_unchanged "Tom & Jerry")). exact Hne.
Defined.

(** ** Merging is associative *)

Lemma recipe_ext (r r' : TemplatePreviewRecipe) :
  (forall key, recipe_get key r = recipe_get key r') -> r = r'.
Proof.
  intros H. destruct r, r'.
  pose proof (H KTitle). pose proof (H KData). pose proof (H KHelpers).
  pose proof (H KPartials). pose proof (H KPreprocess).
  pose proof (H KPostprocess). pose proof (H KWatchFiles).
  cbn in *. congruence.
Qed.

Lemma mergeRecipes_is_Some base override :
  exists r, mergeRecipes base (Some override) = Some r.
Proof. unfold mergeRecipes. eauto. Qed.

Lemma field_of_ext (x y : option TemplatePreviewRecipe) :
  is_Some x -> is_Some y ->
  (forall key, field_of x key = field_of y key) -> x = y.
Proof.
  intros [r ->] [r' ->] H. f_equal. apply recipe_ext. exact H.
Qed.

(** X4.  [mergeRecipes] is associative: layering three recipes gives the
    same recipe whichever two are merged first, so the result of a chain of
    merges depends on the order of the layers only. *)
Theorem mergeRecipes_assoc a b c :
  mergeRecipes (mergeRecipes a b) c = mergeRecipes a (mergeRecipes b c).
Proof.
  destruct c as [c |]; [| reflexivity].
  destruct (mergeRecipes_is_Some (mergeRecipes a b) c) as [l Hl].
  destruct (mergeRecipes_is_Some b c) as [m Hm].
  destruct (mergeRecipes_is_Some a m) as [r Hr].
  apply field_of_ext.
  - rewrite Hl. eauto.
  - rewrite Hm, Hr. eauto.
  - intros key. rewrite !mergeRecipes_field_of.
    cbn [field_of].
    destruct (nullish (recipe_get key c)) eqn:Ec.
    + reflexivity.
    + rewrite Ec. reflexivity.
Qed.

(** ** The types of the title and of the hooks *)

Lemma typed_fields_None : typed_fields None.
Proof. repeat split; left; reflexivity. Qed.

Lemma typed_fields_inline store record :
  typed_fields (Some (inlineRecipe store record)).
Proof.
  unfold typed_fields, inlineRecipe, string_or_undefined,
    function_or_undefined. cbn [field_of recipe_get title preprocess postprocess].
  split; [| split].
  - destruct (getProp store record "title"); eauto.
  - destruct (getProp store record "preprocess"); cbn [is_function]; eauto.
  - destruct (getProp store record "postprocess"); cbn [is_function]; eauto.
Qed.

Lemma typed_fields_merge base override :
  typed_fields base -> typed_fields override ->
  typed_fields (mergeRecipes base override).
Proof.
  unfold typed_fields. intros (Bt & Bpre & Bpost) (Ot & Opre & Opost).
  rewrite !mergeRecipes_field_of.
  repeat split;
    match goal with
    | |- _ (if ?b then _ else _) => destruct b; assumption
    end.
Qed.

Lemma typed_fields_merge_all r1 r2 r3 r4 inline :
  typed_fields r1 -> typed_fields r2 -> typed_fields r3 -> typed_fields r4 ->
  typed_fields (Some inline) ->
  typed_fields (merge_all r1 r2 r3 r4 inline).
Proof.
  intros H1 H2 H3 H4 Hi. unfold merge_all.
  repeat apply typed_fields_merge; auto using typed_fields_None.
Qed.

Lemma resolveRecipe_fuel_typed store context fuel :
  forall candidate depth r,
    resolveRecipe_fuel fuel store candidate context depth = Ok r ->
    typed_fields r.
Proof.
  induction fuel as [| fuel IH]; intros candidate depth r H;
    destruct (le_lt_dec depth MAX_RESOLUTION_DEPTH) as [Hd | Hd];
    try (rewrite resolveRecipe_fuel_deep in H by assumption; discriminate H).
  - cbn [resolveRecipe_fuel] in H.
    apply Nat.ltb_ge in Hd. rewrite Hd in H. discriminate H.
  - assert (forall key r',
               nested_fuel store context fuel candidate depth key = Ok r' ->
               typed_fields r') as Hnested.
    { intros key r'. unfold nested_fuel.
      destruct (is_undefined _); [intros [= <-]; apply typed_fields_None |].
      apply IH. }
    destruct (is_record candidate) eqn:Hrec.
    + rewrite resolveRecipe_fuel_record in H by assumption.
      apply bind_Ok in H as (r1 & H1 & H).
      apply bind_Ok in H as (r2 & H2 & H).
      apply bind_Ok in H as (r3 & H3 & H).
      apply bind_Ok in H as (r4 & H4 & H).
      injection H as <-.
      apply typed_fields_merge_all; eauto using typed_fields_inline.
    + destruct (is_function candidate) eqn:Hfun.
      * destruct candidate; try discriminate Hfun.
        rewrite resolveRecipe_fuel_call in H by assumption.
        apply bind_Ok in H as (result & _ & H). eapply IH, H.
      * rewrite resolveRecipe_fuel_other in H by assumption.
        injection H as <-. apply typed_fields_None.
Qed.

(** X5.  Whatever a companion module exports, the recipe of a successful
    load has a title that is a string or undefined, and hooks [preprocess]
    and [postprocess] that are functions or undefined: a title of another
    type and a hook that is not a function are dropped at every level of the
    export. *)
Theorem loadTemplateRecipe_field_types host modulePath context options st r
    st' :
  loadTemplateRecipe host modulePath context options st = (Ok r, st') ->
  string_or_undefined (Resolved.title r)
  /\ function_or_undefined (Resolved.preprocess r)
  /\ function_or_undefined (Resolved.postprocess r).
Proof.
  intros Hload.
  apply loadTemplateRecipe_inv in Hload
    as (raw & recipe & rh & rp & rd & rw & pr & entries & _ & _ & Hrecipe
        & _ & _ & _ & _ & _ & _ & ->).
  cbn [Resolved.title Resolved.preprocess Resolved.postprocess].
  apply (resolveRecipe_fuel_typed _ _ _ _ _ _ Hrecipe).
Qed.

Lemma loadTemplateRecipe_field_types_witness :
  exists r st',
    loadTemplateRecipe mistyped_host "/proj/mail.hbs.js" sample_context None
      initialLoaderState = (Ok r, st')
    /\ string_or_undefined (Resolved.title r)
    /\ function_or_undefined (Resolved.preprocess r)
    /\ function_or_undefined (Resolved.postprocess r)
    /\ Resolved.title r = VStr "Mail"
    /\ Resolved.preprocess r = VUndefined.
Proof.
  destruct (loadTemplateRecipe mistyped_host "/proj/mail.hbs.js"
              sample_context None initialLoaderState) as [[r | e] st'] eqn:E;
    [| vm_compute in E; discriminate].
  exists r, st'. split; [reflexivity |].
  destruct (loadTemplateRecipe_field_types _ _ _ _ _ _ _ E)
    as (Ht & Hpre & Hpost).
  split; [exact Ht |]. split; [exact Hpre |]. split; [exact Hpost |].
  vm_compute in E. injection E as <- <-. split; reflexivity.
Defined.

(** ** A module that exports no recipe *)

Lemma loadModuleExports_result host modulePath moduleSourceOverride
    workspaceFolder moduleSourceOverrides st :
  fst (loadModuleExports host modulePath moduleSourceOverride workspaceFolder
         moduleSourceOverrides st)
  = moduleRunOf host modulePath moduleSourceOverride workspaceFolder
      moduleSourceOverrides ≫= exported.
Proof.
  rewrite loadModuleExports_run.
  destruct (moduleRunOf host modulePath moduleSourceOverride workspaceFolder
              moduleSourceOverrides) as [run | e]; [| reflexivity].
  unfold withModuleLoadFrame, run_module. reflexivity.
Qed.

Lemma resolveRecipe_bare store context candidate :
  is_function candidate = false ->
  (forall key, In key recipeProperties ->
               getProp store candidate key = VUndefined) ->
  resolveRecipe store candidate context 0 = Ok None
  \/ resolveRecipe store candidate context 0 = Ok (Some emptyRecipe).
Proof.
  intros Hfun Hkeys.
  assert (0 <= MAX_RESOLUTION_DEPTH)%nat as Hd by (unfold MAX_RESOLUTION_DEPTH; lia).
  destruct (is_record candidate) eqn:Hrec.
  - right. rewrite resolveRecipe_record by assumption.
    unfold resolveNested.
    rewrite !Hkeys by (unfold recipeProperties, nestedKeys; cbn; auto 12).
    cbn [is_undefined mbind Result_bind]. f_equal.
    apply field_of_ext.
    + unfold merge_all. apply mergeRecipes_is_Some.
    + eauto.
    + intros key. rewrite merge_all_field. cbn [field_of pick nullish].
      assert (recipe_get key (inlineRecipe store candidate) = VUndefined) as ->.
      { destruct key; cbn [recipe_get inlineRecipe title data helpers partials
                          preprocess postprocess watchFiles];
          rewrite Hkeys by (unfold recipeProperties, nestedKeys; cbn; auto 12);
          reflexivity. }
      destruct key; reflexivity.
  - left. apply resolveRecipe_other; assumption.
Qed.

(** X6.  A companion module that is present and whose export is not a
    function and has none of the properties the loader reads (a string, a
    number, null, an empty object) loads without an error, as the empty
    recipe: no title, no hooks, empty data, helpers and partials.  Only the
    files the module was seen to depend on while it ran are kept, as
    moduleDependencies and in watchFiles. *)
Theorem loadTemplateRecipe_bare_export host modulePath context options st
    run raw :
  is_Some (options ≫= moduleSource) \/ fileExists host modulePath = true ->
  moduleRunOf host modulePath (options ≫= moduleSource)
    (match options ≫= workspaceFolder with
     | Some w => Some w
     | None => ctx_workspaceFolder context
     end)
    (options ≫= moduleSourceOverrides) = Ok run ->
  exported run = Ok raw ->
  is_function (deref (store host) raw) = false ->
  (forall key, In key recipeProperties ->
               getProp (store host) (deref (store host) raw) key = VUndefined) ->
  fst (loadTemplateRecipe host modulePath context options st)
  = Ok (bareRecipe host modulePath (recordedDependencies (events run))).
Proof.
  intros Hpresent Hrun Hexported Hfun Hkeys.
  unfold loadTemplateRecipe.
  set (ws := match options ≫= workspaceFolder with
             | Some w => Some w
             | None => ctx_workspaceFolder context
             end) in *.
  assert (match options ≫= moduleSource with
          | Some _ => true
          | None => fileExists host modulePath
          end = true) as ->.
  { destruct Hpresent as [[source ->] | Hfile]; [reflexivity |].
    destruct (options ≫= moduleSource); [reflexivity | exact Hfile]. }
  cbn [negb].
  pose proof (loadModuleExports_result host modulePath
                (options ≫= moduleSource) ws
                (options ≫= moduleSourceOverrides) st) as Hres.
  rewrite Hrun in Hres. cbn [mbind Result_bind] in Hres.
  rewrite Hexported in Hres.
  destruct (loadModuleExports host modulePath (options ≫= moduleSource) ws
              (options ≫= moduleSourceOverrides) st) as [res st1] eqn:E.
  cbn [fst] in Hres. subst res.
  destruct (loadModuleExports_dependencies _ _ _ _ _ _ _ _ _ E Hrun)
    as [_ Hdeps].
  cbn [fst mbind Result_bind]. rewrite Hdeps.
  destruct (resolveRecipe_bare (store host) context (deref (store host) raw)
              Hfun Hkeys) as [-> | ->]; reflexivity.
Qed.

Lemma loadTemplateRecipe_bare_export_witness :
  fst (loadTemplateRecipe textual_host "/proj/mail.hbs.js" sample_context None
         initialLoaderState)
  = Ok (bareRecipe textual_host "/proj/mail.hbs.js" ["/proj/util.ts"])
  /\ Resolved.watchFiles
       (bareRecipe textual_host "/proj/mail.hbs.js" ["/proj/util.ts"])
     = ["/proj/util.ts"].
Proof.
  split; [| reflexivity].
  apply (loadTemplateRecipe_bare_export textual_host "/proj/mail.hbs.js"
           sample_context None initialLoaderState
           {| events := [ImportResolved "/proj/lib/../util.ts"];
              exported := Ok (VStr "just text") |} (VStr "just text")).
  - right. reflexivity.
  - reflexivity.
  - reflexivity.
  - reflexivity.
  - intros key _. reflexivity.
Defined.

(** ** The loader's state across a load *)

(** What running a module in a root frame does to the state. *)
Lemma withModuleLoadFrame_run modulePath moduleSourceOverrides run st :
  let n := length (contexts st) in
  let fresh := {| root := path.normalize modulePath; dependencies := [];
                  overrides := moduleSourceOverrides |} in
  withModuleLoadFrame modulePath true moduleSourceOverrides (run_module run) st
  = (exported run,
     {| moduleDependencyMap :=
          if is_ok (exported run)
          then <[path.normalize modulePath := n]> (moduleDependencyMap st)
          else delete (path.normalize modulePath) (moduleDependencyMap st);
        moduleLoadStack := moduleLoadStack st;
        contexts :=
          fold_left (record_in n) (flat_map event_paths (events run))
            (contexts st ++ [fresh]) |}).
Proof.
  intros n fresh. subst n fresh. unfold withModuleLoadFrame, run_module.
  cbn beta iota zeta.
  set (frame := {| frame_modulePath := path.normalize modulePath;
                   frame_context := length (contexts st); isRoot := true |}).
  set (pushed := {| moduleDependencyMap := moduleDependencyMap st;
                    moduleLoadStack := frame :: moduleLoadStack st;
                    contexts := _ |}).
  destruct (run_events_top (events run)) with (st := pushed) (top := frame)
    (rest := moduleLoadStack st) as (Hmap & Hstk & Hctx);
    [apply Forall_forall; intros e _; apply run_event_top | reflexivity |].
  rewrite Hmap, Hstk, Hctx. reflexivity.
Qed.

Lemma run_event_stack e st :
  moduleLoadStack (run_event e st) = moduleLoadStack st.
Proof.
  destruct (moduleLoadStack st) as [| top rest] eqn:Hstack.
  - destruct e as [filePath | filename inner]; cbn [run_event].
    + unfold recordModuleDependency. rewrite Hstack. exact Hstack.
    + unfold withModuleLoadFrame. rewrite Hstack. cbn [length Nat.eqb].
      cbn beta iota zeta.
      set (frame := {| frame_modulePath := path.normalize filename;
                       frame_context := length (contexts st);
                       isRoot := true |}).
      set (pushed := {| moduleDependencyMap := moduleDependencyMap st;
                        moduleLoadStack := [frame];
                        contexts := _ |}).
      destruct (run_events_top inner) with (st := pushed) (top := frame)
        (rest := @nil ModuleLoadFrame) as (_ & Hstk & _);
        [apply Forall_forall; intros e _; apply run_event_top | reflexivity |].
      fold (run_events inner pushed).
      destruct (recordModuleDependency_top filename (run_events inner pushed)
                  frame []) as (_ & Hstk' & _); [rewrite Hstk; reflexivity |].
      cbn [snd moduleLoadStack]. rewrite Hstk', Hstk. reflexivity.
  - destruct (run_event_top e st top rest Hstack) as (_ & Hstk & _).
    rewrite Hstk. exact Hstack.
Qed.

Lemma loadModuleExports_state host modulePath moduleSourceOverride
    workspaceFolder moduleSourceOverrides st :
  let st' := snd (loadModuleExports host modulePath moduleSourceOverride
                    workspaceFolder moduleSourceOverrides st) in
  let result := fst (loadModuleExports host modulePath moduleSourceOverride
                       workspaceFolder moduleSourceOverrides st) in
  let key := path.normalize modulePath in
  moduleLoadStack st' = moduleLoadStack st
  /\ (forall other, other <> key ->
        moduleDependencyMap st' !! other = moduleDependencyMap st !! other)
  /\ moduleDependencyMap st' !! key
     = (if is_ok result then Some (length (contexts st)) else None)
  /\ (forall c, (c < length (contexts st))%nat ->
        contexts st' !! c = contexts st !! c)
  /\ (length (contexts st) <= length (contexts st'))%nat
  /\ (is_ok result = true ->
      (length (contexts st) < length (contexts st'))%nat).
Proof.
  intros st' result key. subst st' result key.
  rewrite loadModuleExports_run.
  destruct (moduleRunOf host modulePath moduleSourceOverride workspaceFolder
              moduleSourceOverrides) as [run | e].
  - rewrite withModuleLoadFrame_run.
    cbn [fst snd moduleLoadStack moduleDependencyMap contexts
         invalidateModuleTree].
    assert (forall paths ctxs c,
               c <> length (contexts st) ->
               fold_left (record_in (length (contexts st))) paths ctxs !! c
               = ctxs !! c) as Hother.
    { induction paths as [| p paths IH]; intros ctxs c Hc; [reflexivity |].
      cbn [fold_left]. rewrite IH by assumption.
      unfold record_in. apply list_lookup_alter_ne. congruence. }
    assert (forall paths ctxs,
               length (fold_left (record_in (length (contexts st))) paths ctxs)
               = length ctxs) as Hlen.
    { induction paths as [| p paths IH]; intros ctxs; [reflexivity |].
      cbn [fold_left]. rewrite IH. unfold record_in.
      apply length_alter. }
    split; [reflexivity |]. split; [| split; [| split; [| split]]].
    + intros other Hne. destruct (is_ok (exported run)).
      * rewrite lookup_insert_ne by congruence.
        apply lookup_delete_ne. congruence.
      * rewrite !lookup_delete_ne by congruence. reflexivity.
    + destruct (is_ok (exported run)).
      * apply lookup_insert_eq.
      * apply lookup_delete_eq.
    + intros c Hc. rewrite Hother by lia.
      apply lookup_app_l. exact Hc.
    + rewrite Hlen, length_app. lia.
    + intros _. rewrite Hlen, length_app. cbn [length]. lia.
  - cbn [fst snd moduleLoadStack moduleDependencyMap contexts
         invalidateModuleTree is_ok].
    split; [reflexivity |]. split; [| split; [| split; [| split]]].
    + intros other Hne. apply lookup_delete_ne. congruence.
    + apply lookup_delete_eq.
    + reflexivity.
    + lia.
    + discriminate.
Qed.

(** The state after a load is the state after the module was executed. *)
Lemma loadTemplateRecipe_snd host modulePath context options st :
  snd (loadTemplateRecipe host modulePath context options st)
  = if match options ≫= moduleSource with
       | Some _ => true
       | None => fileExists host modulePath
       end
    then snd (loadModuleExports host modulePath (options ≫= moduleSource)
                (match options ≫= workspaceFolder with
                 | Some w => Some w
                 | None => ctx_workspaceFolder context
                 end)
                (options ≫= moduleSourceOverrides) st)
    else st.
Proof.
  unfold loadTemplateRecipe.
  destruct (match options ≫= moduleSource with
            | Some _ => true
            | None => fileExists host modulePath
            end); cbn [negb]; [| reflexivity].
  destruct (loadModuleExports host modulePath (options ≫= moduleSource) _
              (options ≫= moduleSourceOverrides) st) as [raw st1].
  reflexivity.
Qed.

(** X7.  The stack of modules being loaded is balanced: after
    [loadTemplateRecipe], whether it succeeded or failed, and after any
    module required outside a load, [moduleLoadStack] is what it was
    before. *)
Theorem moduleLoadStack_balanced :
  (forall host modulePath context options st,
      moduleLoadStack
        (snd (loadTemplateRecipe host modulePath context options st))
      = moduleLoadStack st)
  /\ (forall required st,
        moduleLoadStack (run_events required st) = moduleLoadStack st).
Proof.
  split.
  - intros host modulePath context options st.
    rewrite loadTemplateRecipe_snd.
    destruct (match options ≫= moduleSource with
              | Some _ => true
              | None => fileExists host modulePath
              end); [| reflexivity].
    apply loadModuleExports_state.
  - unfold run_events. intros required.
    induction required as [| e required IH]; intros st; [reflexivity |].
    cbn [fold_left]. rewrite IH. apply run_event_stack.
Qed.

(** X8.  When the companion module cannot be read, transpiled or executed,
    [loadTemplateRecipe] fails with that very error, and the dependencies
    recorded for the module by earlier loads are forgotten. *)
Theorem loadTemplateRecipe_failed_run host modulePath context options st e :
  is_Some (options ≫= moduleSource) \/ fileExists host modulePath = true ->
  moduleRunOf host modulePath (options ≫= moduleSource)
    (match options ≫= workspaceFolder with
     | Some w => Some w
     | None => ctx_workspaceFolder context
     end)
    (options ≫= moduleSourceOverrides) ≫= exported = Err e ->
  fst (loadTemplateRecipe host modulePath context options st) = Err e
  /\ getModuleDependenciesFor modulePath
       (snd (loadTemplateRecipe host modulePath context options st)) = [].
Proof.
  intros Hpresent Hrun.
  set (ws := match options ≫= workspaceFolder with
             | Some w => Some w
             | None => ctx_workspaceFolder context
             end) in *.
  assert (match options ≫= moduleSource with
          | Some _ => true
          | None => fileExists host modulePath
          end = true) as Hexists.
  { destruct Hpresent as [[source ->] | Hfile]; [reflexivity |].
    destruct (options ≫= moduleSource); [reflexivity | exact Hfile]. }
  pose proof (loadModuleExports_result host modulePath
                (options ≫= moduleSource) ws
                (options ≫= moduleSourceOverrides) st) as Hres.
  rewrite Hrun in Hres.
  destruct (loadModuleExports_state host modulePath (options ≫= moduleSource)
              ws (options ≫= moduleSourceOverrides) st)
    as (_ & _ & Hkey & _).
  rewrite Hres in Hkey. cbn [is_ok] in Hkey.
  split.
  - unfold loadTemplateRecipe. fold ws. rewrite Hexists. cbn [negb].
    destruct (loadModuleExports host modulePath (options ≫= moduleSource) ws
                (options ≫= moduleSourceOverrides) st) as [raw st1].
    cbn [fst] in Hres. subst raw. reflexivity.
  - rewrite loadTemplateRecipe_snd. fold ws. rewrite Hexists.
    unfold getModuleDependenciesFor. rewrite Hkey. reflexivity.
Qed.


Lemma loadTemplateRecipe_failed_run_witness :
  getModuleDependenciesFor "/proj/mail.hbs.js" mail_loaded
  = ["/proj/dep.ts"; "/proj/helper.ts"]
  /\ fst (loadTemplateRecipe two_modules_host "/proj/mail.hbs.js"
            sample_context (Some broken_edit) mail_loaded)
     = Err (Thrown "SyntaxError: Unexpected token")
  /\ getModuleDependenciesFor "/proj/mail.hbs.js"
       (snd (loadTemplateRecipe two_modules_host "/proj/mail.hbs.js"
               sample_context (Some broken_edit) mail_loaded))
     = [].
Proof.
  split; [vm_compute; reflexivity |].
  apply (loadTemplateRecipe_failed_run two_modules_host "/proj/mail.hbs.js"
           sample_context (Some broken_edit) mail_loaded).
  - left. eexists. reflexivity.
  - reflexivity.
Defined.


(** ** A partial that cannot be resolved *)

Lemma partials_fold_first_failure host modulePath overrides entries :
  forall acc e,
    foldl (partials_step host modulePath overrides) (Ok acc) entries = Err e
    <-> first_failure host modulePath overrides entries e.
Proof.
  induction entries as [| [name v] entries IH]; intros acc e.
  - cbn [foldl]. split; [discriminate |].
    intros (before & n & d & after & Heq & _). destruct before; discriminate Heq.
  - cbn [foldl]. unfold partials_step at 2. cbn [mbind Result_bind].
    rewrite resolvePartial_outcome.
    destruct (entry_outcome host modulePath overrides name
                (deref (store host) v)) as [o | e0] eqn:E0;
      cbn [fmap Result_fmap].
    + rewrite IH. split.
      * intros (before & n & d & after & -> & Hok & Hfail).
        exists ((name, v) :: before), n, d, after.
        split; [reflexivity |]. split; [| exact Hfail].
        constructor; [| exact Hok].
        unfold entry_ok. cbn [fst snd]. rewrite E0. reflexivity.
      * intros (before & n & d & after & Heq & Hok & Hfail).
        destruct before as [| b before].
        -- injection Heq as <- <- <-. rewrite E0 in Hfail. discriminate Hfail.
        -- injection Heq as <- ->. apply Forall_cons in Hok as [_ Hok].
           exists before, n, d, after. auto.
    + rewrite partials_fold_Err. split.
      * intros [= <-]. exists [], name, v, entries. auto.
      * intros (before & n & d & after & Heq & Hok & Hfail).
        destruct before as [| b before].
        -- injection Heq as <- <- <-. congruence.
        -- injection Heq as <- ->. apply Forall_cons in Hok as [Hb _].
           unfold entry_ok in Hb. cbn [fst snd] in Hb. rewrite E0 in Hb.
           discriminate Hb.
Qed.

(** X10.  Partial resolution fails exactly when some entry of the partials
    object cannot be resolved, and the error is that of the first such entry
    in the order of the object's properties; it succeeds exactly when every
    entry resolves. *)
Theorem resolvePartials_first_failure host modulePath overrides partials :
  (forall e,
      resolvePartials host partials modulePath overrides = Err e
      <-> first_failure host modulePath overrides (partialEntries partials) e)
  /\ (is_ok (resolvePartials host partials modulePath overrides) = true
      <-> Forall (entry_ok host modulePath overrides)
            (partialEntries partials)).
Proof.
  assert (forall e,
             resolvePartials host partials modulePath overrides = Err e
             <-> first_failure host modulePath overrides
                   (partialEntries partials) e) as Hfail.
  { intros e. rewrite resolvePartials_fold. apply partials_fold_first_failure. }
  split; [exact Hfail |].
  destruct (resolvePartials host partials modulePath overrides) as [pr | e]
    eqn:E; cbn [is_ok].
  - split; [intros _ | reflexivity].
    apply List.Forall_forall. intros [name v] Hin.
    unfold entry_ok. cbn [fst snd].
    destruct (entry_outcome host modulePath overrides name
                (deref (store host) v)) as [o | e] eqn:Eo; [reflexivity |].
    exfalso.
    assert (exists before after e',
               partialEntries partials = before ++ after
               /\ Forall (entry_ok host modulePath overrides) before
               /\ match after with
                  | [] => False
                  | (n, d) :: _ =>
                      entry_outcome host modulePath overrides n
                        (deref (store host) d) = Err e'
                  end) as (before & after & e' & Heq & Hok & Hafter).
    { clear E Hfail. induction (partialEntries partials) as [| [n d] l IH];
        [contradiction |].
      destruct (entry_outcome host modulePath overrides n
                  (deref (store host) d)) as [o' | e'] eqn:En.
      - destruct Hin as [Heq | Hin]; [congruence |].
        destruct (IH Hin) as (before & after & e'' & -> & Hok & Hafter).
        exists ((n, d) :: before), after, e''.
        split; [reflexivity |]. split; [| exact Hafter].
        constructor; [| exact Hok].
        unfold entry_ok. cbn [fst snd]. rewrite En. reflexivity.
      - exists [], ((n, d) :: l), e'. auto. }
    destruct after as [| [n d] after]; [contradiction |].
    assert (Ok pr = Err e') as Habs; [| discriminate Habs].
    apply Hfail. exists before, n, d, after. auto.
  - split; [discriminate |]. intros Hall. exfalso.
    destruct (proj1 (Hfail e) eq_refl)
      as (before & n & d & after & Heq & _ & Hbad).
    rewrite Heq in Hall. apply Forall_app in Hall as [_ Hall].
    apply Forall_cons in Hall as [Hn _].
    unfold entry_ok in Hn. cbn [fst snd] in Hn. rewrite Hbad in Hn.
    discriminate Hn.
Qed.

Lemma resolvePartials_first_failure_witness :
  resolvePartials partials_host faulty_partials "/proj/mail.hbs.js" None
  = Err (PartialMissingFilePath "body")
  /\ errorMessage (PartialMissingFilePath "body")
     = "Partial " +:+ dquote +:+ "body" +:+ dquote
       +:+ " is missing a file path.".
Proof.
  split; [| reflexivity].
  apply (proj1 (resolvePartials_first_failure partials_host
                  "/proj/mail.hbs.js" None faulty_partials)).
  exists [("header", VStr "<header/>")], "body",
    (VObj [("file", VStr EmptyString)]),
    [("footer", VObj [("file", VStr "./missing.hbs")])].
  split; [reflexivity |]. split; [| reflexivity].
  constructor; [reflexivity | constructor].
Defined.

(** ** Unsaved documents as overrides *)

Lemma collectDirtyDocumentOverrides_snoc textDocuments document :
  collectDirtyDocumentOverrides (textDocuments ++ [document])
  = if isDirty document && String.eqb (scheme document) "file"
    then assoc_set (path.normalize (fsPath document)) (getText document)
           (collectDirtyDocumentOverrides textDocuments)
    else collectDirtyDocumentOverrides textDocuments.
Proof.
  unfold collectDirtyDocumentOverrides. rewrite fold_left_app. reflexivity.
Qed.

Lemma collectDirtyDocumentOverrides_lookup textDocuments p :
  assoc_lookup p (collectDirtyDocumentOverrides textDocuments)
  = dirtyText textDocuments p.
Proof.
  induction textDocuments as [| document textDocuments IH] using rev_ind;
    [reflexivity |].
  rewrite collectDirtyDocumentOverrides_snoc.
  unfold dirtyText, overrides_path in *. rewrite rev_unit. cbn [List.find].
  destruct (isDirty document && String.eqb (scheme document) "file");
    cbn [andb]; [| exact IH].
  destruct (String.eqb (path.normalize (fsPath document)) p) eqn:E.
  - apply String.eqb_eq in E. subst p. apply assoc_lookup_set_eq.
  - apply String.eqb_neq in E. rewrite assoc_lookup_set_ne by exact E.
    exact IH.
Qed.

Lemma assoc_set_keys {A} key (v : A) props k :
  In k (map fst (assoc_set key v props)) -> k = key \/ In k (map fst props).
Proof.
  induction props as [| [k' w] props IH]; cbn.
  - intros [<- | []]. auto.
  - destruct (String.eqb k' key) eqn:E; cbn.
    + apply String.eqb_eq in E. subst k'. tauto.
    + intros [<- | H]; [auto |]. destruct (IH H); auto.
Qed.

Lemma collectDirtyDocumentOverrides_keys textDocuments key :
  In key (map fst (collectDirtyDocumentOverrides textDocuments)) ->
  path.normalize key = key.
Proof.
  induction textDocuments as [| document textDocuments IH] using rev_ind;
    [contradiction |].
  rewrite collectDirtyDocumentOverrides_snoc.
  destruct (isDirty document && String.eqb (scheme document) "file");
    [| exact IH].
  intros H. apply assoc_set_keys in H as [-> | H]; [| exact (IH H)].
  apply normalize_idempotent.
Qed.

(** X11.  The overrides collected from the editor hold, under the normal
    form of its path, the text of every unsaved document that is a file;
    when several unsaved documents have the same normal form, the last one
    counts.  All keys are in normal form, so the loader's search for the
    override of a partial, made with a normalized path, is answered by the
    exact lookup: it finds that text, and nothing when no unsaved document
    has that path. *)
Theorem collectDirtyDocumentOverrides_found textDocuments :
  (forall p,
      assoc_lookup p (collectDirtyDocumentOverrides textDocuments)
      = dirtyText textDocuments p)
  /\ (forall key,
        In key (map fst (collectDirtyDocumentOverrides textDocuments)) ->
        path.normalize key = key)
  /\ (forall q,
        findOverride (Some (collectDirtyDocumentOverrides textDocuments))
          (path.normalize q)
        = dirtyText textDocuments (path.normalize q)).
Proof.
  split; [apply collectDirtyDocumentOverrides_lookup |].
  split; [apply collectDirtyDocumentOverrides_keys |].
  intros q. unfold findOverride.
  rewrite collectDirtyDocumentOverrides_lookup.
  destruct (dirtyText textDocuments (path.normalize q)) as [text |] eqn:E;
    [reflexivity |].
  destruct (List.find _ (collectDirtyDocumentOverrides textDocuments))
    as [[key text] |] eqn:Ef; [| reflexivity].
  exfalso. apply List.find_some in Ef as [Hin Heq]. cbn [fst] in Heq.
  apply String.eqb_eq in Heq.
  rewrite <- collectDirtyDocumentOverrides_lookup in E.
  apply assoc_lookup_None in E. apply E.
  apply (in_map fst) in Hin. cbn [fst] in Hin.
  rewrite <- Heq.
  rewrite (collectDirtyDocumentOverrides_keys _ _ Hin). exact Hin.
Qed.

Lemma collectDirtyDocumentOverrides_found_witness :
  collectDirtyDocumentOverrides open_documents
  = [("/proj/partials/header.hbs", "<header>second</header>")]
  /\ path.normalize "/proj/partials/header.hbs" = "/proj/partials/header.hbs"
  /\ findOverride (Some (collectDirtyDocumentOverrides open_documents))
       (path.normalize "/proj/partials/./header.hbs")
     = Some "<header>second</header>".
Proof.
  split; [reflexivity |]. split.
  - apply (proj1 (proj2 (collectDirtyDocumentOverrides_found open_documents))).
    vm_compute. left. reflexivity.
  - rewrite (proj2 (proj2 (collectDirtyDocumentOverrides_found
                             open_documents))).
    reflexivity.
Defined.

(** ** The indexes of sessions *)

Section SessionIndexFacts.

Variable uriOf : string -> string.

Lemma add_remove (bucket : gset nat) (id : nat) :
  id ∉ bucket -> (bucket ∪ {[id]}) ∖ {[id]} = bucket.
Proof.
  intros Hnew. apply set_eq. intros x.
  rewrite elem_of_difference, elem_of_union, elem_of_singleton. split.
  - intros [[Hx | ->] Hne]; [exact Hx | contradiction].
  - intros Hx. split; [left; exact Hx |]. intros ->. contradiction.
Qed.

Lemma empty_remove (id : nat) : (∅ : gset nat) ∖ {[id]} = ∅.
Proof.
  apply set_eq. intros x. rewrite elem_of_difference.
  split; [intros [H _]; exact H |]. intros H.
  exfalso. exact (not_elem_of_empty x H).
Qed.

Lemma add_nonempty (bucket : gset nat) (id : nat) : bucket ∪ {[id]} <> ∅.
Proof.
  intros H. apply (not_elem_of_empty (C := gset nat) id). rewrite <- H.
  apply elem_of_union_r, elem_of_singleton. reflexivity.
Qed.

Lemma sessions_of_track key session index key' :
  sessions_of (trackSession key session index) key'
  = if decide (key' = key)
    then sessions_of index key ∪ {[session_id session]}
    else sessions_of index key'.
Proof.
  unfold sessions_of, trackSession. cbv zeta.
  destruct (decide (key' = key)) as [-> | Hne].
  - rewrite lookup_insert_eq. reflexivity.
  - rewrite lookup_insert_ne by congruence. reflexivity.
Qed.

Lemma sessions_of_untrack key session index key' :
  sessions_of (untrackSession key session index) key'
  = if decide (key' = key)
    then sessions_of index key ∖ {[session_id session]}
    else sessions_of index key'.
Proof.
  unfold sessions_of, untrackSession. cbv zeta.
  destruct (index !! key) as [bucket |] eqn:E.
  - destruct (decide (bucket ∖ {[session_id session]} = ∅)) as [Hempty | Hne];
      destruct (decide (key' = key)) as [-> | Hk].
    + rewrite lookup_delete_eq. cbn. symmetry. exact Hempty.
    + rewrite lookup_delete_ne by congruence. reflexivity.
    + rewrite lookup_insert_eq. reflexivity.
    + rewrite lookup_insert_ne by congruence. reflexivity.
  - destruct (decide (key' = key)) as [-> | Hk]; [| reflexivity].
    rewrite E. cbn. symmetry. apply empty_remove.
Qed.

Lemma no_empty_bucket_track key session index :
  no_empty_bucket index -> no_empty_bucket (trackSession key session index).
Proof.
  intros Hne k bucket. unfold trackSession. cbv zeta.
  destruct (decide (k = key)) as [-> | Hk].
  - rewrite lookup_insert_eq. intros [= <-]. apply add_nonempty.
  - rewrite lookup_insert_ne by congruence. apply Hne.
Qed.

Lemma no_empty_bucket_untrack key session index :
  no_empty_bucket index -> no_empty_bucket (untrackSession key session index).
Proof.
  intros Hne k bucket. unfold untrackSession. cbv zeta.
  destruct (index !! key) as [b |] eqn:E; [| apply Hne].
  destruct (decide (b ∖ {[session_id session]} = ∅)) as [Hempty | Hfull].
  - destruct (decide (k = key)) as [-> | Hk].
    + rewrite lookup_delete_eq. discriminate.
    + rewrite lookup_delete_ne by congruence. apply Hne.
  - destruct (decide (k = key)) as [-> | Hk].
    + rewrite lookup_insert_eq. intros [= <-]. exact Hfull.
    + rewrite lookup_insert_ne by congruence. apply Hne.
Qed.

(** X12.  Registering a session under a document and removing it again
    restores the index, when the index holds no empty bucket and the session
    was not registered there before; either step keeps the index free of
    empty buckets. *)
Theorem untrack_track_session session filePath index :
  no_empty_bucket index ->
  session_id session ∉ sessions_of index (uriOf filePath) ->
  untrackPartialSession uriOf session filePath
    (trackPartialSession uriOf session filePath index) = index
  /\ no_empty_bucket (trackPartialSession uriOf session filePath index)
  /\ no_empty_bucket (untrackPartialSession uriOf session filePath index).
Proof.
  intros Hne Hnew. split; [| split].
  - unfold untrackPartialSession, trackPartialSession, untrackSession,
      trackSession, sessions_of in *. cbv zeta.
    rewrite lookup_insert_eq.
    destruct (index !! uriOf filePath) as [bucket |] eqn:E; simpl in *.
    + rewrite add_remove by exact Hnew.
      destruct (decide (bucket = ∅)) as [Hempty | _];
        [exfalso; exact (Hne _ _ E Hempty) |].
      rewrite insert_insert_eq. apply insert_id. exact E.
    + rewrite add_remove by exact Hnew.
      destruct (decide ((∅ : gset nat) = ∅)) as [_ | Habs];
        [| contradiction].
      rewrite delete_insert_eq. apply delete_id. exact E.
  - apply no_empty_bucket_track. exact Hne.
  - apply no_empty_bucket_untrack. exact Hne.
Qed.

Lemma sessions_of_untrack_all session paths :
  forall index key id,
    id ∈ sessions_of
           (fold_left
              (fun index p => untrackPartialSession uriOf session p index)
              paths index) key
    <-> id ∈ sessions_of index key
        /\ ~ (id = session_id session
              /\ exists p, In p paths /\ uriOf p = key).
Proof.
  induction paths as [| p paths IH]; intros index key id; cbn [fold_left].
  - split; [intros H; split; [exact H | intros (_ & q & [] & _)] | tauto].
  - rewrite IH. unfold untrackPartialSession. rewrite sessions_of_untrack.
    destruct (decide (key = uriOf p)) as [-> | Hk].
    + rewrite elem_of_difference, elem_of_singleton. split.
      * intros [[Hin Hne] Hnot]. split; [exact Hin |].
        intros [Heq _]. contradiction.
      * intros [Hin Hnot]. split; [split; [exact Hin |] |].
        -- intros Heq. apply Hnot. split; [exact Heq |].
           exists p. split; [left |]; reflexivity.
        -- intros (Heq & q & Hq & Hu). apply Hnot. split; [exact Heq |].
           exists q. split; [right; exact Hq | exact Hu].
    + split.
      * intros [Hin Hnot]. split; [exact Hin |].
        intros (Heq & q & [<- | Hq] & Hu); [congruence |].
        apply Hnot. eauto.
      * intros [Hin Hnot]. split; [exact Hin |].
        intros (Heq & q & Hq & Hu). apply Hnot. split; [exact Heq |].
        exists q. split; [right; exact Hq | exact Hu].
Qed.

Lemma sessions_of_track_all session paths :
  forall index key id,
    id ∈ sessions_of
           (fold_left
              (fun index p => trackPartialSession uriOf session p index)
              paths index) key
    <-> id ∈ sessions_of index key
        \/ (id = session_id session
            /\ exists p, In p paths /\ uriOf p = key).
Proof.
  induction paths as [| p paths IH]; intros index key id; cbn [fold_left].
  - split; [auto | intros [H | (_ & q & [] & _)]; exact H].
  - rewrite IH. unfold trackPartialSession. rewrite sessions_of_track.
    destruct (decide (key = uriOf p)) as [-> | Hk].
    + rewrite elem_of_union, elem_of_singleton. split.
      * intros [[Hin | Heq] | (Heq & q & Hq & Hu)]; [auto | |].
        -- right. split; [exact Heq |]. exists p. split; [left |]; reflexivity.
        -- right. split; [exact Heq |]. exists q. split; [right |]; assumption.
      * intros [Hin | (Heq & q & [<- | Hq] & Hu)]; [auto | auto |].
        right. split; [exact Heq |]. eauto.
    + split.
      * intros [Hin | (Heq & q & Hq & Hu)]; [auto |].
        right. split; [exact Heq |]. exists q. split; [right |]; assumption.
      * intros [Hin | (Heq & q & [<- | Hq] & Hu)]; [auto | congruence |].
        right. split; [exact Heq |]. eauto.
Qed.

Lemma no_empty_bucket_untrack_all session paths :
  forall index,
    no_empty_bucket index ->
    no_empty_bucket
      (fold_left (fun index p => untrackPartialSession uriOf session p index)
         paths index).
Proof.
  induction paths as [| p paths IH]; intros index Hne; [exact Hne |].
  cbn [fold_left]. apply IH, no_empty_bucket_untrack, Hne.
Qed.

Lemma no_empty_bucket_track_all session paths :
  forall index,
    no_empty_bucket index ->
    no_empty_bucket
      (fold_left (fun index p => trackPartialSession uriOf session p index)
         paths index).
Proof.
  induction paths as [| p paths IH]; intros index Hne; [exact Hne |].
  cbn [fold_left]. apply IH, no_empty_bucket_track, Hne.
Qed.

Lemma uniqueStrings_fold_In entries x :
  forall seen,
    In x (fold_left (fun seen entry => set_add entry seen) entries seen)
    <-> In x seen \/ In x entries.
Proof.
  induction entries as [| e entries IH]; intros seen; cbn [fold_left].
  - split; [auto | intros [H | []]; exact H].
  - rewrite IH, set_add_In. cbn [In]. intuition congruence.
Qed.

Lemma set_add_NoDup x seen : NoDup seen -> NoDup (set_add x seen).
Proof.
  intros Hnd. unfold set_add.
  destruct (existsb (String.eqb x) seen) eqn:E; [exact Hnd |].
  apply NoDup_app. split; [exact Hnd |]. split.
  - intros y Hy Hy'. apply list_elem_of_In in Hy, Hy'.
    destruct Hy' as [<- | []].
    assert (existsb (String.eqb x) seen = true) as Habs; [| congruence].
    apply existsb_exists. exists x. split; [exact Hy | apply String.eqb_refl].
  - apply NoDup_singleton.
Qed.

Lemma uniqueStrings_fold_NoDup entries :
  forall seen,
    NoDup seen ->
    NoDup (fold_left (fun seen entry => set_add entry seen) entries seen).
Proof.
  induction entries as [| e entries IH]; intros seen Hnd; [exact Hnd |].
  cbn [fold_left]. apply IH, set_add_NoDup, Hnd.
Qed.

Lemma normalizeFsPath_tracked host session tracked p :
  normalizeFsPath host (with_trackedPartials session tracked) p
  = normalizeFsPath host session p.
Proof. reflexivity. Qed.

(** The second loop of [updateAdditionalWatchers], component by
    component. *)
Lemma updateAdditionalWatchers_partials host session partialPaths :
  forall tracked index watchTargets,
    fold_left
      (fun '(session, index, watchTargets) partialPath =>
         if Str.is_empty partialPath then (session, index, watchTargets)
         else
           let normalized := normalizeFsPath host session partialPath in
           (with_trackedPartials session
              (set_add normalized (trackedPartials session)),
            trackPartialSession uriOf session normalized index,
            set_add normalized watchTargets))
      partialPaths
      (with_trackedPartials session tracked, index, watchTargets)
    = let kept :=
        map (normalizeFsPath host session)
          (List.filter (fun p => negb (Str.is_empty p)) partialPaths) in
      (with_trackedPartials session
         (fold_left (fun seen entry => set_add entry seen) kept tracked),
       fold_left (fun index p => trackPartialSession uriOf session p index)
         kept index,
       fold_left (fun seen entry => set_add entry seen) kept watchTargets).
Proof.
  induction partialPaths as [| p partialPaths IH];
    intros tracked index watchTargets; [reflexivity |].
  cbn [fold_left List.filter]. destruct (Str.is_empty p); cbn [negb].
  - apply IH.
  - cbn zeta. cbn [trackedPartials with_trackedPartials map fold_left].
    exact (IH _ _ _).
Qed.

Lemma updateAdditionalWatchers_files host session watchFiles :
  forall watchTargets,
    fold_left
      (fun watchTargets filePath =>
         if Str.is_empty filePath then watchTargets
         else set_add (normalizeFsPath host session filePath) watchTargets)
      watchFiles watchTargets
    = fold_left (fun seen entry => set_add entry seen)
        (map (normalizeFsPath host session)
           (List.filter (fun p => negb (Str.is_empty p)) watchFiles))
        watchTargets.
Proof.
  induction watchFiles as [| f watchFiles IH]; intros watchTargets;
    [reflexivity |].
  cbn [fold_left List.filter]. destruct (Str.is_empty f); cbn [negb].
  - apply IH.
  - cbn [map fold_left]. apply IH.
Qed.

Lemma updateAdditionalWatchers_eq host session watchFiles partialFiles index :
  updateAdditionalWatchers uriOf host session watchFiles partialFiles index
  = let kept := keptPartials host session partialFiles in
    (with_trackedPartials session (uniqueStrings kept),
     fold_left (fun index p => trackPartialSession uriOf session p index) kept
       (fold_left
          (fun index p => untrackPartialSession uriOf session p index)
          (trackedPartials session) index),
     fold_left (fun seen entry => set_add entry seen) kept
       (uniqueStrings
          (map (normalizeFsPath host session)
             (List.filter (fun p => negb (Str.is_empty p)) watchFiles)))).
Proof.
  unfold updateAdditionalWatchers, untrackAllPartials.
  cbn beta iota zeta.
  rewrite (updateAdditionalWatchers_files host
             (with_trackedPartials session [])).
  rewrite (updateAdditionalWatchers_partials host session).
  reflexivity.
Qed.

(** X13.  After [updateAdditionalWatchers], the session is registered in
    the index of partials under exactly the partial files of the new
    recipe, each in normal form: the files of the previous recipe that the
    new one no longer uses are dropped, so a change to such a document no
    longer renders the session again.  The registrations of other sessions
    are untouched and the index keeps no empty bucket. *)
Theorem updateAdditionalWatchers_tracking host session watchFiles
    partialFiles index session' index' watchTargets :
  no_empty_bucket index ->
  registered_for uriOf session (trackedPartials session) index ->
  updateAdditionalWatchers uriOf host session watchFiles partialFiles index
  = (session', index', watchTargets) ->
  no_empty_bucket index'
  /\ registered_for uriOf session' (trackedPartials session') index'
  /\ (forall p,
        In p (trackedPartials session')
        <-> In p (keptPartials host session partialFiles))
  /\ (forall key id,
        id <> session_id session ->
        id ∈ sessions_of index' key <-> id ∈ sessions_of index key).
Proof.
  intros Hne Hreg. rewrite updateAdditionalWatchers_eq. cbn zeta.
  intros [= <- <- <-].
  assert (forall p,
             In p (uniqueStrings (keptPartials host session partialFiles))
             <-> In p (keptPartials host session partialFiles)) as Htracked.
  { intros p. unfold uniqueStrings. rewrite uniqueStrings_fold_In.
    cbn [In]. tauto. }
  split; [| split; [| split]].
  - apply no_empty_bucket_track_all, no_empty_bucket_untrack_all, Hne.
  - intros key. cbn [session_id with_trackedPartials trackedPartials].
    rewrite sessions_of_track_all, sessions_of_untrack_all. split.
    + intros [[Hin Hnot] | (_ & p & Hp & Hu)].
      * exfalso. apply Hnot. split; [reflexivity |]. apply Hreg, Hin.
      * exists p. split; [apply Htracked, Hp | exact Hu].
    + intros (p & Hp & Hu). right. split; [reflexivity |].
      exists p. split; [apply Htracked, Hp | exact Hu].
  - exact Htracked.
  - intros key id Hid.
    rewrite sessions_of_track_all, sessions_of_untrack_all. split.
    + intros [[Hin _] | [Heq _]]; [exact Hin | contradiction].
    + intros Hin. left. split; [exact Hin |]. intros [Heq _]. contradiction.
Qed.

Lemma watchTargets_spec host session watchFiles partialFiles index :
  let watchTargets :=
    snd (updateAdditionalWatchers uriOf host session watchFiles partialFiles
           index) in
  NoDup watchTargets
  /\ (forall target,
        In target watchTargets
        <-> exists filePath,
              (In filePath watchFiles \/ In filePath (map snd partialFiles))
              /\ filePath <> EmptyString
              /\ target = normalizeFsPath host session filePath).
Proof.
  cbn zeta. rewrite updateAdditionalWatchers_eq. cbn [snd].
  assert (forall l target,
             In target
               (map (normalizeFsPath host session)
                  (List.filter (fun p => negb (Str.is_empty p)) l))
             <-> exists filePath,
                   In filePath l /\ filePath <> EmptyString
                   /\ target = normalizeFsPath host session filePath)
    as Hkept.
  { intros l target. rewrite in_map_iff. split.
    - intros (f & <- & Hf). apply filter_In in Hf as [Hf Hne].
      exists f. split; [exact Hf |]. split; [| reflexivity].
      intros ->. discriminate Hne.
    - intros (f & Hf & Hne & ->). exists f. split; [reflexivity |].
      apply filter_In. split; [exact Hf |].
      destruct f; [contradiction | reflexivity]. }
  split.
  - apply uniqueStrings_fold_NoDup. unfold uniqueStrings.
    apply uniqueStrings_fold_NoDup. constructor.
  - intros target. unfold uniqueStrings, keptPartials.
    rewrite !uniqueStrings_fold_In, !Hkept. cbn [In]. split.
    + intros [[[] | (f & Hf & Hrest)] | (f & Hf & Hrest)]; exists f; tauto.
    + intros (f & [Hf | Hf] & Hrest); [left; right | right]; exists f; tauto.
Qed.


(** X15.  For the recipe of a successful load, the watched targets are the
    normal forms of the entries of the recipe's watchFiles, each once:
    entries of watchFiles that name the same file by different spellings, or
    twice, give one target, and the partial files add nothing that
    watchFiles does not already hold. *)
Theorem loaded_watchTargets host modulePath context options st r st' session
    index :
  path.isAbsolute (cwd host) = true ->
  loadTemplateRecipe host modulePath context options st = (Ok r, st') ->
  let watchTargets :=
    snd (updateAdditionalWatchers uriOf host session (Resolved.watchFiles r)
           (Resolved.partialFiles r) index) in
  NoDup watchTargets
  /\ (forall target,
        In target watchTargets
        <-> exists entry,
              In entry (Resolved.watchFiles r)
              /\ target = path.normalize entry).
Proof.
  intros Hcwd Hload. cbn zeta.
  destruct (watchTargets_spec host session (Resolved.watchFiles r)
              (Resolved.partialFiles r) index) as [Hnd Hin].
  split; [exact Hnd |].
  apply loadTemplateRecipe_steps in Hload
    as (recipe & rp & rw & pr & entries & _ & _ & _ & Hpr & _ & _ & _ & _
        & Hfiles & Hwatch).
  assert (forall entry,
             In entry (Resolved.watchFiles r) ->
             path.isAbsolute entry = true) as Habs.
  { intros entry He. rewrite Hwatch in He.
    apply normalizeWatchFiles_In in He as (s & _ & _ & ->).
    apply absoluteWatchFile_absolute, Hcwd. }
  assert (forall p,
             In p (map snd (Resolved.partialFiles r)) ->
             In p (Resolved.watchFiles r)) as Hpartial.
  { intros p Hp. rewrite Hfiles in Hp.
    pose proof (resolvePartials_files_normal _ _ _ _ _ Hpr) as Hnormal.
    rewrite List.Forall_forall in Hnormal.
    destruct (Hnormal p Hp) as [file ->].
    pose proof (partialPath_absolute host modulePath file Hcwd) as Hpabs.
    rewrite Hwatch. apply normalizeWatchFiles_In.
    exists (partialPath host modulePath file).
    split; [| split].
    - rewrite !in_app_iff. right. left. apply in_map. exact Hp.
    - apply absolute_trim_nonempty, Hpabs.
    - unfold absoluteWatchFile. rewrite Hpabs. reflexivity. }
  intros target. rewrite Hin. split.
  - intros (f & [Hf | Hf] & _ & ->).
    + exists f. split; [exact Hf |].
      unfold normalizeFsPath. rewrite (Habs f Hf). reflexivity.
    + apply Hpartial in Hf. exists f. split; [exact Hf |].
      unfold normalizeFsPath. rewrite (Habs f Hf). reflexivity.
  - intros (entry & He & ->). exists entry.
    split; [left; exact He |]. split.
    + intros ->. apply Habs in He. discriminate He.
    + unfold normalizeFsPath. rewrite (Habs entry He). reflexivity.
Qed.

End SessionIndexFacts.

Lemma mail_index_no_empty_bucket : no_empty_bucket mail_index.
Proof.
  intros key bucket H. unfold mail_index in H.
  apply lookup_singleton_Some in H as [_ <-].
  intros Hempty.
  assert (1%nat ∈ ({[ 1%nat; 2%nat ]} : gset nat)) as Hin.
  { rewrite elem_of_union, !elem_of_singleton. left. reflexivity. }
  rewrite Hempty in Hin. exact (not_elem_of_empty _ Hin).
Qed.

Lemma mail_session_registered :
  registered_for file_uri mail_session (trackedPartials mail_session)
    mail_index.
Proof.
  intros key. unfold sessions_of, mail_index. cbn [trackedPartials mail_session
    session_id In].
  destruct (decide (key = file_uri "/proj/partials/old.hbs")) as [-> | Hne].
  - rewrite lookup_singleton_eq. cbv [default from_option id]. split.
    + intros _. exists "/proj/partials/old.hbs". auto.
    + intros _. rewrite elem_of_union, !elem_of_singleton. left. reflexivity.
  - rewrite lookup_singleton_ne by congruence. cbv [default from_option id]. split.
    + intros H. exfalso. exact (not_elem_of_empty _ H).
    + intros (p & [<- | []] & Hp). congruence.
Qed.

Lemma untrack_track_session_witness :
  untrackPartialSession file_uri mail_session "/proj/partials/header.hbs"
    (trackPartialSession file_uri mail_session "/proj/partials/header.hbs"
       mail_index)
  = mail_index.
Proof.
  apply (untrack_track_session file_uri mail_session
           "/proj/partials/header.hbs" mail_index).
  - exact mail_index_no_empty_bucket.
  - unfold sessions_of, mail_index.
    rewrite lookup_singleton_ne by (vm_compute; discriminate).
    apply not_elem_of_empty.
Defined.

Lemma updateAdditionalWatchers_tracking_witness :
  exists session' index' watchTargets,
    updateAdditionalWatchers file_uri partials_host mail_session
      ["/proj/extra.json"] [("header", "/proj/partials/header.hbs")]
      mail_index
    = (session', index', watchTargets)
    /\ no_empty_bucket index'
    /\ registered_for file_uri session' (trackedPartials session') index'
    /\ trackedPartials session' = ["/proj/partials/header.hbs"]
    /\ (2%nat ∈ sessions_of index' (file_uri "/proj/partials/old.hbs")).
Proof.
  destruct (updateAdditionalWatchers file_uri partials_host mail_session
              ["/proj/extra.json"] [("header", "/proj/partials/header.hbs")]
              mail_index) as [[session' index'] watchTargets] eqn:E.
  exists session', index', watchTargets. split; [reflexivity |].
  destruct (updateAdditionalWatchers_tracking file_uri partials_host
              mail_session _ _ mail_index session' index' watchTargets
              mail_index_no_empty_bucket mail_session_registered E)
    as (Hne & Hreg & _ & Hothers).
  split; [exact Hne |]. split; [exact Hreg |]. split.
  - rewrite updateAdditionalWatchers_eq in E. injection E as <- _ _.
    reflexivity.
  - apply Hothers; [discriminate |].
    unfold sessions_of, mail_index. rewrite lookup_singleton_eq.
    cbv [default from_option id]. rewrite elem_of_union, !elem_of_singleton. right. reflexivity.
Defined.


Lemma loaded_watchTargets_witness :
  exists r st',
    loadTemplateRecipe watching_host "/proj/mail.hbs.js" sample_context None
      initialLoaderState = (Ok r, st')
    /\ ~ NoDup (Resolved.watchFiles r)
    /\ NoDup
         (snd (updateAdditionalWatchers file_uri watching_host mail_session
                 (Resolved.watchFiles r) (Resolved.partialFiles r)
                 mail_index))
    /\ snd (updateAdditionalWatchers file_uri watching_host mail_session
              (Resolved.watchFiles r) (Resolved.partialFiles r) mail_index)
       = ["/proj/a.txt"; "/q.txt"; "/proj/dep.ts"; "/proj/helper.ts"].
Proof.
  destruct (loadTemplateRecipe watching_host "/proj/mail.hbs.js"
              sample_context None initialLoaderState) as [[r | e] st'] eqn:E;
    [| vm_compute in E; discriminate].
  exists r, st'. split; [reflexivity |].
  pose proof (loaded_watchTargets file_uri watching_host "/proj/mail.hbs.js"
                sample_context None initialLoaderState r st' mail_session
                mail_index eq_refl E) as [Hnd _].
  split; [| split; [exact Hnd |]].
  - vm_compute in E. injection E as <- _. cbn [Resolved.watchFiles].
    intros H. apply NoDup_cons in H as [Hfirst _]. apply Hfirst.
    apply list_elem_of_In. cbn. auto.
  - vm_compute in E. injection E as <- _. reflexivity.
Defined.

(** X16.  When the working directory is absolute, [normalizeFsPath] returns
    an absolute path in normal form, whatever it is given; applied to its own
    result, or to any absolute path in normal form, it changes nothing. *)
Theorem normalizeFsPath_normal host session targetPath :
  path.isAbsolute (cwd host) = true ->
  let result := normalizeFsPath host session targetPath in
  path.isAbsolute result = true
  /\ path.normalize result = result
  /\ normalizeFsPath host session result = result
  /\ (path.isAbsolute targetPath = true ->
      path.normalize targetPath = targetPath ->
      result = targetPath).
Proof.
  intros Hcwd. cbn zeta.
  assert (path.isAbsolute (normalizeFsPath host session targetPath) = true)
    as Habs.
  { unfold normalizeFsPath. destruct (path.isAbsolute targetPath) eqn:E.
    - apply normalize_isAbsolute, E.
    - apply normalize_isAbsolute, resolve_isAbsolute, Hcwd. }
  assert (path.normalize (normalizeFsPath host session targetPath)
          = normalizeFsPath host session targetPath) as Hnormal.
  { unfold normalizeFsPath.
    destruct (path.isAbsolute targetPath); apply normalize_idempotent. }
  split; [exact Habs |]. split; [exact Hnormal |]. split.
  - unfold normalizeFsPath at 1. rewrite Habs. exact Hnormal.
  - intros Ht Hn. unfold normalizeFsPath. rewrite Ht. exact Hn.
Qed.

Lemma normalizeFsPath_normal_witness :
  normalizeFsPath partials_host mail_session "partials/../extra.json"
  = "/proj/extra.json"
  /\ path.isAbsolute
       (normalizeFsPath partials_host mail_session "partials/../extra.json")
     = true
  /\ normalizeFsPath partials_host mail_session "/proj/extra.json"
     = "/proj/extra.json".
Proof.
  split; [reflexivity |]. split.
  - apply (normalizeFsPath_normal partials_host mail_session
             "partials/../extra.json" eq_refl).
  - apply (normalizeFsPath_normal partials_host mail_session
             "/proj/extra.json" eq_refl); reflexivity.
Defined.

(** ** The candidates for the companion module *)

Lemma split_append_ext t ext :
  no_sep ext ->
  Str.split path.sep (t +:+ ext)
  = leadingSegments t ++ [lastSegment t +:+ ext].
Proof.
  intros Hext. unfold leadingSegments, lastSegment.
  induction t as [| c t IH].
  - rewrite append_nil_l. cbn. apply split_single, Hext.
  - rewrite append_cons. cbn [Str.split]. rewrite IH.
    pose proof (split_nonempty path.sep t) as Hne.
    destruct (Ascii.eqb c path.sep).
    + destruct (Str.split path.sep t) as [| piece more]; [contradiction |].
      reflexivity.
    + destruct (Str.split path.sep t) as [| piece [| piece' more]];
        [contradiction | reflexivity | reflexivity].
Qed.

Lemma normalize_segments_snoc allow segs seg :
  proper seg ->
  path.normalize_segments allow (segs ++ [seg])
  = path.normalize_segments allow segs ++ [seg].
Proof.
  intros Hseg. unfold path.normalize_segments.
  rewrite fold_left_app. cbn [fold_left].
  rewrite proper_step by exact Hseg. reflexivity.
Qed.

Lemma join_snoc segs seg :
  Str.join "/" (segs ++ [seg])
  = match segs with
    | [] => EmptyString
    | _ :: _ => Str.join "/" segs +:+ "/"
    end +:+ seg.
Proof.
  induction segs as [| s segs IH]; [reflexivity |].
  destruct segs as [| s' segs].
  - cbn [app]. rewrite join_cons. cbn [Str.join].
    rewrite append_assoc. reflexivity.
  - change ((s :: s' :: segs) ++ [seg]) with (s :: (s' :: segs) ++ [seg]).
    cbn [app] in *. rewrite join_cons, IH, join_cons.
    rewrite !append_assoc. reflexivity.
Qed.

Lemma is_empty_append s t :
  t <> EmptyString -> Str.is_empty (s +:+ t) = false.
Proof. destruct s; [destruct t; [contradiction | reflexivity] | reflexivity]. Qed.

Lemma plain_extension_nonempty ext : plain_extension ext -> ext <> EmptyString.
Proof. intros [_ H]. destruct (H EmptyString) as [Hne _]. exact Hne. Qed.

Lemma normalize_append_ext t ext :
  plain_extension ext ->
  path.normalize (t +:+ ext) = normalizedStem t +:+ ext.
Proof.
  intros Hplain. pose proof (plain_extension_nonempty ext Hplain) as Hne.
  destruct Hplain as [Hsep Hproper].
  unfold path.normalize, normalizedStem.
  rewrite is_empty_append by exact Hne.
  assert (path.isAbsolute (t +:+ ext) = path.isAbsolute t) as ->.
  { unfold path.isAbsolute. destruct t as [| c t]; [| reflexivity].
    rewrite append_nil_l. apply first_is_no_sep, Hsep. }
  rewrite last_is_app by exact Hne.
  rewrite (last_is_no_sep ext Hsep).
  unfold path.normalizeString.
  rewrite split_append_ext by exact Hsep.
  rewrite normalize_segments_snoc by apply Hproper.
  rewrite join_snoc.
  set (kept := path.normalize_segments (negb (path.isAbsolute t))
                 (leadingSegments t)).
  set (prefix := match kept with
                 | [] => EmptyString
                 | _ :: _ => Str.join "/" kept +:+ "/"
                 end).
  rewrite is_empty_append
    by (intros H; apply (proj1 (Hproper (lastSegment t))); exact H).
  destruct (path.isAbsolute t).
  - rewrite !append_assoc. reflexivity.
  - rewrite append_nil_l, !append_assoc. reflexivity.
Qed.

Lemma plain_extension_suffix c1 c2 :
  c1 <> path.sep -> c2 <> path.sep ->
  plain_extension (String "." (String c1 (String c2 EmptyString))).
Proof.
  intros H1 H2. split.
  - unfold no_sep. cbn [Str.contains_char].
    apply Ascii.eqb_neq in H1, H2. rewrite H1, H2. reflexivity.
  - intros seg.
    assert (3 <= String.length
                   (seg +:+ String "." (String c1 (String c2 EmptyString))))
      as Hlen by (rewrite length_append; cbn [String.length]; lia).
    repeat split; intros Heq; rewrite Heq in Hlen; cbn in Hlen; lia.
Qed.

Lemma plain_extension_js : plain_extension ".js".
Proof. apply plain_extension_suffix; discriminate. Qed.

Lemma plain_extension_ts : plain_extension ".ts".
Proof. apply plain_extension_suffix; discriminate. Qed.

Lemma candidates_differ templatePath :
  path.normalize (templatePath +:+ ".js")
  <> path.normalize (templatePath +:+ ".ts").
Proof.
  rewrite (normalize_append_ext _ _ plain_extension_js).
  rewrite (normalize_append_ext _ _ plain_extension_ts).
  intros H. apply String.app_inj in H. discriminate H.
Qed.

(** X17.  A template has two candidates for its companion module: the
    path of the template followed by .js and by .ts, both in normal form, in
    this order; they are always two different paths.  The .js candidate is
    selected whenever it is open unsaved or exists on disk, whatever the
    state of the .ts candidate; the .ts candidate is looked at only
    otherwise. *)
Theorem deriveModuleCandidates_order templatePath :
  let js := path.normalize (templatePath +:+ ".js") in
  let ts := path.normalize (templatePath +:+ ".ts") in
  deriveModuleCandidates templatePath = [js; ts]
  /\ js <> ts
  /\ (forall host dirtyOverrides,
        is_Some (assoc_lookup js dirtyOverrides)
        \/ fileExists host js = true ->
        fst <$> resolveCompanionModule host
                  (deriveModuleCandidates templatePath) dirtyOverrides
        = Some js)
  /\ (forall host dirtyOverrides,
        assoc_lookup js dirtyOverrides = None ->
        fileExists host js = false ->
        resolveCompanionModule host (deriveModuleCandidates templatePath)
          dirtyOverrides
        = resolveCompanionModule host [ts] dirtyOverrides).
Proof.
  cbn zeta. pose proof (candidates_differ templatePath) as Hne.
  assert (deriveModuleCandidates templatePath
          = [path.normalize (templatePath +:+ ".js");
             path.normalize (templatePath +:+ ".ts")]) as Heq.
  { unfold deriveModuleCandidates, uniqueStrings. cbn [map fold_left].
    unfold set_add at 2. cbn [existsb app]. unfold set_add.
    cbn [existsb].
    destruct (String.eqb _ _) eqn:E; [| reflexivity].
    apply String.eqb_eq in E. exfalso. apply Hne. symmetry. exact E. }
  split; [exact Heq |]. split; [exact Hne |]. rewrite Heq. split.
  - intros host dirtyOverrides Havailable.
    unfold resolveCompanionModule. cbn [fold_right].
    rewrite normalize_idempotent.
    destruct (assoc_lookup (path.normalize (templatePath +:+ ".js"))
                dirtyOverrides) as [override |]; [reflexivity |].
    destruct Havailable as [[x Hx] | ->]; [discriminate Hx | reflexivity].
  - intros host dirtyOverrides Hclean Hmissing.
    unfold resolveCompanionModule. cbn [fold_right].
    rewrite !normalize_idempotent, Hclean, Hmissing. reflexivity.
Qed.

Lemma deriveModuleCandidates_order_witness :
  deriveModuleCandidates "/proj/./mail.hbs"
  = ["/proj/mail.hbs.js"; "/proj/mail.hbs.ts"]
  /\ fst <$> resolveCompanionModule partials_host
               (deriveModuleCandidates "/proj/./mail.hbs")
               [("/proj/mail.hbs.ts", "export default {}")]
     = Some "/proj/mail.hbs.js".
Proof.
  split; [reflexivity |].
  apply (proj1 (proj2 (proj2 (deriveModuleCandidates_order
                                "/proj/./mail.hbs")))).
  right. reflexivity.
Defined.

(** ** The language of a candidate *)

Lemma last_snoc {A} (l : list A) (x d : A) : List.last (l ++ [x]) d = x.
Proof.
  induction l as [| y l IH]; [reflexivity |].
  cbn [app List.last]. destruct (l ++ [x]) eqn:E; [| exact IH].
  destruct l; discriminate E.
Qed.

Lemma basename_part_append p ext :
  plain_extension ext ->
  path.basename_part (p +:+ ext) = lastSegment p +:+ ext.
Proof.
  intros Hplain. pose proof (plain_extension_nonempty ext Hplain) as Hne.
  unfold path.basename_part.
  rewrite split_append_ext by apply Hplain.
  rewrite filter_app. cbn [filter list_filter].
  assert (lastSegment p +:+ ext <> EmptyString) as Hlast.
  { intros H. apply (proj1 (proj2 Hplain (lastSegment p))). exact H. }
  rewrite decide_True.
  - apply last_snoc.
  - destruct (lastSegment p +:+ ext); [contradiction | exact I].
Qed.

Lemma after_last_dot_append l ext :
  path.after_last_dot ext = None ->
  path.after_last_dot (l +:+ String "." ext) = Some ext.
Proof.
  intros Hext. induction l as [| c l IH].
  - rewrite append_nil_l. cbn [path.after_last_dot]. rewrite Hext.
    reflexivity.
  - rewrite append_cons. cbn [path.after_last_dot]. rewrite IH. reflexivity.
Qed.

Lemma extname_append p c1 c2 :
  c1 <> path.sep -> c2 <> path.sep ->
  c1 <> "."%char -> c2 <> "."%char ->
  path.extname (p +:+ String "." (String c1 (String c2 EmptyString)))
  = if Str.is_empty (lastSegment p) then EmptyString
    else String "." (String c1 (String c2 EmptyString)).
Proof.
  intros H1 H2 D1 D2. unfold path.extname.
  rewrite basename_part_append by (apply plain_extension_suffix; assumption).
  rewrite after_last_dot_append.
  - destruct (lastSegment p) as [| d l] eqn:E.
    + rewrite append_nil_l. rewrite String.eqb_refl. reflexivity.
    + cbn [Str.is_empty].
      destruct (String.eqb _ ("." +:+ _)) eqn:E1.
      * apply String.eqb_eq in E1.
        apply (f_equal String.length) in E1.
        rewrite !length_append in E1. cbn [String.length] in E1. lia.
      * destruct (String.eqb _ "..") eqn:E2; [| reflexivity].
        apply String.eqb_eq in E2.
        apply (f_equal String.length) in E2.
        rewrite !length_append in E2. cbn [String.length] in E2. lia.
  - cbn [path.after_last_dot].
    apply Ascii.eqb_neq in D1, D2. rewrite D1, D2. reflexivity.
Qed.

Lemma lastSegment_append s l :
  no_sep l -> lastSegment (s +:+ l) = lastSegment s +:+ l.
Proof.
  intros Hl. unfold lastSegment at 1.
  rewrite split_append_ext by exact Hl. apply last_snoc.
Qed.

Lemma lastSegment_trailing s : lastSegment (s +:+ "/") = EmptyString.
Proof.
  unfold lastSegment. rewrite split_app_sep. cbn [Str.split]. apply last_snoc.
Qed.

Lemma lastSegment_no_sep p : no_sep (lastSegment p).
Proof.
  unfold lastSegment. pose proof (split_no_sep p) as H.
  pose proof (split_nonempty path.sep p) as Hne.
  destruct (Str.split path.sep p) as [| seg segs] using rev_ind;
    [contradiction |].
  rewrite last_snoc. apply Forall_app in H as [_ H].
  apply Forall_cons in H as [H _]. exact H.
Qed.

Lemma lastSegment_stem p : lastSegment (normalizedStem p) = lastSegment p.
Proof.
  unfold normalizedStem.
  set (kept := path.normalize_segments _ _).
  rewrite <- append_assoc.
  rewrite lastSegment_append by apply lastSegment_no_sep.
  replace (lastSegment _) with EmptyString; [reflexivity |].
  symmetry. destruct kept as [| seg kept].
  - destruct (path.isAbsolute p); reflexivity.
  - rewrite <- append_assoc. apply lastSegment_trailing.
Qed.

Lemma extname_candidate templatePath c1 c2 :
  c1 <> path.sep -> c2 <> path.sep ->
  c1 <> "."%char -> c2 <> "."%char ->
  path.extname
    (path.normalize
       (templatePath +:+ String "." (String c1 (String c2 EmptyString))))
  = if Str.is_empty (lastSegment templatePath) then EmptyString
    else String "." (String c1 (String c2 EmptyString)).
Proof.
  intros H1 H2 D1 D2.
  rewrite normalize_append_ext by (apply plain_extension_suffix; assumption).
  rewrite extname_append by assumption.
  rewrite lastSegment_stem. reflexivity.
Qed.

(** X18.  Of the two candidates of a template, the .ts one is always run
    through the TypeScript transpiler and the .js one never is: the program
    executed for the .js candidate is its source as it is.  This holds for
    every template path that has a file name, that is, does not end with a
    separator. *)
Theorem candidate_language host templatePath source workspaceFolder :
  lastSegment templatePath <> EmptyString ->
  executedSource host (path.normalize (templatePath +:+ ".ts")) source
    workspaceFolder
  = transpileTypeScriptModule host source
      (path.normalize (templatePath +:+ ".ts")) workspaceFolder
  /\ executedSource host (path.normalize (templatePath +:+ ".js")) source
       workspaceFolder
     = Ok source.
Proof.
  intros Hname. unfold executedSource.
  rewrite !extname_candidate by discriminate.
  destruct (lastSegment templatePath); [contradiction |].
  cbn [Str.is_empty]. split; reflexivity.
Qed.

Lemma candidate_language_witness :
  lastSegment "/proj/mail.hbs" = "mail.hbs"
  /\ executedSource partials_host (path.normalize "/proj/mail.hbs.ts")
       "export default {}" None
     = transpileTypeScriptModule partials_host "export default {}"
         (path.normalize "/proj/mail.hbs.ts") None
  /\ executedSource partials_host (path.normalize "/proj/mail.hbs.js")
       "module.exports = {}" None
     = Ok "module.exports = {}".
Proof.
  split; [reflexivity |]. split.
  - apply (candidate_language partials_host "/proj/mail.hbs"
             "export default {}" None).
    vm_compute. discriminate.
  - apply (candidate_language partials_host "/proj/mail.hbs"
             "module.exports = {}" None).
    vm_compute. discriminate.
Defined.

(** ** The caches of the compiler *)

Lemma findTsConfigPath_loop_keeps host searchOrder :
  forall st,
    (forall key cached,
        TsCompiler.configLookupCache st !! key = Some cached ->
        TsCompiler.configLookupCache
          (snd (TsCompiler.findTsConfigPath_loop host searchOrder st)) !! key
        = Some cached)
    /\ TsCompiler.compilerContextCache
         (snd (TsCompiler.findTsConfigPath_loop host searchOrder st))
       = TsCompiler.compilerContextCache st.
Proof.
  induction searchOrder as [| searchRoot more IH]; intros st; [auto |].
  cbn [TsCompiler.findTsConfigPath_loop].
  set (key0 := path.resolve (TsCompiler.cwd host) [searchRoot]).
  destruct (TsCompiler.configLookupCache st !! key0) as [cached0 |] eqn:E0.
  - destruct (TsCompiler.truthy cached0); [auto | apply IH].
  - set (st0 := TsCompiler.set_lookup key0
                  (TsCompiler.findConfigFile host searchRoot) st).
    assert (forall key cached,
               TsCompiler.configLookupCache st !! key = Some cached ->
               TsCompiler.configLookupCache st0 !! key = Some cached) as Hkeep.
    { intros key cached H. cbn [st0 TsCompiler.set_lookup
                                  TsCompiler.configLookupCache].
      rewrite lookup_insert_ne; [exact H |]. intros <-. congruence. }
    destruct (TsCompiler.truthy (TsCompiler.findConfigFile host searchRoot)).
    + cbn [snd]. auto.
    + destruct (IH st0) as [Hl Hc]. split.
      * intros key cached H. apply Hl, Hkeep, H.
      * rewrite Hc. reflexivity.
Qed.

Lemma findTsConfigPath_loop_cached host host' searchOrder :
  TsCompiler.cwd host' = TsCompiler.cwd host ->
  forall st,
    TsCompiler.findTsConfigPath_loop host' searchOrder
      (snd (TsCompiler.findTsConfigPath_loop host searchOrder st))
    = TsCompiler.findTsConfigPath_loop host searchOrder st.
Proof.
  intros Hcwd.
  induction searchOrder as [| searchRoot more IH]; intros st; [reflexivity |].
  cbn [TsCompiler.findTsConfigPath_loop]. rewrite Hcwd.
  set (key0 := path.resolve (TsCompiler.cwd host) [searchRoot]).
  destruct (TsCompiler.configLookupCache st !! key0) as [cached0 |] eqn:E0.
  - destruct (TsCompiler.truthy cached0) as [found |] eqn:Et.
    + cbn [snd]. rewrite E0, Et. reflexivity.
    + destruct (findTsConfigPath_loop_keeps host more st) as [Hkeep _].
      rewrite (Hkeep _ _ E0), Et. apply IH.
  - set (st0 := TsCompiler.set_lookup key0
                  (TsCompiler.findConfigFile host searchRoot) st).
    assert (TsCompiler.configLookupCache st0 !! key0
            = Some (TsCompiler.findConfigFile host searchRoot)) as E1
      by apply lookup_insert_eq.
    destruct (TsCompiler.truthy (TsCompiler.findConfigFile host searchRoot))
      as [found |] eqn:Et.
    + cbn [snd]. rewrite E1, Et. reflexivity.
    + destruct (findTsConfigPath_loop_keeps host more st0) as [Hkeep _].
      rewrite (Hkeep _ _ E1), Et. apply IH.
Qed.

(** X19.  The search for [tsconfig.json] is answered from the cache once it
    was made: repeated in the state it left, it gives the same answer and
    leaves the state as it is, whatever files can be found by then.  A
    [tsconfig.json] that is created or removed afterwards is not noticed. *)
Theorem findTsConfigPath_cached host findConfigFile' filePath workspaceFolder
    st :
  TsCompiler.findTsConfigPath (with_findConfigFile host findConfigFile')
    filePath workspaceFolder
    (snd (TsCompiler.findTsConfigPath host filePath workspaceFolder st))
  = TsCompiler.findTsConfigPath host filePath workspaceFolder st.
Proof.
  unfold TsCompiler.findTsConfigPath.
  apply findTsConfigPath_loop_cached. reflexivity.
Qed.

Lemma findTsConfigPath_contexts host filePath workspaceFolder st :
  TsCompiler.compilerContextCache
    (snd (TsCompiler.findTsConfigPath host filePath workspaceFolder st))
  = TsCompiler.compilerContextCache st.
Proof. unfold TsCompiler.findTsConfigPath. apply findTsConfigPath_loop_keeps. Qed.

Lemma commonjs_cache_set key context st :
  TsCompiler.options context !! "module" = Some "CommonJS" ->
  commonjs_cache st -> commonjs_cache (TsCompiler.set_context key context st).
Proof.
  intros Hc Hst k c. cbn [TsCompiler.set_context TsCompiler.compilerContextCache].
  destruct (decide (k = key)) as [-> | Hk].
  - rewrite lookup_insert_eq. intros [= <-]. exact Hc.
  - rewrite lookup_insert_ne by congruence. apply Hst.
Qed.

(** X20.  Whatever module format a [tsconfig.json] asks for, every compiler
    context that [getCompilerContext] returns has the format CommonJS, in
    any state of the caches reached from the empty ones: the property holds
    of the empty caches and is kept by every call. *)
Theorem getCompilerContext_commonjs host filePath workspaceFolder st context
    st' :
  commonjs_cache st ->
  TsCompiler.getCompilerContext host filePath workspaceFolder st
  = (Ok context, st') ->
  TsCompiler.options context !! "module" = Some "CommonJS"
  /\ commonjs_cache st'.
Proof.
  intros Hst. unfold TsCompiler.getCompilerContext.
  pose proof (findTsConfigPath_contexts host filePath workspaceFolder st)
    as Hctx.
  destruct (TsCompiler.findTsConfigPath host filePath workspaceFolder st)
    as [configPath st1]. cbn [snd] in Hctx.
  assert (commonjs_cache st1) as Hst1.
  { intros k c. rewrite Hctx. apply Hst. }
  destruct configPath as [configPath |].
  - set (baseKey := "config::" +:+ path.normalize configPath).
    destruct (TsCompiler.compilerContextCache st1 !! baseKey)
      as [cachedBase |] eqn:Ebase.
    + destruct (match TsCompiler.truthy (TsCompiler.originalRootDir cachedBase)
                with
                | Some rootDir =>
                    TsCompiler.isWithinDirectory host filePath rootDir
                | None => true
                end).
      * intros [= <- <-]. split; [apply (Hst1 _ _ Ebase) | exact Hst1].
      * destruct (TsCompiler.compilerContextCache st1
                    !! (baseKey +:+ "::noRootDir")) as [cachedRootless |]
          eqn:Erootless.
        -- intros [= <- <-]. split; [apply (Hst1 _ _ Erootless) | exact Hst1].
        -- destruct (TsCompiler.parseConfigFile host _ _) as [parsed | e];
             [| discriminate].
           destruct (TsCompiler.truthy (<["module" := "CommonJS"]> parsed
                                          !! "rootDir")) as [rootDir |].
           ++ destruct (TsCompiler.isWithinDirectory host filePath _);
                cbn [negb]; intros [= <- <-];
                (split; [| apply commonjs_cache_set; [| exact Hst1]]);
                cbn [TsCompiler.options];
                rewrite ?lookup_delete_ne by discriminate;
                apply lookup_insert_eq.
           ++ intros [= <- <-].
              split; [| apply commonjs_cache_set; [| exact Hst1]];
                cbn [TsCompiler.options]; apply lookup_insert_eq.
    + destruct (TsCompiler.compilerContextCache st1
                  !! (baseKey +:+ "::noRootDir")) as [cachedRootless |]
        eqn:Erootless.
      * intros [= <- <-]. split; [apply (Hst1 _ _ Erootless) | exact Hst1].
      * destruct (TsCompiler.parseConfigFile host _ _) as [parsed | e];
          [| discriminate].
        destruct (TsCompiler.truthy (<["module" := "CommonJS"]> parsed
                                       !! "rootDir")) as [rootDir |].
        -- destruct (TsCompiler.isWithinDirectory host filePath _);
             cbn [negb]; intros [= <- <-];
             (split; [| apply commonjs_cache_set; [| exact Hst1]]);
             cbn [TsCompiler.options];
             rewrite ?lookup_delete_ne by discriminate;
             apply lookup_insert_eq.
        -- intros [= <- <-].
           split; [| apply commonjs_cache_set; [| exact Hst1]];
             cbn [TsCompiler.options]; apply lookup_insert_eq.
  - destruct (TsCompiler.compilerContextCache st1 !! _) as [cached |]
      eqn:Ecached.
    + intros [= <- <-]. split; [apply (Hst1 _ _ Ecached) | exact Hst1].
    + intros [= <- <-].
      split; [| apply commonjs_cache_set; [| exact Hst1]];
        cbn [TsCompiler.options]; reflexivity.
Qed.

Lemma getCompilerContext_commonjs_witness :
  project_config !! "module" = Some "ESNext"
  /\ exists context st',
       TsCompiler.getCompilerContext project_host "/proj/src/util/helper.ts"
         None TsCompiler.initialState = (Ok context, st')
       /\ TsCompiler.options context !! "module" = Some "CommonJS"
       /\ commonjs_cache st'.
Proof.
  split; [reflexivity |].
  destruct (TsCompiler.getCompilerContext project_host
              "/proj/src/util/helper.ts" None TsCompiler.initialState)
    as [[context | e] st'] eqn:E; [| vm_compute in E; discriminate].
  exists context, st'. split; [reflexivity |].
  apply (getCompilerContext_commonjs project_host "/proj/src/util/helper.ts"
           None TsCompiler.initialState context st'); [| exact E].
  intros key c H. cbn in H. rewrite lookup_empty in H. discriminate H.
Defined.

Lemma getCompilerContext_contextFor host filePath workspaceFolder st :
  TsCompiler.getCompilerContext host filePath workspaceFolder st
  = contextFor host filePath workspaceFolder
      (fst (TsCompiler.findTsConfigPath host filePath workspaceFolder st))
      (snd (TsCompiler.findTsConfigPath host filePath workspaceFolder st)).
Proof.
  unfold TsCompiler.getCompilerContext.
  destruct (TsCompiler.findTsConfigPath host filePath workspaceFolder st)
    as [configPath st1].
  reflexivity.
Qed.

Lemma findTsConfigPath_loop_contexts host searchOrder contexts :
  forall st,
    TsCompiler.findTsConfigPath_loop host searchOrder
      {| TsCompiler.configLookupCache := TsCompiler.configLookupCache st;
         TsCompiler.compilerContextCache := contexts |}
    = (fst (TsCompiler.findTsConfigPath_loop host searchOrder st),
       {| TsCompiler.configLookupCache :=
            TsCompiler.configLookupCache
              (snd (TsCompiler.findTsConfigPath_loop host searchOrder st));
          TsCompiler.compilerContextCache := contexts |}).
Proof.
  induction searchOrder as [| searchRoot more IH]; intros st; [reflexivity |].
  cbn [TsCompiler.findTsConfigPath_loop TsCompiler.configLookupCache].
  destruct (TsCompiler.configLookupCache st !! _) as [cached0 |].
  - destruct (TsCompiler.truthy cached0); [reflexivity | apply IH].
  - destruct (TsCompiler.truthy (TsCompiler.findConfigFile host searchRoot));
      [reflexivity |].
    apply (IH (TsCompiler.set_lookup _ _ st)).
Qed.

(** After the context was looked up, the search for the configuration file
    gives the same answer and changes nothing. *)
Lemma findTsConfigPath_after host filePath workspaceFolder st st2 :
  TsCompiler.configLookupCache st2
  = TsCompiler.configLookupCache
      (snd (TsCompiler.findTsConfigPath host filePath workspaceFolder st)) ->
  TsCompiler.findTsConfigPath host filePath workspaceFolder st2
  = (fst (TsCompiler.findTsConfigPath host filePath workspaceFolder st), st2).
Proof.
  intros Hsame.
  unfold TsCompiler.findTsConfigPath in *.
  set (searchOrder := path.dirname filePath :: _) in *.
  set (st1 := snd (TsCompiler.findTsConfigPath_loop host searchOrder st)) in *.
  assert (TsCompiler.findTsConfigPath_loop host searchOrder st1
          = TsCompiler.findTsConfigPath_loop host searchOrder st) as Hrep.
  { apply findTsConfigPath_loop_cached. reflexivity. }
  destruct st2 as [lookups contexts]. cbn [TsCompiler.configLookupCache] in Hsame.
  subst lookups.
  rewrite findTsConfigPath_loop_contexts, Hrep. reflexivity.
Qed.

Lemma rootless_key_differs baseKey : baseKey +:+ "::noRootDir" <> baseKey.
Proof.
  intros H. apply (f_equal String.length) in H.
  rewrite length_append in H. cbn [String.length] in H. lia.
Qed.

Lemma contextFor_lookups host filePath workspaceFolder configPath st :
  TsCompiler.configLookupCache
    (snd (contextFor host filePath workspaceFolder configPath st))
  = TsCompiler.configLookupCache st.
Proof.
  unfold contextFor. destruct configPath as [configPath |].
  - cbv zeta.
    destruct (TsCompiler.compilerContextCache st !! _) as [cachedBase |].
    + destruct (match TsCompiler.truthy (TsCompiler.originalRootDir cachedBase)
                with
                | Some rootDir =>
                    TsCompiler.isWithinDirectory host filePath rootDir
                | None => true
                end); [reflexivity |].
      destruct (TsCompiler.compilerContextCache st !! _); [reflexivity |].
      destruct (TsCompiler.parseConfigFile host _ _); [| reflexivity].
      destruct (TsCompiler.truthy _); [| reflexivity].
      destruct (TsCompiler.isWithinDirectory host filePath _); reflexivity.
    + destruct (TsCompiler.compilerContextCache st !! _); [reflexivity |].
      destruct (TsCompiler.parseConfigFile host _ _); [| reflexivity].
      destruct (TsCompiler.truthy _); [| reflexivity].
      destruct (TsCompiler.isWithinDirectory host filePath _); reflexivity.
  - cbv zeta.
    destruct (TsCompiler.compilerContextCache st !! _); reflexivity.
Qed.

Lemma contextFor_repeat host filePath workspaceFolder configPath st :
  contextFor host filePath workspaceFolder configPath
    (snd (contextFor host filePath workspaceFolder configPath st))
  = contextFor host filePath workspaceFolder configPath st.
Proof.
  unfold contextFor. destruct configPath as [configPath |]; cbv zeta.
  - set (baseKey := "config::" +:+ path.normalize configPath).
    set (baseDir := path.dirname (path.normalize configPath)).
    pose proof (rootless_key_differs baseKey) as Hkeys.
    destruct (TsCompiler.compilerContextCache st !! baseKey)
      as [cachedBase |] eqn:Ebase.
    + destruct (match TsCompiler.truthy (TsCompiler.originalRootDir cachedBase)
                with
                | Some rootDir =>
                    TsCompiler.isWithinDirectory host filePath rootDir
                | None => true
                end) eqn:Euse.
      * cbn [snd]. rewrite Ebase, Euse. reflexivity.
      * destruct (TsCompiler.compilerContextCache st
                    !! (baseKey +:+ "::noRootDir")) as [cachedRootless |]
          eqn:Erootless.
        -- cbn [snd]. rewrite Ebase, Euse, Erootless. reflexivity.
        -- destruct (TsCompiler.parseConfigFile host
                       (path.normalize configPath) baseDir)
             as [parsed | e] eqn:Eparse.
           ++ destruct (TsCompiler.truthy (<["module" := "CommonJS"]> parsed
                                             !! "rootDir"))
                as [rootDir |] eqn:Eroot.
              ** destruct (TsCompiler.isWithinDirectory host filePath
                            (path.resolve (TsCompiler.cwd host)
                               [baseDir; rootDir])) eqn:Ewithin;
                   cbn [negb snd TsCompiler.set_context
                        TsCompiler.compilerContextCache].
                 --- rewrite lookup_insert_eq.
                     cbn [TsCompiler.originalRootDir].
                     destruct (TsCompiler.truthy
                                 (Some (path.resolve (TsCompiler.cwd host)
                                          [baseDir; rootDir])))
                       as [root |] eqn:Et; [| reflexivity].
                     assert (root = path.resolve (TsCompiler.cwd host)
                                      [baseDir; rootDir]) as ->.
                     { cbn [TsCompiler.truthy] in Et.
                       destruct (Str.is_empty _); congruence. }
                     rewrite Ewithin. reflexivity.
                 --- rewrite lookup_insert_ne by exact Hkeys.
                     rewrite Ebase, Euse, lookup_insert_eq.
                     reflexivity.
              ** cbn [snd TsCompiler.set_context
                      TsCompiler.compilerContextCache].
                 rewrite lookup_insert_eq. reflexivity.
           ++ cbn [snd]. rewrite Ebase, Euse, Erootless. reflexivity.
    + destruct (TsCompiler.compilerContextCache st
                  !! (baseKey +:+ "::noRootDir")) as [cachedRootless |]
        eqn:Erootless.
      * cbn [snd]. rewrite Ebase, Erootless. reflexivity.
      * destruct (TsCompiler.parseConfigFile host
                    (path.normalize configPath) baseDir)
          as [parsed | e] eqn:Eparse.
        -- destruct (TsCompiler.truthy (<["module" := "CommonJS"]> parsed
                                          !! "rootDir"))
             as [rootDir |] eqn:Eroot.
           ++ destruct (TsCompiler.isWithinDirectory host filePath
                          (path.resolve (TsCompiler.cwd host)
                             [baseDir; rootDir])) eqn:Ewithin;
                cbn [negb snd TsCompiler.set_context
                     TsCompiler.compilerContextCache].
              ** rewrite lookup_insert_eq.
                 cbn [TsCompiler.originalRootDir].
                 destruct (TsCompiler.truthy
                             (Some (path.resolve (TsCompiler.cwd host)
                                      [baseDir; rootDir])))
                   as [root |] eqn:Et; [| reflexivity].
                 assert (root = path.resolve (TsCompiler.cwd host)
                                  [baseDir; rootDir]) as ->.
                 { cbn [TsCompiler.truthy] in Et.
                   destruct (Str.is_empty _); congruence. }
                 rewrite Ewithin. reflexivity.
              ** rewrite lookup_insert_ne by exact Hkeys.
                 rewrite Ebase, lookup_insert_eq. reflexivity.
           ++ cbn [snd TsCompiler.set_context
                   TsCompiler.compilerContextCache].
              rewrite lookup_insert_eq. reflexivity.
        -- cbn [snd]. rewrite Ebase, Erootless. reflexivity.
  - destruct (TsCompiler.compilerContextCache st !! _) as [cached |]
      eqn:Ecached.
    + cbn [snd]. rewrite Ecached. reflexivity.
    + cbn [snd TsCompiler.set_context TsCompiler.compilerContextCache].
      rewrite lookup_insert_eq. reflexivity.
Qed.

(** X21.  [getCompilerContext] is answered from its caches the second
    time: called again for the same file in the state it left, it returns
    the same context, or fails with the same error, and leaves the caches as
    they are. *)
Theorem getCompilerContext_repeat host filePath workspaceFolder st :
  TsCompiler.getCompilerContext host filePath workspaceFolder
    (snd (TsCompiler.getCompilerContext host filePath workspaceFolder st))
  = TsCompiler.getCompilerContext host filePath workspaceFolder st.
Proof.
  rewrite (getCompilerContext_contextFor host filePath workspaceFolder st).
  set (configPath :=
         fst (TsCompiler.findTsConfigPath host filePath workspaceFolder st)).
  set (st1 :=
         snd (TsCompiler.findTsConfigPath host filePath workspaceFolder st)).
  set (st2 := snd (contextFor host filePath workspaceFolder configPath st1)).
  rewrite (getCompilerContext_contextFor host filePath workspaceFolder st2).
  rewrite (findTsConfigPath_after host filePath workspaceFolder st st2)
    by apply contextFor_lookups.
  cbn [fst snd]. apply contextFor_repeat.
Qed.

(** ** Paths below a directory *)

Lemma strip_common_spec from to :
  exists common,
    from = common ++ fst (path.strip_common from to)
    /\ to = common ++ snd (path.strip_common from to)
    /\ match path.strip_common from to with
       | (u :: _, d :: _) => u <> d
       | _ => True
       end.
Proof.
  revert to. induction from as [| f from IH]; intros to.
  - exists []. destruct to; cbn; auto.
  - destruct to as [| t to]; [exists []; cbn; auto |].
    cbn [path.strip_common].
    destruct (String.eqb f t) eqn:E.
    + apply String.eqb_eq in E. subst t.
      destruct (IH to) as (common & Hf & Ht & Hd).
      exists (f :: common). cbn [app]. split; [congruence |].
      split; [congruence | exact Hd].
    + apply String.eqb_neq in E. exists []. cbn. auto.
Qed.

Lemma segments_of_plain p :
  Forall (fun seg => no_sep seg /\ seg <> EmptyString) (path.segments_of p).
Proof.
  unfold path.segments_of. apply Forall_forall. intros seg Hseg.
  apply list_elem_of_filter in Hseg as [Hne Hin]. split.
  - pose proof (split_no_sep p) as H. rewrite Forall_forall in H.
    apply H, Hin.
  - intros ->. exact Hne.
Qed.

Lemma prefix_nil s : String.prefix EmptyString s = true.
Proof. destruct s; reflexivity. Qed.

Lemma startsWith_dots_join seg segs :
  no_sep seg -> seg <> EmptyString ->
  Str.startsWith (Str.join "/" (seg :: segs)) ".." = Str.startsWith seg "..".
Proof.
  intros Hsep Hne. destruct segs as [| seg' segs]; [reflexivity |].
  rewrite join_cons. unfold Str.startsWith.
  destruct seg as [| c [| c' seg]]; [contradiction | |].
  - rewrite append_cons, append_nil_l. cbn [String.prefix].
    destruct (ascii_dec "." c); [| reflexivity].
    destruct (ascii_dec "." path.sep) as [Habs |]; [discriminate Habs |].
    reflexivity.
  - rewrite !append_cons. cbn [String.prefix].
    destruct (ascii_dec "." c); [| reflexivity].
    destruct (ascii_dec "." c'); [| reflexivity].
    rewrite !prefix_nil. reflexivity.
Qed.

Lemma join_ups_dots ups down :
  ups <> [] ->
  Str.is_empty (Str.join "/" (map (fun _ : string => "..") ups ++ down))
  = false
  /\ Str.startsWith (Str.join "/" (map (fun _ : string => "..") ups ++ down))
       ".." = true.
Proof.
  destruct ups as [| u ups]; [contradiction |]. intros _.
  cbn [map app].
  destruct (map (fun _ : string => "..") ups ++ down) as [| seg segs];
    [split; reflexivity |].
  rewrite join_cons. split; reflexivity.
Qed.

(** X22.  [isWithinDirectory] holds exactly when the segments of the
    absolute form of the directory are the first segments of those of the
    file, and the segment of the file that follows them, if there is one,
    does not have a name that starts with two dots. *)
Theorem isWithinDirectory_spec host filePath directory :
  TsCompiler.isWithinDirectory host filePath directory = true
  <-> exists rest,
        resolvedSegments (TsCompiler.cwd host) filePath
        = resolvedSegments (TsCompiler.cwd host) directory ++ rest
        /\ plain_descent rest.
Proof.
  unfold TsCompiler.isWithinDirectory, path.relative, resolvedSegments.
  set (from := path.resolve (TsCompiler.cwd host) [directory]).
  set (to := path.resolve (TsCompiler.cwd host) [filePath]).
  assert (forall rest, path.segments_of to = path.segments_of to ++ rest ->
                       rest = []) as Hnil.
  { intros rest H. rewrite <- (app_nil_r (path.segments_of to)) in H at 1.
    apply app_inv_head in H. congruence. }
  destruct (String.eqb directory filePath) eqn:Eraw.
  - apply String.eqb_eq in Eraw. subst to from. rewrite Eraw.
    cbn [Str.is_empty]. split; [intros _ | reflexivity].
    exists []. rewrite app_nil_r. split; [reflexivity | exact I].
  - destruct (String.eqb from to) eqn:Eres.
    + apply String.eqb_eq in Eres. rewrite Eres.
      cbn [Str.is_empty]. split; [intros _ | reflexivity].
      exists []. rewrite app_nil_r. split; [reflexivity | exact I].
    + destruct (strip_common_spec (path.segments_of from)
                  (path.segments_of to)) as (common & Hfrom & Hto & Hdiff).
      pose proof (segments_of_plain to) as Hplain.
      destruct (path.strip_common (path.segments_of from)
                  (path.segments_of to)) as [ups down].
      cbn [fst snd] in Hfrom, Hto.
      destruct ups as [| u ups].
      * rewrite app_nil_r in Hfrom. subst common. cbn [map app].
        destruct down as [| d down].
        -- cbn [Str.join Str.is_empty]. split; [intros _ | reflexivity].
           exists []. split; [exact Hto | exact I].
        -- rewrite Hto in Hplain. apply Forall_app in Hplain as [_ Hplain].
           apply Forall_cons in Hplain as [[Hsep Hne] Hplain].
           assert (Forall no_sep (d :: down)
                   /\ Forall (fun seg => seg <> EmptyString) (d :: down))
             as [Hseps Hnes].
           { split; constructor; try assumption;
               eapply Forall_impl; try exact Hplain; cbn; tauto. }
           assert (Str.is_empty (Str.join "/" (d :: down)) = false) as ->.
           { destruct (Str.join "/" (d :: down)) eqn:Ej; [| reflexivity].
             exfalso. revert Ej. apply join_nonempty; [discriminate |].
             exact Hnes. }
           unfold path.isAbsolute. rewrite (join_first _ Hseps Hnes).
           rewrite startsWith_dots_join by assumption.
           rewrite andb_true_r, negb_true_iff. split.
           ++ intros Hd. exists (d :: down). split; [exact Hto | exact Hd].
           ++ intros (rest & Hrest & Hd). rewrite Hto in Hrest.
              apply app_inv_head in Hrest. subst rest. exact Hd.
      * destruct (join_ups_dots (u :: ups) down) as [-> ->]; [discriminate |].
        cbn [negb andb]. split; [discriminate |].
        intros (rest & Hrest & _). exfalso.
        rewrite Hto, Hfrom, <- app_assoc in Hrest.
        apply app_inv_head in Hrest. subst down.
        cbn [app] in Hdiff. apply Hdiff. reflexivity.
Qed.

Lemma isWithinDirectory_spec_witness :
  TsCompiler.isWithinDirectory project_host "/proj/src/util/helper.ts"
    "/proj/src/" = true
  /\ ~ plain_descent ["..cache"; "helper.ts"].
Proof.
  split.
  - apply (proj2 (isWithinDirectory_spec project_host
                    "/proj/src/util/helper.ts" "/proj/src/")).
    exists ["util"; "helper.ts"]. split; reflexivity.
  - intros H. discriminate H.
Defined.

(** ** The TypeScript hooks of the loader *)






(** X25.  The source overrides of a load are those of its root: inside the
    frame that a load opens, [getModuleOverride] finds for a file what
    [findOverride] finds in the overrides given to the load, by the file's
    normalized path; inside the frame of a module required while another is
    being loaded, it finds what it finds in the enclosing frame, although
    that frame is opened without overrides; a module required outside of any
    load has none. *)
Theorem getModuleOverride_inherited filePath :
  (forall modulePath moduleSourceOverrides st,
      fst (withModuleLoadFrame modulePath true moduleSourceOverrides
             (fun s => (Ok (getModuleOverride filePath s), s)) st)
      = Ok (findOverride moduleSourceOverrides (path.normalize filePath)))
  /\ (forall filename st top rest,
        moduleLoadStack st = top :: rest ->
        fst (withModuleLoadFrame filename false None
               (fun s => (Ok (getModuleOverride filePath s), s)) st)
        = Ok (getModuleOverride filePath st))
  /\ (forall filename treatAsRoot st,
        moduleLoadStack st = [] ->
        fst (withModuleLoadFrame filename treatAsRoot None
               (fun s => (Ok (getModuleOverride filePath s), s)) st)
        = Ok None).
Proof.
  split; [| split].
  - intros modulePath moduleSourceOverrides st.
    unfold withModuleLoadFrame. cbn beta iota zeta. cbn [fst]. f_equal.
    unfold getModuleOverride, findOverride.
    cbn [moduleLoadStack frame_context contexts].
    rewrite (list_lookup_middle (contexts st) [] _ _ eq_refl).
    cbn [mbind option_bind overrides].
    destruct moduleSourceOverrides; reflexivity.
  - intros filename st top rest Hstack.
    unfold withModuleLoadFrame. rewrite Hstack. cbn beta iota zeta.
    cbn [fst]. f_equal. unfold getModuleOverride. rewrite Hstack.
    reflexivity.
  - intros filename treatAsRoot st Hstack.
    unfold withModuleLoadFrame. rewrite Hstack.
    destruct treatAsRoot; cbn beta iota zeta; cbn [fst]; f_equal;
      unfold getModuleOverride;
      cbn [moduleLoadStack frame_context contexts];
      rewrite (list_lookup_middle (contexts st) [] _ _ eq_refl);
      reflexivity.
Qed.

Lemma getModuleOverride_inherited_witness :
  fst (withModuleLoadFrame "/proj/lib/format.ts" false None
         (fun s => (Ok (getModuleOverride "/proj/lib/format.ts" s), s))
         loading_state)
  = Ok (Some "export const unsaved = 1").
Proof.
  rewrite (proj1 (proj2 (getModuleOverride_inherited "/proj/lib/format.ts"))
             "/proj/lib/format.ts" loading_state
             {| frame_modulePath := "/proj/mail.hbs.ts"; frame_context := 0;
                isRoot := true |} [] eq_refl).
  reflexivity.
Defined.

(** ** Opening and disposing of a session *)

Section SessionLifecycle.

Variable uriOf : string -> string.




(** X27.  Disposing of a session that is registered under its tracked
    module URIs and partial files takes it out of every bucket of both
    indexes, leaves the registrations of the other sessions as they are,
    and leaves no empty bucket behind. *)
Theorem disposeSession_forgets session moduleIndex partialIndex session'
    moduleIndex' partialIndex' :
  no_empty_bucket moduleIndex ->
  no_empty_bucket partialIndex ->
  registered_for (fun key => key) session (trackedModuleUris session)
    moduleIndex ->
  registered_for uriOf session (trackedPartials session) partialIndex ->
  disposeSession uriOf session moduleIndex partialIndex
  = (session', moduleIndex', partialIndex') ->
  (forall key,
      (session_id session ∉ sessions_of moduleIndex' key)
      /\ (session_id session ∉ sessions_of partialIndex' key))
  /\ (forall key id,
        id <> session_id session ->
        (id ∈ sessions_of moduleIndex' key <-> id ∈ sessions_of moduleIndex key)
        /\ (id ∈ sessions_of partialIndex' key
            <-> id ∈ sessions_of partialIndex key))
  /\ no_empty_bucket moduleIndex'
  /\ no_empty_bucket partialIndex'
  /\ trackedModuleUris session' = []
  /\ trackedPartials session' = [].
Proof.
  intros Hnm Hnp Hrm Hrp. unfold disposeSession, untrackModuleSessions,
    untrackAllPartials. cbn beta iota zeta.
  cbn [trackedPartials with_trackedModuleUris].
  intros [= <- <- <-].
  change (fun index key => untrackSession key session index)
    with (fun index key =>
            untrackPartialSession (fun key => key) session key index).
  change (fun index partialPath =>
            untrackPartialSession uriOf (with_trackedModuleUris session [])
              partialPath index)
    with (fun index partialPath =>
            untrackPartialSession uriOf session partialPath index).
  split; [| split; [| split; [| split; [| split]]]].
  - intros key. rewrite !sessions_of_untrack_all. split.
    + intros [Hin Hnot]. apply Hnot. split; [reflexivity |].
      apply Hrm, Hin.
    + intros [Hin Hnot]. apply Hnot. split; [reflexivity |].
      apply Hrp, Hin.
  - intros key id Hid. rewrite !sessions_of_untrack_all. split; split;
      try (intros [H _]; exact H);
      intros H; (split; [exact H |]); intros [Heq _]; contradiction.
  - apply (no_empty_bucket_untrack_all (fun key => key)), Hnm.
  - apply no_empty_bucket_untrack_all, Hnp.
  - reflexivity.
  - reflexivity.
Qed.

End SessionLifecycle.

Lemma mail_module_index_no_empty_bucket : no_empty_bucket mail_module_index.
Proof.
  intros key bucket H. unfold mail_module_index in H.
  apply lookup_insert_Some in H as [[_ <-] | [_ H]].
  - intros Hempty.
    assert (1%nat ∈ ({[ 1%nat; 2%nat ]} : gset nat)) as Hin.
    { rewrite elem_of_union, !elem_of_singleton. left. reflexivity. }
    rewrite Hempty in Hin. exact (not_elem_of_empty _ Hin).
  - apply lookup_singleton_Some in H as [_ <-]. intros Hempty.
    assert (1%nat ∈ ({[ 1%nat ]} : gset nat)) as Hin.
    { apply elem_of_singleton. reflexivity. }
    rewrite Hempty in Hin. exact (not_elem_of_empty _ Hin).
Qed.

Lemma mail_session_modules_registered :
  registered_for (fun key => key) mail_session
    (trackedModuleUris mail_session) mail_module_index.
Proof.
  intros key. unfold sessions_of, mail_module_index.
  cbn [trackedModuleUris mail_session session_id In].
  destruct (decide (key = file_uri "/proj/mail.hbs.js")) as [-> | Hjs].
  - rewrite lookup_insert_eq. cbv [default from_option id]. split.
    + intros _. exists (file_uri "/proj/mail.hbs.js"). auto.
    + intros _. rewrite elem_of_union, !elem_of_singleton. left. reflexivity.
  - rewrite lookup_insert_ne by congruence.
    destruct (decide (key = file_uri "/proj/mail.hbs.ts")) as [-> | Hts].
    + rewrite lookup_singleton_eq. cbv [default from_option id]. split.
      * intros _. exists (file_uri "/proj/mail.hbs.ts"). auto.
      * intros _. apply elem_of_singleton. reflexivity.
    + rewrite lookup_singleton_ne by congruence.
      cbv [default from_option id]. split.
      * intros H. exfalso. exact (not_elem_of_empty _ H).
      * intros (p & [<- | [<- | []]] & Hp); congruence.
Qed.


Lemma disposeSession_forgets_witness :
  exists session' moduleIndex' partialIndex',
    disposeSession file_uri mail_session mail_module_index mail_index
    = (session', moduleIndex', partialIndex')
    /\ (session_id mail_session
        ∉ sessions_of moduleIndex' (file_uri "/proj/mail.hbs.js"))
    /\ (2%nat ∈ sessions_of moduleIndex' (file_uri "/proj/mail.hbs.js"))
    /\ (session_id mail_session
        ∉ sessions_of partialIndex' (file_uri "/proj/partials/old.hbs"))
    /\ no_empty_bucket moduleIndex'.
Proof.
  destruct (disposeSession file_uri mail_session mail_module_index mail_index)
    as [[session' moduleIndex'] partialIndex'] eqn:E.
  exists session', moduleIndex', partialIndex'. split; [reflexivity |].
  destruct (disposeSession_forgets file_uri mail_session mail_module_index
              mail_index session' moduleIndex' partialIndex'
              mail_module_index_no_empty_bucket mail_index_no_empty_bucket
              mail_session_modules_registered mail_session_registered E)
    as (Hgone & Hothers & Hne & _).
  split; [exact (proj1 (Hgone _)) |]. split; [| split].
  - apply (proj1 (Hothers _ 2%nat ltac:(discriminate))).
    unfold sessions_of, mail_module_index. rewrite lookup_insert_eq.
    cbv [default from_option id].
    rewrite elem_of_union, !elem_of_singleton. right. reflexivity.
  - exact (proj2 (Hgone _)).
  - exact Hne.
Defined.

(** ** One render of a preview *)

Section Render.

Variable uriOf : string -> string.
Variable expand : TemplateRenderer.Handlebars.

(** X28.  When no candidate module is open with unsaved changes or exists
    on disk, [render] renders the template with the default recipe and
    does not touch the loader; the session has no active module, tracks no
    partial, is in no bucket of the index of partials, and has no
    additional watcher left. *)
Theorem render_without_module host textDocuments folder templateContent
    session index watched st :
  (forall candidate,
      In candidate (moduleCandidates session) ->
      dirtyText textDocuments (path.normalize candidate) = None
      /\ fileExists host (path.normalize candidate) = false) ->
  no_empty_bucket index ->
  registered_for uriOf session (trackedPartials session) index ->
  exists session' index',
    render uriOf expand host textDocuments folder templateContent session
      index watched st
    = (TemplateRenderer.renderTemplate expand (store host) templateContent
         createDefaultRecipe
         (createProcessingContext folder
            (with_activeModulePath session None) None),
       session', index', [], st)
    /\ activeModulePath session' = None
    /\ trackedPartials session' = []
    /\ (forall key, session_id session ∉ sessions_of index' key)
    /\ (forall key id,
          id <> session_id session ->
          id ∈ sessions_of index' key <-> id ∈ sessions_of index key)
    /\ no_empty_bucket index'.
Proof.
  intros Hnone Hne Hreg.
  assert (resolveCompanionModule host (moduleCandidates session)
            (collectDirtyDocumentOverrides textDocuments) = None) as Hsel.
  { apply resolveCompanionModule_none. intros candidate Hc.
    rewrite collectDirtyDocumentOverrides_lookup. exact (Hnone _ Hc). }
  unfold render, renderRecipe. cbn zeta.
  cbn [moduleCandidates with_activeModulePath]. rewrite Hsel.
  cbn [fmap option_fmap option_map]. rewrite updateAdditionalWatchers_eq.
  cbn zeta. unfold keptPartials.
  cbn [Resolved.watchFiles Resolved.partialFiles createDefaultRecipe map
       List.filter fold_left uniqueStrings trackedPartials
       with_activeModulePath].
  eexists _, _. split; [reflexivity |].
  split; [reflexivity |]. split; [reflexivity |].
  change (fun index0 p =>
            untrackPartialSession uriOf (with_activeModulePath session None)
              p index0)
    with (fun index0 p => untrackPartialSession uriOf session p index0).
  split; [| split].
  - intros key. rewrite sessions_of_untrack_all. intros [Hin Hnot].
    apply Hnot. split; [reflexivity |]. apply Hreg, Hin.
  - intros key id Hid. rewrite sessions_of_untrack_all. split.
    + intros [H _]. exact H.
    + intros H. split; [exact H |]. intros [Heq _]. contradiction.
  - apply no_empty_bucket_untrack_all, Hne.
Qed.

(** X29.  When the module that [render] selects cannot be read, transpiled
    or executed, the error is what the preview shows; the session's
    tracked partials, the index of partials and the additional watchers
    stay as the previous render left them, the selected module becomes the
    active one, and the dependencies recorded for it are forgotten. *)
Theorem render_failed_module host textDocuments folder templateContent
    session index watched st modulePath source e :
  resolveCompanionModule host (moduleCandidates session)
    (collectDirtyDocumentOverrides textDocuments)
  = Some (modulePath, source) ->
  moduleRunOf host modulePath source folder None ≫= exported = Err e ->
  exists st',
    render uriOf expand host textDocuments folder templateContent session
      index watched st
    = (Err e, with_activeModulePath session (Some modulePath), index,
       watched, st')
    /\ getModuleDependenciesFor modulePath st' = [].
Proof.
  intros Hsel Hrun.
  assert (match source with
          | Some _ => true
          | None => fileExists host modulePath
          end = true) as Hexists.
  { revert Hsel. unfold resolveCompanionModule.
    induction (moduleCandidates session) as [| candidate candidates IH];
      cbn [fold_right]; [discriminate |].
    destruct (assoc_lookup (path.normalize candidate)
                (collectDirtyDocumentOverrides textDocuments)).
    - intros [= <- <-]. reflexivity.
    - destruct (fileExists host (path.normalize candidate)) eqn:Hdisk;
        [| exact IH].
      intros [= <- <-]. exact Hdisk. }
  unfold render, renderRecipe. cbn zeta.
  cbn [moduleCandidates with_activeModulePath]. rewrite Hsel.
  cbn [fmap option_fmap option_map fst].
  set (context := createProcessingContext folder _ _).
  set (options := Some _).
  assert (match options ≫= workspaceFolder with
          | Some w => Some w
          | None => ctx_workspaceFolder context
          end = folder) as Hws.
  { subst options context. cbn. destruct folder; reflexivity. }
  pose proof (loadModuleExports_result host modulePath source folder None st)
    as Hres.
  rewrite Hrun in Hres.
  destruct (loadModuleExports_state host modulePath source folder None st)
    as (_ & _ & Hkey & _).
  rewrite Hres in Hkey. cbn [is_ok] in Hkey.
  pose proof (loadTemplateRecipe_snd host modulePath context options st)
    as Hsnd.
  assert (fst (loadTemplateRecipe host modulePath context options st)
          = Err e) as Hfst.
  { unfold loadTemplateRecipe. rewrite Hws.
    change (options ≫= moduleSource) with source.
    change (options ≫= moduleSourceOverrides)
      with (@None (list (string * string))).
    rewrite Hexists. cbn [negb].
    destruct (loadModuleExports host modulePath source folder None st)
      as [raw st1].
    cbn [fst] in Hres. subst raw. reflexivity. }
  destruct (loadTemplateRecipe host modulePath context options st)
    as [recipe st'].
  cbn [fst snd] in Hfst, Hsnd. subst recipe.
  exists st'. split; [reflexivity |].
  rewrite Hsnd, Hws.
  change (options ≫= moduleSource) with source.
  change (options ≫= moduleSourceOverrides)
    with (@None (list (string * string))).
  rewrite Hexists. unfold getModuleDependenciesFor. rewrite Hkey.
  reflexivity.
Qed.

(** X30.  When the first candidate module is open in the editor with
    unsaved changes, [render] selects it and loads it from the editor's
    text: the whole outcome of the render is the same whatever the checks
    for the existence of files answer, for the module itself included, so
    the module need never have been saved. *)
Theorem render_unsaved_module host textDocuments folder templateContent
    session index watched st candidate candidates text exists' :
  moduleCandidates session = candidate :: candidates ->
  dirtyText textDocuments (path.normalize candidate) = Some text ->
  resolveCompanionModule host (moduleCandidates session)
    (collectDirtyDocumentOverrides textDocuments)
  = Some (path.normalize candidate, Some text)
  /\ render uriOf expand (with_fileExists host exists') textDocuments folder
       templateContent session index watched st
     = render uriOf expand host textDocuments folder templateContent session
         index watched st.
Proof.
  intros Hcandidates Hdirty.
  assert (forall host,
             resolveCompanionModule host (moduleCandidates session)
               (collectDirtyDocumentOverrides textDocuments)
             = Some (path.normalize candidate, Some text)) as Hsel.
  { intros host0. rewrite Hcandidates. unfold resolveCompanionModule.
    cbn [fold_right]. rewrite collectDirtyDocumentOverrides_lookup, Hdirty.
    reflexivity. }
  split; [apply Hsel |].
  unfold render, renderRecipe. cbn zeta.
  cbn [moduleCandidates with_activeModulePath]. rewrite !Hsel.
  cbn [fmap option_fmap option_map fst].
  set (context := createProcessingContext folder _ _).
  set (options := Some _).
  assert (loadTemplateRecipe (with_fileExists host exists')
            (path.normalize candidate) context options st
          = loadTemplateRecipe host (path.normalize candidate) context
              options st) as ->.
  { unfold loadTemplateRecipe.
    change (options ≫= moduleSource) with (Some text). reflexivity. }
  reflexivity.
Qed.

End Render.

Lemma render_without_module_witness :
  exists session' index',
    render file_uri mini_engine (table_host [] []) open_documents
      (Some "/proj") "{{> header}}" mail_session mail_index
      ["/proj/partials/old.hbs"] mail_loaded
    = (TemplateRenderer.renderTemplate mini_engine ∅ "{{> header}}"
         createDefaultRecipe
         (createProcessingContext (Some "/proj")
            (with_activeModulePath mail_session None) None),
       session', index', [], mail_loaded)
    /\ trackedPartials session' = []
    /\ (1%nat ∉ sessions_of index' (file_uri "/proj/partials/old.hbs"))
    /\ (2%nat ∈ sessions_of index' (file_uri "/proj/partials/old.hbs")).
Proof.
  destruct (render_without_module file_uri mini_engine (table_host [] [])
              open_documents (Some "/proj") "{{> header}}" mail_session
              mail_index ["/proj/partials/old.hbs"] mail_loaded)
    as (session' & index' & Hrender & _ & Htracked & Hgone & Hothers & _).
  - intros candidate [<- | [<- | []]]; split; vm_compute; reflexivity.
  - exact mail_index_no_empty_bucket.
  - exact mail_session_registered.
  - exists session', index'. split; [exact Hrender |].
    split; [exact Htracked |]. split; [exact (Hgone _) |].
    apply Hothers; [discriminate |].
    unfold sessions_of, mail_index. rewrite lookup_singleton_eq.
    cbv [default from_option id].
    rewrite elem_of_union, !elem_of_singleton. right. reflexivity.
Defined.

Lemma render_failed_module_witness :
  exists st',
    render file_uri mini_engine two_modules_host typing_documents
      (Some "/proj") "{{> header}}" mail_session mail_index
      ["/proj/partials/old.hbs"] mail_loaded
    = (Err (Thrown "SyntaxError: Unexpected token"),
       with_activeModulePath mail_session (Some "/proj/mail.hbs.js"),
       mail_index, ["/proj/partials/old.hbs"], st')
    /\ getModuleDependenciesFor "/proj/mail.hbs.js" st' = []
    /\ getModuleDependenciesFor "/proj/mail.hbs.js" mail_loaded
       = ["/proj/dep.ts"; "/proj/helper.ts"].
Proof.
  destruct (render_failed_module file_uri mini_engine two_modules_host
              typing_documents (Some "/proj") "{{> header}}" mail_session
              mail_index ["/proj/partials/old.hbs"] mail_loaded
              "/proj/mail.hbs.js" (Some "module.exports = {")
              (Thrown "SyntaxError: Unexpected token"))
    as (st' & Hrender & Hdeps).
  - vm_compute. reflexivity.
  - vm_compute. reflexivity.
  - exists st'. split; [exact Hrender |]. split; [exact Hdeps |].
    vm_compute. reflexivity.
Defined.

Lemma render_unsaved_module_witness :
  resolveCompanionModule two_modules_host (moduleCandidates mail_session)
    (collectDirtyDocumentOverrides typing_documents)
  = Some ("/proj/mail.hbs.js", Some "module.exports = {")
  /\ render file_uri mini_engine
       (with_fileExists two_modules_host (fun _ => false)) typing_documents
       (Some "/proj") "{{> header}}" mail_session mail_index
       ["/proj/partials/old.hbs"] mail_loaded
     = render file_uri mini_engine two_modules_host typing_documents
         (Some "/proj") "{{> header}}" mail_session mail_index
         ["/proj/partials/old.hbs"] mail_loaded.
Proof.
  apply (render_unsaved_module file_uri mini_engine two_modules_host
           typing_documents (Some "/proj") "{{> header}}" mail_session
           mail_index ["/proj/partials/old.hbs"] mail_loaded
           "/proj/mail.hbs.js" ["/proj/mail.hbs.ts"] "module.exports = {"
           (fun _ => false)).
  - reflexivity.
  - vm_compute. reflexivity.
Defined.
